(** * Chrono Divide bot: squad cohesion, awareness, combat behaviour, transport loading

    A shallow embedding of the decision code of the bot:
    - [calculateCenterOfMass] and the class [Squad];
    - [rebuildQuadtree] and the class [MatchAwarenessImpl];
    - the script step handler [LoadOntoTransportHandler];
    - the mission behaviour [CombatSquad];
    - the squad's member queries and the micro methods [manageMoveMicro]
      and [manageAttackMicro].

    JavaScript numbers are idealised as real numbers: rounding error and
    the infinities are outside the model, and NaN appears only as the
    missing result of [Math.pow] on a negative base.  Unit ids, ticks,
    passenger slots and sizes are integers.  Objects that the code mutates
    in place become records that the operations return updated; where an
    exception may leave a half-written object behind, the state travels
    with the exception. *)

From Stdlib Require Import String.
From Stdlib Require Import ZArith List Bool Lia Reals Lra.
Import ListNotations.

Set Implicit Arguments.

(* ================================================================== *)
(** * Part I: the program                                               *)
(* ================================================================== *)

(** ** JavaScript primitives used by the code *)
Module JS.

(** [a > b], [a <= b] and [a < b] on numbers, as booleans. *)
Definition gt (a b : R) : bool := if Rgt_dec a b then true else false.
Definition le (a b : R) : bool := if Rle_dec a b then true else false.
Definition lt (a b : R) : bool := if Rlt_dec a b then true else false.

(** Truthiness of a number: every number but zero. *)
Definition truthy (x : R) : bool := if Req_dec_T x 0 then false else true.

(** Truthiness of an integer id. *)
Definition truthyZ (z : Z) : bool := negb (z =? 0)%Z.

(** [x || 0] on a number. *)
Definition or0 (x : R) : R := if truthy x then x else 0%R.

Definition isSome {A} (o : option A) : bool :=
  match o with Some _ => true | None => false end.

(** [a ?? b]. *)
Definition nullish {A} (o : option A) (d : A) : A :=
  match o with Some a => a | None => d end.

(** [xs.filter(x => !!x)] on an array of possibly undefined values. *)
Fixpoint somes {A} (l : list (option A)) : list A :=
  match l with
  | [] => []
  | Some a :: t => a :: somes t
  | None :: t => somes t
  end.

(** [Math.round]: the nearest integer, halves going up. *)
Definition Math_round (x : R) : R := IZR (Int_part (x + / 2)).

Definition Math_max (a b : R) : R := Rmax a b.

(** [Math.pow(x, y)] for a positive exponent [y] that is not an integer
    (the code calls it with 1.025 only): zero stays zero, and a negative
    base has no result (NaN, here [None]). *)
Definition Math_pow (x y : R) : option R :=
  if Rlt_dec 0 x then Some (Rpower x y)
  else if Req_dec_T x 0 then Some 0%R
  else None.

(** [a > b] where [a] may be NaN: any comparison with NaN is false. *)
Definition gt_nan (a : option R) (b : R) : bool :=
  match a with Some a => gt a b | None => false end.

(** lodash's [_.max]: [undefined] on the empty array. *)
Definition lodash_max (l : list R) : option R :=
  match l with
  | [] => None
  | x :: t => Some (fold_left (fun computed current =>
                                 if gt current computed then current else computed) t x)
  end.

End JS.

(** ** Data of the game API that the code reads *)

Record Point2D := { x : R; y : R }.

Record Tile := { rx : R; ry : R }.

Inductive MovementZone :=
| Amphibious | Crusher | Destroyer | Fly | Infantry | InfantryDestroyer
| Normal | Subterranean | Water.

Record TechnoRules := {
  isSelectableCombatant : bool;
  movementZone : MovementZone;
  passengers : Z;
  size : Z
}.

Record WeaponData := { maxRange : R }.

Record UnitData := {
  id : Z;
  owner : string;
  rules : TechnoRules;
  tile : option Tile;          (* read as [unit?.tile] and tested with [!!tile] *)
  canMove : bool;              (* [canMove?: boolean], absent reads as false *)
  primaryWeapon : option WeaponData;
  secondaryWeapon : option WeaponData
}.

(** ** The map helpers *)
Module MapUtil.

(** Modelled from the spec: [getDistanceBetweenPoints] of [map.ts] is not
    among the sources; the spec calls it the exact Euclidean distance
    between two points. *)
Definition getDistanceBetweenPoints (a b : Point2D) : R :=
  sqrt ((x a - x b) * (x a - x b) + (y a - y b) * (y a - y b)).

End MapUtil.

(** ** The squad *)
Module SquadM.
Import JS MapUtil.

Inductive SquadLiveness := SquadDead | SquadActive.

Record TileMetrics := { tm_centerOfMass : Point2D; tm_maxDistance : option R }.

Definition calculateCenterOfMass (unitTiles : list Tile) : option TileMetrics :=
  if (length unitTiles =? 0)%nat then None
  else
    let sums :=
      fold_left (fun acc tile => (fst acc + or0 (rx tile), snd acc + or0 (ry tile))%R)
                unitTiles (0%R, 0%R) in
    let centerOfMass :=
      {| x := Math_round (fst sums / INR (length unitTiles));
         y := Math_round (snd sums / INR (length unitTiles)) |} in
    let distances :=
      map (fun tile => getDistanceBetweenPoints {| x := rx tile; y := ry tile |} centerOfMass)
          unitTiles in
    let maxDistance := lodash_max distances in
    Some {| tm_centerOfMass := centerOfMass; tm_maxDistance := maxDistance |}.

(** What [Squad] reads of the game: the tick and the unit lookup, which
    answers [undefined] for a unit that is gone. *)
Record GameApi := {
  getCurrentTick : Z;
  getUnitData : Z -> option UnitData
}.

(** A mission, of which the squad only asks [isActive()]. *)
Record Mission := { missionName : string; isActive : bool }.

Inductive SquadAction :=
| disband
| behaviourAction (tag : Z).

Record Squad := {
  unitIds : list Z;
  liveness : SquadLiveness;
  lastLivenessUpdateTick : Z;
  centerOfMass : option Point2D;
  maxDistanceToCenterOfMass : option R;
  mission : option Mission;
  killable : bool
}.

(** [new Squad(name, behaviour, mission, killable)]. *)
Definition newSquad (m : option Mission) (k : bool) : Squad :=
  {| unitIds := []; liveness := SquadActive; lastLivenessUpdateTick := 0;
     centerOfMass := None; maxDistanceToCenterOfMass := None;
     mission := m; killable := k |}.

Definition set_unitIds (s : Squad) (ids : list Z) : Squad :=
  {| unitIds := ids; liveness := liveness s;
     lastLivenessUpdateTick := lastLivenessUpdateTick s;
     centerOfMass := centerOfMass s;
     maxDistanceToCenterOfMass := maxDistanceToCenterOfMass s;
     mission := mission s; killable := killable s |}.

Definition set_liveness (s : Squad) (l : SquadLiveness) : Squad :=
  {| unitIds := unitIds s; liveness := l;
     lastLivenessUpdateTick := lastLivenessUpdateTick s;
     centerOfMass := centerOfMass s;
     maxDistanceToCenterOfMass := maxDistanceToCenterOfMass s;
     mission := mission s; killable := killable s |}.

Definition set_tick (s : Squad) (t : Z) : Squad :=
  {| unitIds := unitIds s; liveness := liveness s;
     lastLivenessUpdateTick := t;
     centerOfMass := centerOfMass s;
     maxDistanceToCenterOfMass := maxDistanceToCenterOfMass s;
     mission := mission s; killable := killable s |}.

Definition set_cohesion (s : Squad) (c : option Point2D) (d : option R) : Squad :=
  {| unitIds := unitIds s; liveness := liveness s;
     lastLivenessUpdateTick := lastLivenessUpdateTick s;
     centerOfMass := c;
     maxDistanceToCenterOfMass := d;
     mission := mission s; killable := killable s |}.

Definition set_mission (s : Squad) (m : option Mission) : Squad :=
  {| unitIds := unitIds s; liveness := liveness s;
     lastLivenessUpdateTick := lastLivenessUpdateTick s;
     centerOfMass := centerOfMass s;
     maxDistanceToCenterOfMass := maxDistanceToCenterOfMass s;
     mission := m; killable := killable s |}.

Definition removeUnit (s : Squad) (unitIdToRemove : Z) : Squad :=
  set_unitIds s (filter (fun unitId => negb (unitId =? unitIdToRemove)%Z) (unitIds s)).

Definition addUnit (s : Squad) (unitIdToAdd : Z) : Squad :=
  set_unitIds s (unitIds s ++ [unitIdToAdd]).

Definition setMission (s : Squad) (m : option Mission) : Squad :=
  set_mission s m.

Definition updateLiveness (gameApi : GameApi) (s : Squad) : Squad :=
  let s := set_unitIds s (filter (fun unitId => isSome (getUnitData gameApi unitId))
                                 (unitIds s)) in
  let s := set_tick s (getCurrentTick gameApi) in
  if killable s && (length (unitIds s) =? 0)%nat then
    match liveness s with
    | SquadActive => set_liveness s SquadDead
    | SquadDead => s
    end
  else s.

(** The tiles that enter the cohesion metrics: the members that resolve,
    whose [canMove] is truthy and whose [tile] is truthy. *)
Definition movableUnitTiles (gameApi : GameApi) (s : Squad) : list Tile :=
  somes
    (map (fun unit => match unit with Some u => tile u | None => None end)
       (filter (fun unit => match unit with Some u => canMove u | None => false end)
          (map (fun unitId => getUnitData gameApi unitId) (unitIds s)))).

Section Behaviour.
(** The squad's behaviour, a collaborator behind the [SquadBehaviour]
    interface. *)
Variable behaviour_onAiUpdate : GameApi -> Squad -> SquadAction.

Definition onAiUpdate (gameApi : GameApi) (s : Squad) : Squad * SquadAction :=
  let s := updateLiveness gameApi s in
  let tileMetrics := calculateCenterOfMass (movableUnitTiles gameApi s) in
  let s :=
    match tileMetrics with
    | Some tm => set_cohesion s (Some (tm_centerOfMass tm)) (tm_maxDistance tm)
    | None => set_cohesion s None None
    end in
  match mission s with
  | Some m =>
      if negb (isActive m) then (set_mission s None, disband)
      else (s, behaviour_onAiUpdate gameApi s)
  | None => (s, disband)
  end.

(** The calls a squad receives over its life. *)
Inductive SquadCall :=
| CallOnAiUpdate (gameApi : GameApi)
| CallAddUnit (unitId : Z)
| CallRemoveUnit (unitId : Z)
| CallSetMission (m : option Mission).

Definition call (s : Squad) (c : SquadCall) : Squad :=
  match c with
  | CallOnAiUpdate g => fst (onAiUpdate g s)
  | CallAddUnit u => addUnit s u
  | CallRemoveUnit u => removeUnit s u
  | CallSetMission m => setMission s m
  end.

Definition calls (s : Squad) (cs : list SquadCall) : Squad :=
  fold_left call cs s.

(** How many of the calls find the squad active and leave it dead. *)
Fixpoint deaths (s : Squad) (cs : list SquadCall) : nat :=
  match cs with
  | [] => 0
  | c :: cs' =>
      (match liveness s, liveness (call s c) with
       | SquadActive, SquadDead => 1
       | _, _ => 0
       end + deaths (call s c) cs')%nat
  end.

End Behaviour.

End SquadM.

(** ** The match awareness *)
Module Awareness.
Import JS MapUtil.

(** The threat snapshot ([GlobalThreat] of [threat.ts]), with the fields
    that the awareness code reads. *)
Record GlobalThreat := {
  totalOffensiveLandThreat : R;
  totalOffensiveAirThreat : R;
  totalOffensiveAntiAirThreat : R;
  totalDefensiveThreat : R;
  totalDefensivePower : R;
  totalAvailableAntiGroundFirepower : R;
  totalAvailableAntiAirFirepower : R;
  totalAvailableAirPower : R
}.

(** [Circle<number>] of the quadtree library; [data] is optional there. *)
Record Circle := { cx : R; cy : R; cr : R; data : option Z }.

Definition QTUnit := Circle.

Record UnitPositionQuery := { qx : R; qy : R; unitId : option Z }.

(** The quadtree holds the circles inserted since it was last cleared. *)
Definition Quadtree := list QTUnit.

Record PlayerData := {
  name : string;
  isCombatant : bool;
  startLocation : Point2D
}.

(** A call into the engine either answers or throws. *)
Inductive Result (A : Type) :=
| Ok (a : A)
| Raise.
Arguments Raise {A}.

Record GameApi := {
  getCurrentTick : Z;
  getTickRate : Z;
  getPlayers : list string;
  getPlayerData : string -> PlayerData;
  areAlliedPlayers : string -> string -> bool;
  (** [getVisibleUnits(player, "hostile", r => r.isSelectableCombatant || building)] *)
  getVisibleUnits : string -> list Z;
  getUnitData : Z -> Result (option UnitData)
}.

(** The sector cache, as it answers after this tick's [updateSectors]. *)
Record SectorCache := {
  getSectorUpdateRatio : Z -> option R;
  getOverallVisibility : option R
}.

Inductive LogEntry :=
| LogSectorsUpdated (percent : R)
| LogTilesVisible (visibility : R)
| LogThreatLand (them us : R)
| LogThreatDefensive (them us : R)
| LogThreatAir (them us : R)
| LogGameLength (gameLengthFactor : R)
| LogSwitchedToAttack
| LogSwitchedToDefence
| ConsoleError (hostileUnitIds : list Z).

(** The fields of [MatchAwarenessImpl], and the lines written so far. *)
Record State := {
  _shouldAttack : bool;
  hostileQuadTree : Quadtree;
  threatCache : option GlobalThreat;
  mainRallyPoint : Point2D;
  logged : list LogEntry
}.

Definition set_shouldAttack (s : State) (b : bool) : State :=
  {| _shouldAttack := b; hostileQuadTree := hostileQuadTree s;
     threatCache := threatCache s; mainRallyPoint := mainRallyPoint s;
     logged := logged s |}.

Definition set_quadTree (s : State) (q : Quadtree) : State :=
  {| _shouldAttack := _shouldAttack s; hostileQuadTree := q;
     threatCache := threatCache s; mainRallyPoint := mainRallyPoint s;
     logged := logged s |}.

Definition set_threatCache (s : State) (t : option GlobalThreat) : State :=
  {| _shouldAttack := _shouldAttack s; hostileQuadTree := hostileQuadTree s;
     threatCache := t; mainRallyPoint := mainRallyPoint s;
     logged := logged s |}.

Definition set_rallyPoint (s : State) (p : Point2D) : State :=
  {| _shouldAttack := _shouldAttack s; hostileQuadTree := hostileQuadTree s;
     threatCache := threatCache s; mainRallyPoint := p;
     logged := logged s |}.

Definition add_log (s : State) (e : LogEntry) : State :=
  {| _shouldAttack := _shouldAttack s; hostileQuadTree := hostileQuadTree s;
     threatCache := threatCache s; mainRallyPoint := mainRallyPoint s;
     logged := logged s ++ [e] |}.

(** *** Statements that mutate the object and may throw

    A statement maps the state to an outcome.  What was written before
    an exception stays written: the state travels with [Thrown]. *)
Inductive Outcome (A : Type) :=
| Returned (a : A) (s : State)
| Thrown (s : State).
Arguments Thrown {A}.

Definition M (A : Type) := State -> Outcome A.

Definition ret {A} (a : A) : M A := fun s => Returned a s.

Definition bind {A B} (m : M A) (k : A -> M B) : M B :=
  fun s => match m s with
           | Returned a s' => k a s'
           | Thrown s' => Thrown s'
           end.

Definition throw {A} : M A := fun s => Thrown s.

Definition try_catch {A} (body : M A) (handler : M A) : M A :=
  fun s => match body s with
           | Returned a s' => Returned a s'
           | Thrown s' => handler s'
           end.

Definition modify (f : State -> State) : M unit := fun s => Returned tt (f s).

Definition gets {A} (f : State -> A) : M A := fun s => Returned (f s) s.

Definition lift {A} (r : Result A) : M A :=
  match r with Ok a => ret a | Raise => throw end.

Definition when (b : bool) (m : M unit) : M unit := if b then m else ret tt.

Definition outcome_state {A} (o : Outcome A) : State :=
  match o with Returned _ s => s | Thrown s => s end.

Definition returns {A} (o : Outcome A) : bool :=
  match o with Returned _ _ => true | Thrown _ => false end.

Declare Scope aw_scope.
Notation "x <- m ;; k" := (bind m (fun x => k))
  (at level 61, m at next level, right associativity) : aw_scope.
Notation "m ;; k" := (bind m (fun _ => k))
  (at level 61, right associativity) : aw_scope.
Local Open Scope aw_scope.

(** [xs.map(f)] where [f] may throw. *)
Fixpoint mapResult {A B} (f : A -> Result B) (l : list A) : Result (list B) :=
  match l with
  | [] => Ok []
  | a :: t =>
      match f a with
      | Raise => Raise
      | Ok b => match mapResult f t with
                | Raise => Raise
                | Ok bs => Ok (b :: bs)
                end
      end
  end.

Definition logger (e : LogEntry) : M unit := modify (fun s => add_log s e).

(** [rebuildQuadtree]: clear, then insert a circle per unit.  Reading
    [unit.tile.rx] of a unit without a tile throws. *)
Fixpoint insertUnits (units : list UnitData) : M unit :=
  match units with
  | [] => ret tt
  | unit :: rest =>
      match tile unit with
      | None => throw
      | Some t =>
          modify (fun s => set_quadTree s
                     (hostileQuadTree s ++
                        [{| cx := rx t; cy := ry t; cr := 1; data := Some (id unit) |}])) ;;
          insertUnits rest
      end
  end.

Definition rebuildQuadtree (units : list UnitData) : M unit :=
  modify (fun s => set_quadTree s []) ;;
  insertUnits units.

Definition checkShouldAttack (threatCache : GlobalThreat) (threatFactor : R) : bool :=
  let scaledGroundPower := Math_pow (totalAvailableAntiGroundFirepower threatCache) 1.025 in
  let scaledGroundThreat :=
    ((threatFactor * totalOffensiveLandThreat threatCache + totalDefensiveThreat threatCache)
     * 1.1)%R in
  let scaledAirPower := Math_pow (totalAvailableAirPower threatCache) 1.025 in
  let scaledAirThreat :=
    ((threatFactor * totalOffensiveAntiAirThreat threatCache + totalDefensiveThreat threatCache)
     * 1.1)%R in
  gt_nan scaledGroundPower scaledGroundThreat || gt_nan scaledAirPower scaledAirThreat.

Definition isHostileUnit (unit : option UnitData) (hostilePlayerNames : list string) : bool :=
  match unit with
  | None => false
  | Some u => existsb (String.eqb (owner u)) hostilePlayerNames
  end.

Definition SECTORS_TO_UPDATE_PER_CYCLE : Z := 8.
Definition RALLY_POINT_UPDATE_INTERVAL_TICKS : Z := 60.
Definition THREAT_UPDATE_INTERVAL_TICKS : Z := 30.

Section Collaborators.
(** [quadtree.retrieve(circle)] of the quadtree library: the candidates
    it hands back for a query shape, whatever they are. *)
Variable retrieve : Quadtree -> Circle -> list QTUnit.
(** [calculateGlobalThreat] of the threat calculator. *)
Variable calculateGlobalThreat : GameApi -> PlayerData -> R -> GlobalThreat.
(** [getPointTowardsOtherPoint(game, from, to, 10, 10, 0)] of the map code. *)
Variable getPointTowardsOtherPoint : GameApi -> Point2D -> Point2D -> Point2D.

Definition getHostilesNearPoint (s : State) (searchX searchY radius : R)
  : list UnitPositionQuery :=
  let intersections :=
    retrieve (hostileQuadTree s)
             {| cx := searchX; cy := searchY; cr := radius; data := None |} in
  filter (fun q => match unitId q with Some i => truthyZ i | None => false end)
    (filter (fun q => le (getDistanceBetweenPoints {| x := qx q; y := qy q |}
                                                   {| x := searchX; y := searchY |})
                         radius)
       (map (fun c => {| qx := cx c; qy := cy c; unitId := data c |}) intersections)).

Definition getHostilesNearPoint2d (s : State) (point : Point2D) (radius : R) :=
  getHostilesNearPoint s (x point) (y point) radius.

Definition hostilePlayerNamesOf (game : GameApi) (playerData : PlayerData) : list string :=
  map name
    (filter (fun other =>
               negb (String.eqb (name other) (name playerData))
               && isCombatant other
               && negb (areAlliedPlayers game (name playerData) (name other)))
       (map (getPlayerData game) (getPlayers game))).

(** The [try] block of [onAiUpdate] with its [catch]. *)
Definition rebuildStep (game : GameApi) (playerData : PlayerData) : M unit :=
  let hostilePlayerNames := hostilePlayerNamesOf game playerData in
  let hostileUnitIds := getVisibleUnits game (name playerData) in
  try_catch
    (looked <- lift (mapResult (getUnitData game) hostileUnitIds) ;;
     let hostileUnits :=
       somes (filter (fun unit => isHostileUnit unit hostilePlayerNames) looked) in
     rebuildQuadtree hostileUnits)
    (logger (ConsoleError hostileUnitIds)).

Definition gameLengthFactor (game : GameApi) : R :=
  Math_max 0 (1.0 - IZR (getCurrentTick game) / (15 * 7200.0)).

(** The block under [tick % THREAT_UPDATE_INTERVAL_TICKS == 0]. *)
Definition threatStep (game : GameApi) (playerData : PlayerData)
           (sectorCache : SectorCache) : M unit :=
  when (Z.rem (getCurrentTick game) THREAT_UPDATE_INTERVAL_TICKS =? 0)%Z
    (match getOverallVisibility sectorCache with
     | None => ret tt
     | Some visibility =>
         when (truthy visibility)
           (logger (LogTilesVisible visibility) ;;
            let tc := calculateGlobalThreat game playerData visibility in
            modify (fun s => set_threatCache s (Some tc)) ;;
            logger (LogThreatLand (totalOffensiveLandThreat tc)
                                  (totalAvailableAntiGroundFirepower tc)) ;;
            logger (LogThreatDefensive (totalDefensiveThreat tc)
                                       (totalDefensivePower tc)) ;;
            logger (LogThreatAir (totalOffensiveAirThreat tc)
                                 (totalAvailableAntiAirFirepower tc)) ;;
            let gameLengthFactor := gameLengthFactor game in
            logger (LogGameLength gameLengthFactor) ;;
            attacking <- gets _shouldAttack ;;
            if negb attacking then
              modify (fun s => set_shouldAttack s
                                 (checkShouldAttack tc (1.25 * gameLengthFactor))) ;;
              now <- gets _shouldAttack ;;
              when now (logger LogSwitchedToAttack)
            else
              modify (fun s => set_shouldAttack s
                                 (checkShouldAttack tc (0.75 * gameLengthFactor))) ;;
              now <- gets _shouldAttack ;;
              when (negb now) (logger LogSwitchedToDefence))
     end).

(** The block under [tick % RALLY_POINT_UPDATE_INTERVAL_TICKS === 0].
    With no enemy player, [enemyPlayers[0]] is [undefined] and reading
    the start location of its player data throws. *)
Definition rallyStep (game : GameApi) (playerData : PlayerData) : M unit :=
  when (Z.rem (getCurrentTick game) RALLY_POINT_UPDATE_INTERVAL_TICKS =? 0)%Z
    (let enemyPlayers :=
       filter (fun p => negb (String.eqb p (name playerData))
                        && negb (areAlliedPlayers game (name playerData) p))
              (getPlayers game) in
     match enemyPlayers with
     | [] => throw
     | first :: _ =>
         let enemy := getPlayerData game first in
         modify (fun s => set_rallyPoint s
                   (getPointTowardsOtherPoint game (startLocation playerData)
                                              (startLocation enemy)))
     end).

Definition sectorStep (game : GameApi) (sectorCache : SectorCache) : M unit :=
  match getSectorUpdateRatio sectorCache
          (getCurrentTick game - getTickRate game * 60)%Z with
  | None => ret tt
  | Some updateRatio =>
      when (truthy updateRatio && lt updateRatio 1.0)
           (logger (LogSectorsUpdated (updateRatio * 100.0)))
  end.

Definition onAiUpdate (game : GameApi) (playerData : PlayerData)
           (sectorCache : SectorCache) : M unit :=
  sectorStep game sectorCache ;;
  rebuildStep game playerData ;;
  threatStep game playerData sectorCache ;;
  rallyStep game playerData.

End Collaborators.

End Awareness.

(** ** The script step handlers: loading onto transports *)
Module Scripts.
Import JS.

Inductive ScriptStepResult :=
| repeat
| step
| disbandStep
| goToLine (line : Z).

Inductive Order :=
| DeploySelected (unitIds : list Z)
| EnterTransport (unitIds : list Z) (target : Z).

Definition LOAD_TIME_LIMIT : Z := 300.

(** A JavaScript [Map<number, number>]: its entries in insertion order,
    one per key. *)
Definition NumMap := list (Z * Z).

(** [m.set(k, v)]: an existing key keeps its place. *)
Fixpoint map_set (m : NumMap) (k v : Z) : NumMap :=
  match m with
  | [] => [(k, v)]
  | (k', v') :: t => if (k' =? k)%Z then (k, v) :: t else (k', v') :: map_set t k v
  end.

(** [m.delete(k)]. *)
Definition map_delete (m : NumMap) (k : Z) : NumMap :=
  filter (fun e => negb (fst e =? k)%Z) m.

(** [new Map(entries)]. *)
Definition map_of_entries (entries : list (Z * Z)) : NumMap :=
  fold_left (fun m e => map_set m (fst e) (snd e)) entries [].

(** [xs.pop() ?? null] on a copy: the last element, if any. *)
Fixpoint last_opt {A} (l : list A) : option A :=
  match l with
  | [] => None
  | [a] => Some a
  | _ :: t => last_opt t
  end.

Record LoadOntoTransportHandler := {
  transporters : option (list Z);
  transporteesToTransport : NumMap;
  abortAt : option Z
}.

(** [new LoadOntoTransportHandler()]. *)
Definition newHandler : LoadOntoTransportHandler :=
  {| transporters := None; transporteesToTransport := []; abortAt := None |}.

(** The [while] loop of [onStart].  [stack] lists [transportedUnits] in
    the order in which [pop()] hands them out, the last one first. *)
Fixpoint assignLoop (stack : list UnitData) (remainingSizes assigned : NumMap) : NumMap :=
  match stack with
  | [] => assigned
  | unit :: rest =>
      if (length remainingSizes =? 0)%nat then assigned
      else
        let fittingTransport :=
          last_opt (filter (fun e => (snd e >=? size (rules unit))%Z) remainingSizes) in
        match fittingTransport with
        | Some (transportId, slots) =>
            let assigned := map_set assigned (id unit) transportId in
            let remainingSizes :=
              map_set remainingSizes transportId (slots - size (rules unit)) in
            let remainingSizes :=
              if (slots - size (rules unit) =? 0)%Z
              then map_delete remainingSizes transportId
              else remainingSizes in
            assignLoop rest remainingSizes assigned
        | None => assignLoop rest remainingSizes assigned
        end
  end.

(** [onStart], given the tick and [mission.getUnits(gameApi)]. *)
Definition onStart (currentTick : Z) (allUnits : list UnitData)
           (h : LoadOntoTransportHandler) : LoadOntoTransportHandler * list Order :=
  let transportUnits := filter (fun u => (passengers (rules u) >? 0)%Z) allUnits in
  let transporters_ := map id transportUnits in
  let remainingSizes :=
    map_of_entries (map (fun t => (id t, passengers (rules t))) transportUnits) in
  let transportedUnits :=
    filter (fun u => (size (rules u) >? 0)%Z
                     && negb (existsb (Z.eqb (id u)) transporters_)) allUnits in
  let assigned :=
    assignLoop (rev transportedUnits) remainingSizes (transporteesToTransport h) in
  ({| transporters := Some transporters_;
      transporteesToTransport := assigned;
      abortAt := Some (currentTick + LOAD_TIME_LIMIT)%Z |},
   [DeploySelected transporters_]).

(** [onStep].  [forEach] hands its callback the value and then the key:
    the callback's [unitId] is the entry's transport, its [transportId]
    the entry's passenger. *)
Definition onStep (currentTick : Z) (h : LoadOntoTransportHandler)
  : ScriptStepResult * list Order :=
  if negb (isSome (transporters h))
     || match abortAt h with
        | Some a => truthyZ a && (currentTick >? a)%Z
        | None => false
        end
  then (step, [])
  else
    (repeat,
     map (fun e => let unitId := snd e in
                   let transportId := fst e in
                   EnterTransport [transportId] unitId)
         (transporteesToTransport h)).

End Scripts.

(** ** The combat squad behaviour *)
Module Combat.
Import JS.

Definition TARGET_UPDATE_INTERVAL_TICKS : Z := 10.
Definition GRAB_INTERVAL_TICKS : Z := 10.
Definition GRAB_RADIUS : R := 20.
Definition MIN_GATHER_RADIUS : R := 5.
Definition MAX_GATHER_RADIUS : R := 15.
Definition GATHER_RATIO : R := 10.

Inductive SquadState := Gathering | Attacking.

Inductive MissionAction :=
| noop
| grabCombatants (point : Point2D) (radius : R).

(** What the behaviour pushes to the action batcher. *)
Inductive BatchableAction :=
| manageMoveMicro (unit : UnitData) (attackPoint : Point2D)
| manageAttackMicro (unit : UnitData) (target : UnitData).

Inductive DebugTarget :=
| DebugUnit (unitId : Z)
| DebugPoint (px py : R).

Inductive LogLine :=
| LogSwitchToAttack (maxDistance : option R)
| LogSwitchToGather (maxDistance : option R).

Record CombatSquad := {
  lastGrab : option Z;
  lastCommand : option Z;
  state : SquadState;
  debugLastTarget : option DebugTarget;
  rallyArea : Point2D;
  targetArea : option Point2D
}.

(** [new CombatSquad(rallyArea, targetArea, radius)]. *)
Definition newCombatSquad (rally : Point2D) (target : option Point2D) : CombatSquad :=
  {| lastGrab := None; lastCommand := None; state := Gathering;
     debugLastTarget := None; rallyArea := rally; targetArea := target |}.

Definition set_lastGrab (c : CombatSquad) (t : option Z) : CombatSquad :=
  {| lastGrab := t; lastCommand := lastCommand c; state := state c;
     debugLastTarget := debugLastTarget c; rallyArea := rallyArea c;
     targetArea := targetArea c |}.

Definition set_lastCommand (c : CombatSquad) (t : option Z) : CombatSquad :=
  {| lastGrab := lastGrab c; lastCommand := t; state := state c;
     debugLastTarget := debugLastTarget c; rallyArea := rallyArea c;
     targetArea := targetArea c |}.

Definition set_state (c : CombatSquad) (st : SquadState) : CombatSquad :=
  {| lastGrab := lastGrab c; lastCommand := lastCommand c; state := st;
     debugLastTarget := debugLastTarget c; rallyArea := rallyArea c;
     targetArea := targetArea c |}.

Definition set_debugLastTarget (c : CombatSquad) (d : option DebugTarget) : CombatSquad :=
  {| lastGrab := lastGrab c; lastCommand := lastCommand c; state := state c;
     debugLastTarget := d; rallyArea := rallyArea c;
     targetArea := targetArea c |}.

(** What one update reads of the game, the mission and the awareness. *)
Record Env := {
  getCurrentTick : Z;
  getUnitData : Z -> option UnitData;
  (** [gameApi.mapApi.getTile(x, y)] *)
  getTile : R -> R -> option Tile;
  startLocation : Point2D;
  (** [mission.getUnitIds()], [getCenterOfMass()], [getMaxDistanceToCenterOfMass()] *)
  missionUnitIds : list Z;
  getCenterOfMass : option Point2D;
  getMaxDistanceToCenterOfMass : option R;
  (** [matchAwareness.getHostilesNearPoint(x, y, radius)] *)
  getHostilesNearPoint : R -> R -> R -> list Awareness.UnitPositionQuery;
  (** [maxBy(hostiles, target => getAttackWeight(unit, target))] *)
  maxByAttackWeight : UnitData -> list (option UnitData) -> option UnitData
}.

(** [getUnitsMatching(gameApi, filter)], as [Squad] defines it. *)
Definition getUnitsMatching (e : Env) (f : UnitData -> bool) : list UnitData :=
  somes (filter (fun unit => match unit with Some u => f u | None => false end)
                (map (getUnitData e) (missionUnitIds e))).

(** [!this.lastCommand], [!this.lastGrab]: no tick yet, or tick zero. *)
Definition notSet (t : option Z) : bool :=
  match t with Some v => negb (truthyZ v) | None => true end.

(** [centerOfMass && maxDistance && getTile(...) !== undefined && maxDistance > required],
    with the center it found when it holds. *)
Definition spreadBeyond (e : Env) (requiredGatherRadius : R) : option Point2D :=
  match getCenterOfMass e, getMaxDistanceToCenterOfMass e with
  | Some centerOfMass, Some maxDistance =>
      if truthy maxDistance
         && isSome (getTile e (x centerOfMass) (y centerOfMass))
         && gt maxDistance requiredGatherRadius
      then Some centerOfMass else None
  | _, _ => None
  end.

Definition isGroundCombatant (r : UnitData) : bool :=
  isSelectableCombatant (rules r)
  && match movementZone (rules r) with
     | Infantry | Normal | InfantryDestroyer => true
     | _ => false
     end.

(** How a block or the method ends: it runs on to the next statement,
    it leaves through [return noop()], or it throws. *)
Inductive Exit := RunsOn | ReturnsNoop | Throws.

(** The body of [for (const unit of units)] in the attacking branch.
    Destructuring [unit.tile] of a unit without a tile throws: [None]. *)
Definition attackWith (e : Env) (targetPoint : Point2D) (unit : UnitData)
  : option (BatchableAction * DebugTarget) :=
  match tile unit with
  | None => None
  | Some t =>
      let range :=
        match primaryWeapon unit with
        | Some w => maxRange w
        | None => match secondaryWeapon unit with
                  | Some w => maxRange w
                  | None => 5%R
                  end
        end in
      let nearbyHostiles :=
        map (fun q => match Awareness.unitId q with
                      | Some i => getUnitData e i
                      | None => None
                      end)
            (getHostilesNearPoint e (rx t) (ry t) (range * 2)) in
      match maxByAttackWeight e unit nearbyHostiles with
      | Some bestUnit => Some (manageAttackMicro unit bestUnit, DebugUnit (id bestUnit))
      | None => Some (manageMoveMicro unit targetPoint,
                      DebugPoint (x targetPoint) (y targetPoint))
      end
  end.

Fixpoint attackAll (e : Env) (targetPoint : Point2D) (units : list UnitData)
         (c : CombatSquad) : CombatSquad * list BatchableAction * Exit :=
  match units with
  | [] => (c, [], RunsOn)
  | unit :: rest =>
      match attackWith e targetPoint unit with
      | Some (a, d) =>
          let '(c', acts, ex) :=
            attackAll e targetPoint rest (set_debugLastTarget c (Some d)) in
          (c', a :: acts, ex)
      | None => (c, [], Throws)
      end
  end.

(** What one update leaves behind; [action] is what the method returns,
    if it returns. *)
Record Update := {
  squad : CombatSquad;
  pushed : list BatchableAction;
  lines : list LogLine;
  action : option MissionAction
}.

(** The block under the command throttle. *)
Definition evaluate (e : Env) (c : CombatSquad)
  : CombatSquad * list BatchableAction * list LogLine * Exit :=
  let c := set_lastCommand c (Some (getCurrentTick e)) in
  let maxDistance := getMaxDistanceToCenterOfMass e in
  let units := getUnitsMatching e (fun r => isSelectableCombatant (rules r)) in
  let groundUnits := getUnitsMatching e isGroundCombatant in
  match state c with
  | Gathering =>
      let requiredGatherRadius :=
        (sqrt (INR (length groundUnits)) * GATHER_RATIO + MIN_GATHER_RADIUS)%R in
      match spreadBeyond e requiredGatherRadius with
      | Some centerOfMass =>
          (c, map (fun unit => manageMoveMicro unit centerOfMass) units, [], RunsOn)
      | None =>
          (set_state c Attacking, [], [LogSwitchToAttack maxDistance], RunsOn)
      end
  | Attacking =>
      let targetPoint := nullish (targetArea c) (startLocation e) in
      let requiredGatherRadius :=
        (sqrt (INR (length groundUnits)) * GATHER_RATIO + MAX_GATHER_RADIUS)%R in
      match spreadBeyond e requiredGatherRadius with
      | Some _ =>
          (set_state c Gathering, [], [LogSwitchToGather maxDistance], ReturnsNoop)
      | None =>
          let '(c', acts, ex) := attackAll e targetPoint units c in
          (c', acts, [], ex)
      end
  end.

(** The throttle of the command block. *)
Definition commandDue (e : Env) (c : CombatSquad) : bool :=
  (0 <? length (missionUnitIds e))%nat
  && (notSet (lastCommand c)
      || match lastCommand c with
         | Some t => (getCurrentTick e >? t + TARGET_UPDATE_INTERVAL_TICKS)%Z
         | None => false
         end).

(** The throttle of the reinforcement request. *)
Definition grabDue (e : Env) (c : CombatSquad) : bool :=
  notSet (lastGrab c)
  || match lastGrab c with
     | Some t => (getCurrentTick e >? t + GRAB_INTERVAL_TICKS)%Z
     | None => false
     end.

(** The closing [if] of [onAiUpdate]. *)
Definition grabStep (e : Env) (c : CombatSquad) : CombatSquad * MissionAction :=
  if grabDue e c then
    (set_lastGrab c (Some (getCurrentTick e)),
     grabCombatants (nullish (getCenterOfMass e) (rallyArea c)) GRAB_RADIUS)
  else (c, noop).

Definition onAiUpdate (e : Env) (c : CombatSquad) : Update :=
  let '(c1, acts, logs, ex) :=
    if commandDue e c then evaluate e c else (c, [], [], RunsOn) in
  match ex with
  | ReturnsNoop =>
      {| squad := c1; pushed := acts; lines := logs; action := Some noop |}
  | Throws =>
      {| squad := c1; pushed := acts; lines := logs; action := None |}
  | RunsOn =>
      let '(c2, act) := grabStep e c1 in
      {| squad := c2; pushed := acts; lines := logs; action := Some act |}
  end.

End Combat.

(** ** The squad's member queries *)
Module SquadQueries.
Import JS SquadM.

Section UnitName.
(** [unit.name], a field of the unit data that the record above leaves out. *)
Variable unitName : UnitData -> string.

Definition getUnits (gameApi : GameApi) (s : Squad) : list UnitData :=
  somes (filter (fun unit => isSome unit)
           (map (fun unitId => getUnitData gameApi unitId) (unitIds s))).

Definition getUnitsOfTypes (gameApi : GameApi) (s : Squad) (names : list string)
  : list UnitData :=
  somes (filter (fun unit => match unit with
                             | Some u => existsb (String.eqb (unitName u)) names
                             | None => false
                             end)
           (map (fun unitId => getUnitData gameApi unitId) (unitIds s))).

Definition getUnitsMatching (gameApi : GameApi) (s : Squad) (filter_ : UnitData -> bool)
  : list UnitData :=
  somes (filter (fun unit => match unit with
                             | Some u => filter_ u
                             | None => false
                             end)
           (map (fun unitId => getUnitData gameApi unitId) (unitIds s))).

End UnitName.

End SquadQueries.

(** ** The micro methods: moving and attacking with one unit *)
Module Micro.
Import JS.

(** The enumerations of the game API, each with the member that the code
    names and one constructor for all the others. *)
Inductive StanceType := Deployed | OtherStance (code : Z).
Inductive AttackState := JustFired | OtherAttackState (code : Z).
Inductive ObjectType := Building | OtherObjectType (code : Z).
Inductive OrderType := Move | Attack | DeploySelected.

Definition isDeployedStance (st : option StanceType) : bool :=
  match st with Some Deployed => true | _ => false end.

Definition isJustFired (a : option AttackState) : bool :=
  match a with Some JustFired => true | _ => false end.

Definition isBuilding (t : ObjectType) : bool :=
  match t with Building => true | _ => false end.

(** The unit data with the further fields that the micro methods read. *)
Record MicroUnit := {
  data : UnitData;
  name : string;
  type : ObjectType;
  stance : option StanceType;
  attackState : option AttackState;
  canDisguise : bool
}.

(** What follows the order type in [actionsApi.orderUnits(ids, type, ...)]. *)
Inductive OrderArgs :=
| NoArgs
| ToPoint (px py : R)
| ToUnit (targetId : Z).

Record Order := { orderedUnits : list Z; orderType : OrderType; orderArgs : OrderArgs }.

(** [weapon?.maxRange || 5]. *)
Definition maxRangeOr5 (w : option WeaponData) : R :=
  match w with
  | Some w => if truthy (maxRange w) then maxRange w else 5%R
  | None => 5%R
  end.

Definition manageMoveMicro (attacker : MicroUnit) (attackPoint : Point2D) : list Order :=
  (if String.eqb (name attacker) "E1" then
     let isDeployed := isDeployedStance (stance attacker) in
     if isDeployed then
       [{| orderedUnits := [id (data attacker)]; orderType := DeploySelected;
           orderArgs := NoArgs |}]
     else []
   else [])
  ++ [{| orderedUnits := [id (data attacker)]; orderType := Move;
         orderArgs := ToPoint (x attackPoint) (y attackPoint) |}].

Section Distance.
(** [getDistanceBetweenUnits] of the map helpers, which is not among the
    sources: any function of the two units. *)
Variable getDistanceBetweenUnits : MicroUnit -> MicroUnit -> R.

(** The tail of [manageAttackMicro], after the part for the unit "E1". *)
Definition attackOrder (attacker target : MicroUnit) : Order :=
  let distance := getDistanceBetweenUnits attacker target in
  let primaryWeaponRange := maxRangeOr5 (primaryWeapon (data attacker)) in
  let orderType :=
    if isBuilding (type target) && lt distance (primaryWeaponRange * 0.8) then Attack
    else if canDisguise target then Attack
    else Attack in
  {| orderedUnits := [id (data attacker)]; orderType := orderType;
     orderArgs := ToUnit (id (data target)) |}.

Definition manageAttackMicro (attacker target : MicroUnit) : list Order :=
  let distance := getDistanceBetweenUnits attacker target in
  if String.eqb (name attacker) "E1" then
    let deployedWeaponRange := maxRangeOr5 (secondaryWeapon (data attacker)) in
    let isDeployed := isDeployedStance (stance attacker) in
    if negb isDeployed
       && (le distance deployedWeaponRange || isJustFired (attackState attacker)) then
      [{| orderedUnits := [id (data attacker)]; orderType := DeploySelected;
          orderArgs := NoArgs |}]
    else if isDeployed && gt distance deployedWeaponRange then
      [{| orderedUnits := [id (data attacker)]; orderType := DeploySelected;
          orderArgs := NoArgs |}]
    else [attackOrder attacker target]
  else [attackOrder attacker target].

End Distance.

End Micro.

(* ================================================================== *)
(** * Part I, continued: the notions that the properties are stated with  *)
(* ================================================================== *)

(** ** Cohesion *)

(** The arithmetic mean of a list of numbers. *)
Definition mean (l : list R) : R := (fold_right Rplus 0 l / INR (length l))%R.

(** [r] is the integer nearest to [v], a half going up. *)
Definition rounds_to (v r : R) : Prop :=
  exists k : Z, r = IZR k /\ (IZR k - / 2 <= v < IZR k + / 2)%R.

(** [d] is the greatest element of [l]. *)
Definition is_max_of (l : list R) (d : R) : Prop :=
  In d l /\ forall e, In e l -> (e <= d)%R.

(** A member counts as a ground unit by its movement zone, as the combat
    behaviour decides it. *)
Definition isGroundZone (z : MovementZone) : bool :=
  match z with
  | Infantry | Normal | InfantryDestroyer => true
  | _ => false
  end.

(** The tiles of the members that can move and are ground units, the set
    that the specification names for the cohesion metrics. *)
Definition groundMovableTiles (g : SquadM.GameApi) (s : SquadM.Squad) : list Tile :=
  JS.somes
    (map (fun unit => match unit with Some u => tile u | None => None end)
       (filter (fun unit => match unit with
                            | Some u => canMove u && isGroundZone (movementZone (rules u))
                            | None => false
                            end)
          (map (SquadM.getUnitData g) (SquadM.unitIds s)))).

(** ** The awareness update *)

Section AwarenessNotions.
Import JS MapUtil Awareness.
Local Open Scope R_scope.
Variable calculateGlobalThreat : GameApi -> PlayerData -> R -> GlobalThreat.
Variable getPointTowardsOtherPoint : GameApi -> Point2D -> Point2D -> Point2D.

(** Two states that differ at most in what was logged. *)
Definition same_fields (s s' : State) : Prop :=
  _shouldAttack s' = _shouldAttack s
  /\ hostileQuadTree s' = hostileQuadTree s
  /\ threatCache s' = threatCache s
  /\ mainRallyPoint s' = mainRallyPoint s.

(** The circle that [rebuildQuadtree] inserts for a unit. *)
Definition circleOf (unit : UnitData) : option QTUnit :=
  match tile unit with
  | Some t => Some {| cx := rx t; cy := ry t; cr := 1; data := Some (id unit) |}
  | None => None
  end.

(** The hostile units of this tick, when every lookup answers. *)
Definition hostileUnitsOf (game : GameApi) (playerData : PlayerData)
           (looked : list (option UnitData)) : list UnitData :=
  somes (filter (fun unit => isHostileUnit unit (hostilePlayerNamesOf game playerData)) looked).

(** The threat block, when it runs: on a multiple of the threat interval
    with a visibility that is not zero. *)
Definition evaluationDue (game : GameApi) (sc : SectorCache) (v : R) : Prop :=
  Z.rem (getCurrentTick game) THREAT_UPDATE_INTERVAL_TICKS = 0%Z
  /\ getOverallVisibility sc = Some v /\ v <> 0.

(** The steps that follow the [try] block. *)
Definition remainingSteps (game : GameApi) (pd : PlayerData) (sc : SectorCache) : M unit :=
  bind (threatStep calculateGlobalThreat game pd sc)
       (fun _ => rallyStep getPointTowardsOtherPoint game pd).

End AwarenessNotions.

(** ** The attack flag *)

(** [x] to the power [y], for a base that is not negative and a positive
    exponent. *)
Definition power (x y : R) : R := if Req_dec_T x 0 then 0%R else Rpower x y.

(** The rule of the specification, with the enemy's offensive air threat
    in the air comparison, as the specification writes it. *)
Definition attack_rule_as_stated (tc : Awareness.GlobalThreat) (f : R) : Prop :=
  (power (Awareness.totalAvailableAntiGroundFirepower tc) 1.025
   > (f * Awareness.totalOffensiveLandThreat tc + Awareness.totalDefensiveThreat tc) * 1.1
   \/ power (Awareness.totalAvailableAirPower tc) 1.025
      > (f * Awareness.totalOffensiveAirThreat tc + Awareness.totalDefensiveThreat tc) * 1.1)%R.

(** The same rule with the enemy's offensive anti-air threat in the air
    comparison. *)
Definition attack_rule (tc : Awareness.GlobalThreat) (f : R) : Prop :=
  (power (Awareness.totalAvailableAntiGroundFirepower tc) 1.025
   > (f * Awareness.totalOffensiveLandThreat tc + Awareness.totalDefensiveThreat tc) * 1.1
   \/ power (Awareness.totalAvailableAirPower tc) 1.025
      > (f * Awareness.totalOffensiveAntiAirThreat tc + Awareness.totalDefensiveThreat tc) * 1.1)%R.

(** The game length factor of the specification, which divides by the
    engine's tick rate. *)
Definition gameLengthFactor_as_stated (game : Awareness.GameApi) : R :=
  Rmax 0 (1 - IZR (Awareness.getCurrentTick game)
              / (IZR (Awareness.getTickRate game) * 7200)).

(** ** Transport loading *)

(** [m.get(k)]. *)
Fixpoint map_get (m : Scripts.NumMap) (k : Z) : option Z :=
  match m with
  | [] => None
  | (k', v) :: t => if (k' =? k)%Z then Some v else map_get t k
  end.

(** The slots that a map of remaining sizes still holds for a transport. *)
Definition remainingOf (m : Scripts.NumMap) (t : Z) : Z :=
  match map_get m t with Some v => v | None => 0%Z end.

(** The size of the unit with a given id, as the unit list has it. *)
Definition sizeOf (units : list UnitData) (unitId : Z) : Z :=
  match find (fun u => (id u =? unitId)%Z) units with
  | Some u => size (rules u)
  | None => 0
  end.

(** The passenger sizes that an assignment gives to one transport, summed. *)
Fixpoint load (units : list UnitData) (assigned : Scripts.NumMap) (transportId : Z) : Z :=
  match assigned with
  | [] => 0
  | (p, t) :: rest =>
      ((if (t =? transportId)%Z then sizeOf units p else 0) + load units rest transportId)%Z
  end.

(** The unit list answers one set of rules per unit id, as a list built
    from [getUnitData] does. *)
Definition rules_by_id (units : list UnitData) : Prop :=
  forall u v, In u units -> In v units -> id u = id v -> rules u = rules v.

(** ** The combat behaviour *)

(** Cohesion is defined, the center is a tile of the map, and the spread
    exceeds sqrt(n) x GATHER_RATIO + [margin], with n the number of ground
    combatants. *)
Definition spreadExceeds (e : Combat.Env) (margin : R) (center : Point2D) : Prop :=
  Combat.getCenterOfMass e = Some center
  /\ exists d, Combat.getMaxDistanceToCenterOfMass e = Some d
               /\ Combat.getTile e (x center) (y center) <> None
               /\ (d > sqrt (INR (length (Combat.getUnitsMatching e Combat.isGroundCombatant)))
                       * Combat.GATHER_RATIO + margin)%R.

(** ** The quadtree as a collaborator *)

(** A quadtree that hands back at least every stored circle whose center
    lies within the radius of the query circle's center. *)
Definition retrieveCovers
           (retrieve : Awareness.Quadtree -> Awareness.Circle -> list Awareness.QTUnit) : Prop :=
  forall (q : Awareness.Quadtree) (query c : Awareness.Circle),
    In c q ->
    (MapUtil.getDistanceBetweenPoints
       {| x := Awareness.cx c; y := Awareness.cy c |}
       {| x := Awareness.cx query; y := Awareness.cy query |} <= Awareness.cr query)%R ->
    In c (retrieve q query).

(** The players that the rally step takes for enemies: every player but
    oneself and one's allies, in the order of [getPlayers]. *)
Definition enemyPlayersOf (game : Awareness.GameApi) (pd : Awareness.PlayerData) : list string :=
  filter (fun p => negb (String.eqb p (Awareness.name pd))
                   && negb (Awareness.areAlliedPlayers game (Awareness.name pd) p))
         (Awareness.getPlayers game).

(** ** Transport loading, continued *)

(** The ids of the units that [onStart] takes for transports. *)
Definition transportIdsOf (allUnits : list UnitData) : list Z :=
  map id (filter (fun u => (passengers (rules u) >? 0)%Z) allUnits).

(** The units that [onStart] takes for passengers, in list order. *)
Definition passengersOf (allUnits : list UnitData) : list UnitData :=
  filter (fun u => (size (rules u) >? 0)%Z
                   && negb (existsb (Z.eqb (id u)) (transportIdsOf allUnits))) allUnits.

(** ** The combat behaviour, continued *)

(** [unit.primaryWeapon?.maxRange ?? unit.secondaryWeapon?.maxRange ?? 5]. *)
Definition weaponRangeOf (unit : UnitData) : R :=
  match primaryWeapon unit with
  | Some w => maxRange w
  | None => match secondaryWeapon unit with
            | Some w => maxRange w
            | None => 5%R
            end
  end.

(** The hostiles that the awareness reports within twice the weapon range
    of a unit standing on tile [t], each looked up in the game. *)
Definition targetsNear (e : Combat.Env) (unit : UnitData) (t : Tile) : list (option UnitData) :=
  map (fun q => match Awareness.unitId q with
                | Some i => Combat.getUnitData e i
                | None => None
                end)
      (Combat.getHostilesNearPoint e (rx t) (ry t) (weaponRangeOf unit * 2)).

(** The order that an attacking squad gives to one combatant: attack the
    target that [maxBy] picks among the hostiles near, or else move to the
    target point. *)
Definition ordersUnit (e : Combat.Env) (targetPoint : Point2D) (unit : UnitData)
           (a : Combat.BatchableAction) : Prop :=
  exists t, tile unit = Some t
            /\ match Combat.maxByAttackWeight e unit (targetsNear e unit t) with
               | Some bestUnit => a = Combat.manageAttackMicro unit bestUnit
               | None => a = Combat.manageMoveMicro unit targetPoint
               end.

(** ** The micro methods *)

(** The three orders that the micro methods give. *)
Definition deployOrder (attacker : Micro.MicroUnit) : Micro.Order :=
  {| Micro.orderedUnits := [id (Micro.data attacker)]; Micro.orderType := Micro.DeploySelected; Micro.orderArgs := Micro.NoArgs |}.

Definition attackOrderOn (attacker target : Micro.MicroUnit) : Micro.Order :=
  {| Micro.orderedUnits := [id (Micro.data attacker)]; Micro.orderType := Micro.Attack;
     Micro.orderArgs := Micro.ToUnit (id (Micro.data target)) |}.

Definition moveOrderTo (attacker : Micro.MicroUnit) (p : Point2D) : Micro.Order :=
  {| Micro.orderedUnits := [id (Micro.data attacker)]; Micro.orderType := Micro.Move;
     Micro.orderArgs := Micro.ToPoint (x p) (y p) |}.

(* ================================================================== *)
(** * Part I, continued: concrete games, squads and missions             *)
(* ================================================================== *)

(** A killable squad of one unit; the unit is gone at the next update, two
    more join later and are alive at a second update: the squad is dead. *)
Definition loneSquad : SquadM.Squad :=
  SquadM.addUnit (SquadM.newSquad (Some {| SquadM.missionName := "attack"; SquadM.isActive := true |}) true) 7.

Definition plainUnit (i : Z) : UnitData :=
  {| id := i; owner := "enemy";
     rules := {| isSelectableCombatant := true; movementZone := Normal;
                 passengers := 0; size := 1 |};
     tile := Some {| rx := 0; ry := 0 |}; canMove := true;
     primaryWeapon := None; secondaryWeapon := None |}.

Definition emptiedGame : SquadM.GameApi :=
  {| SquadM.getCurrentTick := 10; SquadM.getUnitData := fun _ => None |}.

Definition populatedGame : SquadM.GameApi :=
  {| SquadM.getCurrentTick := 11; SquadM.getUnitData := fun i => Some (plainUnit i) |}.

Definition idleBehaviour (g : SquadM.GameApi) (s : SquadM.Squad) : SquadM.SquadAction :=
  SquadM.behaviourAction 0.

Definition groundUnitAt (i : Z) (tx ty : R) : UnitData :=
  {| id := i; owner := "self";
     rules := {| isSelectableCombatant := true; movementZone := Normal;
                 passengers := 0; size := 1 |};
     tile := Some {| rx := tx; ry := ty |}; canMove := true;
     primaryWeapon := None; secondaryWeapon := None |}.

Definition flyingUnitAt (i : Z) (tx ty : R) : UnitData :=
  {| id := i; owner := "self";
     rules := {| isSelectableCombatant := true; movementZone := Fly;
                 passengers := 0; size := 1 |};
     tile := Some {| rx := tx; ry := ty |}; canMove := true;
     primaryWeapon := None; secondaryWeapon := None |}.

Definition activeMission : SquadM.Mission :=
  {| SquadM.missionName := "attack"; SquadM.isActive := true |}.

(** Three ground units at (0,0), (2,0) and (4,0). *)
Definition lineGame : SquadM.GameApi :=
  {| SquadM.getCurrentTick := 1;
     SquadM.getUnitData := fun i =>
       if (i =? 1)%Z then Some (groundUnitAt 1 0 0)
       else if (i =? 2)%Z then Some (groundUnitAt 2 2 0)
       else if (i =? 3)%Z then Some (groundUnitAt 3 4 0)
       else None |}.

Definition lineSquad : SquadM.Squad :=
  SquadM.addUnit (SquadM.addUnit (SquadM.addUnit (SquadM.newSquad (Some activeMission) false) 1) 2) 3.

(** One flying unit at (3,4). *)
Definition airGame : SquadM.GameApi :=
  {| SquadM.getCurrentTick := 1;
     SquadM.getUnitData := fun i =>
       if (i =? 1)%Z then Some (flyingUnitAt 1 3 4) else None |}.

Definition airSquad : SquadM.Squad :=
  SquadM.addUnit (SquadM.newSquad (Some activeMission) false) 1.

Definition selfPlayer : Awareness.PlayerData :=
  {| Awareness.name := "self"; Awareness.isCombatant := true;
     Awareness.startLocation := {| x := 10; y := 10 |} |}.

Definition enemyPlayer : Awareness.PlayerData :=
  {| Awareness.name := "enemy"; Awareness.isCombatant := true;
     Awareness.startLocation := {| x := 90; y := 90 |} |}.

(** A two-player game at a given tick and tick rate, with no hostile unit
    in sight. *)
Definition quietGame (tick rate : Z) : Awareness.GameApi :=
  {| Awareness.getCurrentTick := tick;
     Awareness.getTickRate := rate;
     Awareness.getPlayers := ["self"; "enemy"]%string;
     Awareness.getPlayerData := fun n => if String.eqb n "self" then selfPlayer else enemyPlayer;
     Awareness.areAlliedPlayers := fun _ _ => false;
     Awareness.getVisibleUnits := fun _ => [];
     Awareness.getUnitData := fun _ => Awareness.Ok None |}.

Definition fullyVisible : Awareness.SectorCache :=
  {| Awareness.getSectorUpdateRatio := fun _ => None;
     Awareness.getOverallVisibility := Some 1%R |}.

Definition midpoint (game : Awareness.GameApi) (a b : Point2D) : Point2D :=
  {| x := (x a + x b) / 2; y := (y a + y b) / 2 |}.

Definition defending : Awareness.State :=
  {| Awareness._shouldAttack := false; Awareness.hostileQuadTree := [];
     Awareness.threatCache := None;
     Awareness.mainRallyPoint := {| x := 0; y := 0 |};
     Awareness.logged := [] |}.

Definition snapshot (antiGround land defensive air airThreat antiAirThreat : R)
  : Awareness.GlobalThreat :=
  {| Awareness.totalOffensiveLandThreat := land;
     Awareness.totalOffensiveAirThreat := airThreat;
     Awareness.totalOffensiveAntiAirThreat := antiAirThreat;
     Awareness.totalDefensiveThreat := defensive;
     Awareness.totalDefensivePower := 0;
     Awareness.totalAvailableAntiGroundFirepower := antiGround;
     Awareness.totalAvailableAntiAirFirepower := 0;
     Awareness.totalAvailableAirPower := air |}.

(** A hostile building at (5,5), resolved in full, and a second hostile
    unit that the engine hands out without a tile. *)
Definition hostileWithTile : UnitData :=
  {| id := 1; owner := "enemy";
     rules := {| isSelectableCombatant := false; movementZone := Normal;
                 passengers := 0; size := 0 |};
     tile := Some {| rx := 5; ry := 5 |}; canMove := false;
     primaryWeapon := None; secondaryWeapon := None |}.

Definition hostileWithoutTile : UnitData :=
  {| id := 2; owner := "enemy";
     rules := {| isSelectableCombatant := true; movementZone := Normal;
                 passengers := 0; size := 1 |};
     tile := None; canMove := true;
     primaryWeapon := None; secondaryWeapon := None |}.

Definition malformedGame : Awareness.GameApi :=
  {| Awareness.getCurrentTick := 7;
     Awareness.getTickRate := 15;
     Awareness.getPlayers := ["self"; "enemy"]%string;
     Awareness.getPlayerData := fun n => if String.eqb n "self" then selfPlayer else enemyPlayer;
     Awareness.areAlliedPlayers := fun _ _ => false;
     Awareness.getVisibleUnits := fun _ => [1; 2]%Z;
     Awareness.getUnitData := fun i =>
       if (i =? 1)%Z then Awareness.Ok (Some hostileWithTile)
       else Awareness.Ok (Some hostileWithoutTile) |}.

(** The same tick on an engine whose lookup of unit 2 throws. *)
Definition throwingGame : Awareness.GameApi :=
  {| Awareness.getCurrentTick := 7;
     Awareness.getTickRate := 15;
     Awareness.getPlayers := ["self"; "enemy"]%string;
     Awareness.getPlayerData := fun n => if String.eqb n "self" then selfPlayer else enemyPlayer;
     Awareness.areAlliedPlayers := fun _ _ => false;
     Awareness.getVisibleUnits := fun _ => [1; 2]%Z;
     Awareness.getUnitData := fun i =>
       if (i =? 1)%Z then Awareness.Ok (Some hostileWithTile)
       else Awareness.Raise |}.

(** The index of the tick before: two hostiles, 40 and 41. *)
Definition previousIndex : Awareness.Quadtree :=
  [ {| Awareness.cx := 30; Awareness.cy := 30; Awareness.cr := 1; Awareness.data := Some 40%Z |};
    {| Awareness.cx := 31; Awareness.cy := 30; Awareness.cr := 1; Awareness.data := Some 41%Z |} ].

Definition afterPreviousTick : Awareness.State :=
  Awareness.set_quadTree defending previousIndex.

(** A quadtree that hands back all it holds, the coarsest answer. *)
Definition retrieveAll (q : Awareness.Quadtree) (c : Awareness.Circle) : list Awareness.QTUnit := q.

Definition hostileAt (i : Z) (tx ty : R) : UnitData :=
  {| id := i; owner := "enemy";
     rules := {| isSelectableCombatant := true; movementZone := Normal;
                 passengers := 0; size := 1 |};
     tile := Some {| rx := tx; ry := ty |}; canMove := true;
     primaryWeapon := None; secondaryWeapon := None |}.

(** The index rebuilt from three hostiles: unit 0 at (1,1), unit 5 at
    (2,1) and unit 6 at (50,1). *)
Definition threeHostiles : Awareness.State :=
  Awareness.outcome_state
    (Awareness.rebuildQuadtree [hostileAt 0 1 1; hostileAt 5 2 1; hostileAt 6 50 1] defending).

Definition transportUnit (i slots : Z) : UnitData :=
  {| id := i; owner := "self";
     rules := {| isSelectableCombatant := false; movementZone := Amphibious;
                 passengers := slots; size := 5 |};
     tile := Some {| rx := 0; ry := 0 |}; canMove := true;
     primaryWeapon := None; secondaryWeapon := None |}.

Definition passengerUnit (i sz : Z) : UnitData :=
  {| id := i; owner := "self";
     rules := {| isSelectableCombatant := true; movementZone := Infantry;
                 passengers := 0; size := sz |};
     tile := Some {| rx := 0; ry := 0 |}; canMove := true;
     primaryWeapon := None; secondaryWeapon := None |}.

(** Two transports with 5 and 3 slots, four passengers of sizes 3, 2, 2, 4. *)
Definition loadingUnits : list UnitData :=
  [ transportUnit 10 5; transportUnit 11 3;
    passengerUnit 1 3; passengerUnit 2 2; passengerUnit 3 2; passengerUnit 4 4 ].

(** A mission of the given ground units at a tick, with cohesion as given;
    every point of the map is a tile and no hostile is near. *)
Definition combatEnv (tick : Z) (ids : list Z) (lookup : Z -> option UnitData)
           (center : option Point2D) (spread : option R) : Combat.Env :=
  {| Combat.getCurrentTick := tick;
     Combat.getUnitData := lookup;
     Combat.getTile := fun tx ty => Some {| rx := tx; ry := ty |};
     Combat.startLocation := {| x := 10; y := 10 |};
     Combat.missionUnitIds := ids;
     Combat.getCenterOfMass := center;
     Combat.getMaxDistanceToCenterOfMass := spread;
     Combat.getHostilesNearPoint := fun _ _ _ => [];
     Combat.maxByAttackWeight := fun _ _ => None |}.

Definition threeInLine (i : Z) : option UnitData :=
  if (i =? 1)%Z then Some (groundUnitAt 1 0 0)
  else if (i =? 2)%Z then Some (groundUnitAt 2 2 0)
  else if (i =? 3)%Z then Some (groundUnitAt 3 4 0)
  else None.

Definition freshSquad : Combat.CombatSquad :=
  Combat.newCombatSquad {| x := 20; y := 20 |} (Some {| x := 80; y := 80 |}).

(** The squad after a first update at tick 30 that found it gathered:
    attacking, with a reinforcement request made at that tick. *)
Definition attackingSquad : Combat.CombatSquad :=
  {| Combat.lastGrab := Some 30%Z; Combat.lastCommand := Some 30%Z;
     Combat.state := Combat.Attacking; Combat.debugLastTarget := None;
     Combat.rallyArea := {| x := 20; y := 20 |};
     Combat.targetArea := Some {| x := 80; y := 80 |} |}.

(** The specification's example: three ground units in line, center (2,0),
    spread 2, well within sqrt(3) x 10 + 5. *)
Definition gatheredEnv : Combat.Env :=
  combatEnv 30 [1; 2; 3]%Z threeInLine (Some {| x := 2; y := 0 |}) (Some 2%R).

(** The same mission when the squad reports no cohesion. *)
Definition noCohesionEnv : Combat.Env :=
  combatEnv 30 [1; 2; 3]%Z threeInLine None None.

(** Two ground units a hundred tiles apart, at (0,0) and (100,0). *)
Definition twoApart (i : Z) : option UnitData :=
  if (i =? 1)%Z then Some (groundUnitAt 1 0 0)
  else if (i =? 2)%Z then Some (groundUnitAt 2 100 0)
  else None.

(** The squad of those two members as [Squad] sees it at tick 50. *)
Definition scatteredGame : SquadM.GameApi :=
  {| SquadM.getCurrentTick := 50; SquadM.getUnitData := twoApart |}.

Definition scatteredSquad : SquadM.Squad :=
  SquadM.addUnit (SquadM.addUnit (SquadM.newSquad (Some activeMission) false) 1) 2.

(** Twenty ticks later: two members left, a hundred tiles apart; their
    tiles give the center (50,0) and the spread 50. *)
Definition scatteredEnv : Combat.Env :=
  combatEnv 50 [1; 2]%Z twoApart (Some {| x := 50; y := 0 |}) (Some 50%R).

(** The same mission one tick later. *)
Definition nextTickEnv : Combat.Env :=
  combatEnv 51 [1; 2]%Z twoApart (Some {| x := 50; y := 0 |}) (Some 50%R).

(** The bot in attack mode. *)
Definition attacking : Awareness.State :=
  Awareness.set_shouldAttack defending true.

(** Three visible units: the hostile building 1 at (5,5), unit 2 of one's
    own, and unit 3 which no longer resolves. *)
Definition mixedGame : Awareness.GameApi :=
  {| Awareness.getCurrentTick := 7;
     Awareness.getTickRate := 15;
     Awareness.getPlayers := ["self"; "enemy"]%string;
     Awareness.getPlayerData := fun n => if String.eqb n "self" then selfPlayer else enemyPlayer;
     Awareness.areAlliedPlayers := fun _ _ => false;
     Awareness.getVisibleUnits := fun _ => [1; 2; 3]%Z;
     Awareness.getUnitData := fun i =>
       if (i =? 1)%Z then Awareness.Ok (Some hostileWithTile)
       else if (i =? 2)%Z then Awareness.Ok (Some (groundUnitAt 2 6 5))
       else Awareness.Ok None |}.

(** A squad that attacks and was never evaluated. *)
Definition unevaluatedAttackers : Combat.CombatSquad :=
  Combat.set_state freshSquad Combat.Attacking.

(** The gathered mission five ticks and twenty ticks after tick 30. *)
Definition soonAfterEnv : Combat.Env :=
  combatEnv 35 [1; 2; 3]%Z threeInLine (Some {| x := 2; y := 0 |}) (Some 2%R).

Definition laterEnv : Combat.Env :=
  combatEnv 50 [1; 2; 3]%Z threeInLine (Some {| x := 2; y := 0 |}) (Some 2%R).



(** A mission that has lost all its members. *)
Definition emptyMissionEnv : Combat.Env :=
  combatEnv 50 [] threeInLine None None.

(** A conscript ("E1") with a deployed weapon of range 6, in a given
    stance, and a hostile tank. *)
Definition conscript (st : option Micro.StanceType) : Micro.MicroUnit :=
  {| Micro.data :=
       {| id := 1; owner := "self";
          rules := {| isSelectableCombatant := true; movementZone := Infantry;
                      passengers := 0; size := 1 |};
          tile := Some {| rx := 0; ry := 0 |}; canMove := true;
          primaryWeapon := Some {| maxRange := 4 |};
          secondaryWeapon := Some {| maxRange := 6 |} |};
     Micro.name := "E1"; Micro.type := Micro.OtherObjectType 3;
     Micro.stance := st; Micro.attackState := None; Micro.canDisguise := false |}.

Definition hostileTank : Micro.MicroUnit :=
  {| Micro.data := hostileAt 9 10 0;
     Micro.name := "HTNK"; Micro.type := Micro.OtherObjectType 7;
     Micro.stance := None; Micro.attackState := None; Micro.canDisguise := false |}.

(** The tank is 10 away from whoever asks. *)
Definition tenAway (a b : Micro.MicroUnit) : R := 10%R.

(** Tick 60, on the rally cadence, with no player but oneself, on an
    engine whose lookup of unit 2 throws. *)
Definition aloneOnCadenceGame : Awareness.GameApi :=
  {| Awareness.getCurrentTick := 60;
     Awareness.getTickRate := 15;
     Awareness.getPlayers := ["self"]%string;
     Awareness.getPlayerData := fun _ => selfPlayer;
     Awareness.areAlliedPlayers := fun _ _ => false;
     Awareness.getVisibleUnits := fun _ => [1; 2]%Z;
     Awareness.getUnitData := fun i =>
       if (i =? 1)%Z then Awareness.Ok (Some hostileWithTile)
       else Awareness.Raise |}.

(** A tick on which the engine lists the hostile building twice. *)
Definition listedTwiceGame : Awareness.GameApi :=
  {| Awareness.getCurrentTick := 7;
     Awareness.getTickRate := 15;
     Awareness.getPlayers := ["self"; "enemy"]%string;
     Awareness.getPlayerData := fun n => if String.eqb n "self" then selfPlayer else enemyPlayer;
     Awareness.areAlliedPlayers := fun _ _ => false;
     Awareness.getVisibleUnits := fun _ => [1; 1]%Z;
     Awareness.getUnitData := fun _ => Awareness.Ok (Some hostileWithTile) |}.

(* ================================================================== *)
(** * Part II: properties                                               *)
(* ================================================================== *)

(** ** Numbers *)
Section NumberFacts.
Import JS.
Local Open Scope R_scope.

Lemma gt_true (a b : R) : gt a b = true <-> a > b.
Proof. unfold gt. destruct (Rgt_dec a b); split; intros; try discriminate; tauto. Qed.

Lemma gt_false (a b : R) : gt a b = false <-> a <= b.
Proof.
  unfold gt. destruct (Rgt_dec a b); split; intros; try discriminate; try lra; reflexivity.
Qed.

Lemma le_true (a b : R) : le a b = true <-> a <= b.
Proof. unfold le. destruct (Rle_dec a b); split; intros; try discriminate; tauto. Qed.

Lemma le_false (a b : R) : le a b = false <-> a > b.
Proof.
  unfold le. destruct (Rle_dec a b); split; intros; try discriminate; try lra; reflexivity.
Qed.

Lemma truthy_true (a : R) : truthy a = true <-> a <> 0.
Proof. unfold truthy. destruct (Req_dec_T a 0); split; intros; try discriminate; tauto. Qed.

Lemma or0_id (a : R) : or0 a = a.
Proof. unfold or0, truthy. destruct (Req_dec_T a 0); congruence. Qed.

(** [Math.round] answers the integer within a half of its argument. *)
Lemma Math_round_spec (v : R) :
  exists k : Z, Math_round v = IZR k /\ IZR k - / 2 <= v < IZR k + / 2.
Proof.
  unfold Math_round. exists (Int_part (v + / 2)). split; [reflexivity|].
  destruct (base_Int_part (v + / 2)). lra.
Qed.

Lemma Math_round_eq (v : R) (k : Z) :
  IZR k - / 2 <= v < IZR k + / 2 -> Math_round v = IZR k.
Proof.
  intros H. unfold Math_round. f_equal. symmetry. apply Int_part_spec. lra.
Qed.

Lemma fold_max_ge (l : list R) (a : R) :
  a <= fold_left (fun computed current => if gt current computed then current else computed) l a
  /\ forall e, In e l ->
       e <= fold_left (fun computed current => if gt current computed then current else computed) l a.
Proof.
  revert a. induction l as [|b l IH]; intros a; simpl.
  - split; [lra | tauto].
  - destruct (IH (if gt b a then b else a)) as [H1 H2].
    assert (Hab : a <= (if gt b a then b else a) /\ b <= (if gt b a then b else a)).
    { destruct (gt b a) eqn:E; [apply gt_true in E | apply gt_false in E]; lra. }
    split; [lra|]. intros e [->|He]; [lra | auto].
Qed.

Lemma fold_max_in (l : list R) (a : R) :
  In (fold_left (fun computed current => if gt current computed then current else computed) l a)
     (a :: l).
Proof.
  revert a. induction l as [|b l IH]; intros a; simpl.
  - auto.
  - destruct (IH (if gt b a then b else a)) as [H|H].
    + destruct (gt b a); [right; left | left]; exact H.
    + right; right; exact H.
Qed.

(** [_.max] of a non-empty array is one of its elements and bounds them all. *)
Lemma lodash_max_spec (l : list R) :
  l <> [] ->
  exists m, lodash_max l = Some m /\ In m l /\ forall e, In e l -> e <= m.
Proof.
  destruct l as [|a l]; [congruence|]. intros _. simpl.
  eexists; split; [reflexivity|]. split.
  - apply fold_max_in.
  - destruct (fold_max_ge l a) as [H1 H2]. intros e [->|He]; auto.
Qed.

Lemma distance_on_axis (a b c : R) :
  MapUtil.getDistanceBetweenPoints {| x := a; y := c |} {| x := b; y := c |} = Rabs (a - b).
Proof.
  unfold MapUtil.getDistanceBetweenPoints; cbn.
  replace ((a - b) * (a - b) + (c - c) * (c - c))%R with (Rsqr (a - b)) by (unfold Rsqr; ring).
  apply sqrt_Rsqr_abs.
Qed.

End NumberFacts.

(** ** Squad: liveness *)
Section SquadLiveness.
Import JS SquadM.
Variable behaviour : GameApi -> Squad -> SquadAction.

Ltac unfold_squad :=
  unfold onAiUpdate, updateLiveness, set_tick, set_unitIds, set_liveness,
    set_cohesion, set_mission; cbn.

Lemma updateLiveness_killable g s : killable (updateLiveness g s) = killable s.
Proof.
  unfold_squad. destruct (killable s && _); [destruct (liveness s)|]; reflexivity.
Qed.

Lemma updateLiveness_dead g s :
  liveness s = SquadDead -> liveness (updateLiveness g s) = SquadDead.
Proof.
  intros H. unfold_squad. rewrite H.
  destruct (killable s && _); cbn; congruence.
Qed.

Lemma updateLiveness_nonkillable g s :
  killable s = false -> liveness (updateLiveness g s) = liveness s.
Proof. intros H. unfold_squad. rewrite H. reflexivity. Qed.

Lemma updateLiveness_empty g s :
  killable s = true -> unitIds (updateLiveness g s) = [] ->
  liveness (updateLiveness g s) = SquadDead.
Proof.
  unfold_squad. intros Hk. rewrite Hk. cbn.
  destruct (filter _ (unitIds s)) eqn:E; cbn.
  - destruct (liveness s) eqn:El; cbn; auto.
  - discriminate.
Qed.

Lemma onAiUpdate_liveness g s :
  liveness (fst (onAiUpdate behaviour g s)) = liveness (updateLiveness g s).
Proof.
  unfold onAiUpdate.
  destruct (calculateCenterOfMass _); cbn;
    destruct (mission (updateLiveness g s)) as [m|]; cbn;
    try destruct (isActive m); reflexivity.
Qed.

Lemma onAiUpdate_killable g s :
  killable (fst (onAiUpdate behaviour g s)) = killable s.
Proof.
  unfold onAiUpdate.
  destruct (calculateCenterOfMass _); cbn;
    destruct (mission (updateLiveness g s)) as [m|]; cbn;
    try destruct (isActive m); cbn; apply updateLiveness_killable.
Qed.

Lemma call_killable s c : killable (call behaviour s c) = killable s.
Proof. destruct c; simpl; auto using onAiUpdate_killable. Qed.

Lemma call_dead s c :
  liveness s = SquadDead -> liveness (call behaviour s c) = SquadDead.
Proof.
  destruct c; simpl; auto.
  intros H. rewrite onAiUpdate_liveness. now apply updateLiveness_dead.
Qed.

Lemma call_nonkillable s c :
  killable s = false -> liveness (call behaviour s c) = liveness s.
Proof.
  destruct c; simpl; auto.
  intros H. rewrite onAiUpdate_liveness. now apply updateLiveness_nonkillable.
Qed.

Lemma calls_dead cs : forall s,
  liveness s = SquadDead -> liveness (calls behaviour s cs) = SquadDead.
Proof.
  induction cs as [|c cs IH]; intros s H; simpl; auto.
  apply IH. now apply call_dead.
Qed.

Lemma deaths_dead cs : forall s,
  liveness s = SquadDead -> deaths behaviour s cs = 0%nat.
Proof.
  induction cs as [|c cs IH]; intros s H; simpl; auto.
  rewrite H. rewrite IH by now apply call_dead. reflexivity.
Qed.

Lemma calls_nonkillable cs : forall s,
  killable s = false ->
  liveness (calls behaviour s cs) = liveness s /\ deaths behaviour s cs = 0%nat.
Proof.
  induction cs as [|c cs IH]; intros s H; simpl; auto.
  destruct (IH (call behaviour s c)) as [H1 H2].
  { now rewrite call_killable. }
  rewrite H1, H2, (call_nonkillable s c H).
  split; [reflexivity|]. destruct (liveness s); reflexivity.
Qed.

(** C6.  A squad that is active: if it is killable and an update leaves
    its membership empty, that update turns it dead, it is dead after
    every further sequence of calls (updates, members added or removed,
    mission changes), and over the whole sequence it went from active to
    dead exactly once; if it is not killable, it is active after every
    sequence of calls and never went dead. *)
Theorem squad_liveness_one_way (s : Squad) :
  liveness s = SquadActive ->
  (killable s = true ->
   forall g further,
     unitIds (updateLiveness g s) = [] ->
     liveness (call behaviour s (CallOnAiUpdate g)) = SquadDead
     /\ liveness (calls behaviour s (CallOnAiUpdate g :: further)) = SquadDead
     /\ deaths behaviour s (CallOnAiUpdate g :: further) = 1%nat)
  /\ (killable s = false ->
      forall cs,
        liveness (calls behaviour s cs) = SquadActive
        /\ deaths behaviour s cs = 0%nat).
Proof.
  intros Hs. split.
  - intros Hk g further He.
    assert (Hd : liveness (call behaviour s (CallOnAiUpdate g)) = SquadDead).
    { simpl. rewrite onAiUpdate_liveness. now apply updateLiveness_empty. }
    split; [exact Hd|]. split.
    + simpl calls. now apply calls_dead.
    + cbn [deaths]. rewrite Hs, Hd. rewrite deaths_dead by exact Hd. reflexivity.
  - intros Hk cs. destruct (calls_nonkillable cs s Hk) as [H1 H2].
    rewrite H1, H2. auto.
Qed.

End SquadLiveness.

(** A killable squad of one unit that is gone at the next update; two
    units join later and are alive at a second update: the squad is dead,
    and it died once. *)
Lemma squad_liveness_one_way_witness :
  SquadM.liveness
    (SquadM.calls idleBehaviour loneSquad
       [SquadM.CallOnAiUpdate emptiedGame; SquadM.CallAddUnit 8; SquadM.CallAddUnit 9;
        SquadM.CallOnAiUpdate populatedGame]) = SquadM.SquadDead
  /\ SquadM.deaths idleBehaviour loneSquad
       [SquadM.CallOnAiUpdate emptiedGame; SquadM.CallAddUnit 8; SquadM.CallAddUnit 9;
        SquadM.CallOnAiUpdate populatedGame] = 1%nat.
Proof.
  apply (proj1 (squad_liveness_one_way idleBehaviour loneSquad eq_refl) eq_refl
           emptiedGame
           [SquadM.CallAddUnit 8; SquadM.CallAddUnit 9; SquadM.CallOnAiUpdate populatedGame]
           eq_refl).
Defined.

(** ** Squad: cohesion *)

Section SquadCohesion.
Import JS MapUtil SquadM.
Local Open Scope R_scope.
Variable behaviour : GameApi -> Squad -> SquadAction.

Lemma in_somes {A} (a : A) (l : list (option A)) : In a (somes l) <-> In (Some a) l.
Proof.
  induction l as [|[b|] l IH]; simpl; [tauto| |].
  - rewrite IH. split; intros [H|H]; auto; left; congruence.
  - rewrite IH. split; [auto|]. intros [H|H]; [discriminate | exact H].
Qed.

Lemma sums_fold (l : list Tile) (a b : R) :
  fold_left (fun acc tile => (fst acc + or0 (rx tile), snd acc + or0 (ry tile))) l (a, b)
  = (a + fold_right Rplus 0 (map rx l), b + fold_right Rplus 0 (map ry l)).
Proof.
  revert a b. induction l as [|t l IH]; intros a b; simpl.
  - f_equal; lra.
  - rewrite IH, !or0_id. f_equal; lra.
Qed.

(** [calculateCenterOfMass] on its own: nothing for no tile; otherwise the
    rounded mean and the greatest distance to it. *)
Lemma calculateCenterOfMass_spec (tiles : list Tile) :
  (tiles = [] -> calculateCenterOfMass tiles = None)
  /\ (tiles <> [] ->
      exists c d,
        calculateCenterOfMass tiles
        = Some {| tm_centerOfMass := c; tm_maxDistance := Some d |}
        /\ rounds_to (mean (map rx tiles)) (x c)
        /\ rounds_to (mean (map ry tiles)) (y c)
        /\ is_max_of
             (map (fun t => getDistanceBetweenPoints {| x := rx t; y := ry t |} c) tiles) d).
Proof.
  split.
  - intros ->. reflexivity.
  - intros Hne. unfold calculateCenterOfMass.
    destruct tiles as [|t0 tiles']; [congruence|].
    set (tiles := t0 :: tiles') in *.
    replace (length tiles =? 0)%nat with false by reflexivity.
    rewrite sums_fold. cbn [fst snd]. rewrite !Rplus_0_l.
    set (c := {| x := Math_round (fold_right Rplus 0 (map rx tiles) / INR (length tiles));
                 y := Math_round (fold_right Rplus 0 (map ry tiles) / INR (length tiles)) |}).
    destruct (lodash_max_spec
                (l := map (fun t => getDistanceBetweenPoints {| x := rx t; y := ry t |} c) tiles))
      as (d & Hd & Hin & Hub).
    { subst tiles. discriminate. }
    exists c, d. rewrite Hd. split; [reflexivity|].
    split; [|split].
    + unfold rounds_to, mean. rewrite length_map.
      destruct (Math_round_spec (fold_right Rplus 0 (map rx tiles) / INR (length tiles)))
        as (k & Hk & Hb).
      exists k. split; [exact Hk | exact Hb].
    + unfold rounds_to, mean. rewrite length_map.
      destruct (Math_round_spec (fold_right Rplus 0 (map ry tiles) / INR (length tiles)))
        as (k & Hk & Hb).
      exists k. split; [exact Hk | exact Hb].
    + split; assumption.
Qed.

Lemma updateLiveness_unitIds g s :
  unitIds (updateLiveness g s)
  = filter (fun unitId => isSome (getUnitData g unitId)) (unitIds s).
Proof.
  unfold updateLiveness, set_tick, set_unitIds, set_liveness; cbn.
  destruct (killable s && _); [destruct (liveness s)|]; reflexivity.
Qed.

(** The tiles that enter the metrics are those of the members that
    resolve, can move and have a tile. *)
Lemma movableUnitTiles_spec g s t :
  In t (movableUnitTiles g (updateLiveness g s))
  <-> exists i u, In i (unitIds s) /\ getUnitData g i = Some u
                  /\ canMove u = true /\ tile u = Some t.
Proof.
  unfold movableUnitTiles. rewrite updateLiveness_unitIds, in_somes, in_map_iff.
  split.
  - intros ([u|] & Ht & Hin); [|discriminate].
    apply filter_In in Hin. destruct Hin as [Hin Hmove].
    apply in_map_iff in Hin. destruct Hin as (i & Hi & Hin).
    apply filter_In in Hin. destruct Hin as [Hin _].
    exists i, u. auto.
  - intros (i & u & Hin & Hu & Hmove & Ht).
    exists (Some u). split; [exact Ht|].
    apply filter_In. split; [|exact Hmove].
    apply in_map_iff. exists i. split; [exact Hu|].
    apply filter_In. split; [exact Hin|]. rewrite Hu. reflexivity.
Qed.

Lemma onAiUpdate_cohesion g s :
  let m := calculateCenterOfMass (movableUnitTiles g (updateLiveness g s)) in
  centerOfMass (fst (onAiUpdate behaviour g s)) = option_map tm_centerOfMass m
  /\ maxDistanceToCenterOfMass (fst (onAiUpdate behaviour g s))
     = match m with Some tm => tm_maxDistance tm | None => None end.
Proof.
  unfold onAiUpdate.
  destruct (calculateCenterOfMass _); cbn;
    destruct (mission (updateLiveness g s)) as [mi|]; cbn;
    try destruct (isActive mi); cbn; auto.
Qed.

(** C4 (amended).  After a squad update, with [tiles] the tiles of the
    members that resolve, can move and have a tile (whatever their movement
    zone): when there is none, the center and the spread are both null;
    otherwise the center is the component-wise mean of the tiles rounded to
    the nearest integer, and the spread is the greatest Euclidean distance
    from one of the tiles to that rounded center. *)
Theorem cohesion_from_movable_members (g : GameApi) (s : Squad) :
  let s' := fst (onAiUpdate behaviour g s) in
  let tiles := movableUnitTiles g (updateLiveness g s) in
  (forall t, In t tiles <->
             exists i u, In i (unitIds s) /\ getUnitData g i = Some u
                         /\ canMove u = true /\ tile u = Some t)
  /\ (tiles = [] -> centerOfMass s' = None /\ maxDistanceToCenterOfMass s' = None)
  /\ (tiles <> [] ->
      exists c d,
        centerOfMass s' = Some c /\ maxDistanceToCenterOfMass s' = Some d
        /\ rounds_to (mean (map rx tiles)) (x c)
        /\ rounds_to (mean (map ry tiles)) (y c)
        /\ is_max_of
             (map (fun t => getDistanceBetweenPoints {| x := rx t; y := ry t |} c) tiles) d).
Proof.
  intros s' tiles. split; [|split].
  - intros t. apply movableUnitTiles_spec.
  - intros He. destruct (onAiUpdate_cohesion g s) as [Hc Hd].
    subst s'. rewrite Hc, Hd.
    destruct (calculateCenterOfMass_spec tiles) as [Hnone _].
    fold tiles. rewrite (Hnone He). auto.
  - intros Hne. destruct (onAiUpdate_cohesion g s) as [Hc Hd].
    destruct (calculateCenterOfMass_spec tiles) as [_ Hsome].
    destruct (Hsome Hne) as (c & d & Hcalc & Hx & Hy & Hmax).
    exists c, d. subst s'. rewrite Hc, Hd. fold tiles. rewrite Hcalc. cbn. auto.
Qed.

End SquadCohesion.

(** *** Cohesion on concrete squads *)

(** The specification's example: the center is (2,0) and the spread 2. *)
Lemma cohesion_three_in_line :
  SquadM.calculateCenterOfMass [ {| rx := 0; ry := 0 |}; {| rx := 2; ry := 0 |}; {| rx := 4; ry := 0 |} ]
  = Some {| SquadM.tm_centerOfMass := {| x := 2; y := 0 |}; SquadM.tm_maxDistance := Some 2%R |}.
Proof.
  unfold SquadM.calculateCenterOfMass. cbn [length Nat.eqb fold_left fst snd rx ry map].
  rewrite !or0_id.
  assert (Hx : JS.Math_round ((0 + 0 + 2 + 4) / INR 3) = 2%R).
  { apply (@Math_round_eq _ 2%Z). cbn [INR]. lra. }
  assert (Hy : JS.Math_round ((0 + 0 + 0 + 0) / INR 3) = 0%R).
  { apply (@Math_round_eq _ 0%Z). cbn [INR]. lra. }
  rewrite Hx, Hy. rewrite !distance_on_axis.
  replace (Rabs (0 - 2)) with 2%R by (rewrite Rabs_left; lra).
  replace (Rabs (2 - 2)) with 0%R by (rewrite Rabs_right; lra).
  replace (Rabs (4 - 2)) with 2%R by (rewrite Rabs_right; lra).
  unfold JS.lodash_max. cbn [fold_left].
  replace (JS.gt 0 2) with false by (symmetry; apply gt_false; lra).
  replace (JS.gt 2 2) with false by (symmetry; apply gt_false; lra).
  reflexivity.
Qed.

(** The theorem on the squad of the three ground units in line. *)
Lemma cohesion_from_movable_members_witness :
  exists c d,
    SquadM.centerOfMass (fst (SquadM.onAiUpdate idleBehaviour lineGame lineSquad)) = Some c
    /\ SquadM.maxDistanceToCenterOfMass
         (fst (SquadM.onAiUpdate idleBehaviour lineGame lineSquad)) = Some d
    /\ rounds_to (mean [0; 2; 4]%R) (x c)
    /\ rounds_to (mean [0; 0; 0]%R) (y c)
    /\ is_max_of
         (map (fun t => MapUtil.getDistanceBetweenPoints {| x := rx t; y := ry t |} c)
              [ {| rx := 0; ry := 0 |}; {| rx := 2; ry := 0 |}; {| rx := 4; ry := 0 |} ]) d.
Proof.
  apply (proj2 (proj2 (cohesion_from_movable_members idleBehaviour lineGame lineSquad))).
  discriminate.
Defined.

(** C4, counterexample.  A squad of one flying unit that can move: no
    movable ground member, yet the update sets the center (to the unit's
    tile) and the spread (to zero). *)
Lemma cohesion_counts_air_units :
  groundMovableTiles airGame airSquad = []
  /\ SquadM.centerOfMass (fst (SquadM.onAiUpdate idleBehaviour airGame airSquad))
     = Some {| x := 3; y := 4 |}
  /\ SquadM.maxDistanceToCenterOfMass
       (fst (SquadM.onAiUpdate idleBehaviour airGame airSquad)) = Some 0%R.
Proof.
  split; [reflexivity|].
  assert (H : SquadM.calculateCenterOfMass [ {| rx := 3; ry := 4 |} ]
              = Some {| SquadM.tm_centerOfMass := {| x := 3; y := 4 |};
                        SquadM.tm_maxDistance := Some 0%R |}).
  { unfold SquadM.calculateCenterOfMass. cbn [length Nat.eqb fold_left fst snd rx ry map].
    rewrite !or0_id.
    assert (Hx : JS.Math_round ((0 + 3) / INR 1) = 3%R).
    { apply (@Math_round_eq _ 3%Z). cbn [INR]. lra. }
    assert (Hy : JS.Math_round ((0 + 4) / INR 1) = 4%R).
    { apply (@Math_round_eq _ 4%Z). cbn [INR]. lra. }
    rewrite Hx, Hy. rewrite distance_on_axis.
    replace (Rabs (3 - 3)) with 0%R by (rewrite Rabs_right; lra).
    reflexivity. }
  destruct (onAiUpdate_cohesion idleBehaviour airGame airSquad) as [Hc Hd].
  rewrite Hc, Hd.
  change (SquadM.movableUnitTiles airGame (SquadM.updateLiveness airGame airSquad))
    with [ {| rx := 3; ry := 4 |} ].
  rewrite H. split; reflexivity.
Qed.

(** ** Awareness: the hostile query *)
Section HostileQuery.
Import JS MapUtil Awareness.
Local Open Scope R_scope.
Variable retrieve : Quadtree -> Circle -> list QTUnit.

(** C5.  Whatever the quadtree hands back for the query circle, every
    entry that [getHostilesNearPoint] returns lies within the radius of the
    search point, by Euclidean distance. *)
Theorem hostiles_within_radius (s : State) (searchX searchY radius : R) :
  Forall (fun q => getDistanceBetweenPoints {| x := qx q; y := qy q |}
                                            {| x := searchX; y := searchY |} <= radius)
         (getHostilesNearPoint retrieve s searchX searchY radius).
Proof.
  apply Forall_forall. intros q Hq. unfold getHostilesNearPoint in Hq.
  apply filter_In in Hq. destruct Hq as [Hq _].
  apply filter_In in Hq. destruct Hq as [_ Hd].
  now apply le_true.
Qed.

(** C10.  Whatever the quadtree hands back, every entry that
    [getHostilesNearPoint] returns carries a unit id, and that id is not
    zero: an entry with id 0 (or without an id) never comes back, wherever
    it lies. *)
Theorem hostiles_have_truthy_id (s : State) (searchX searchY radius : R) :
  Forall (fun q => exists i, unitId q = Some i /\ i <> 0%Z)
         (getHostilesNearPoint retrieve s searchX searchY radius).
Proof.
  apply Forall_forall. intros q Hq. unfold getHostilesNearPoint in Hq.
  apply filter_In in Hq. destruct Hq as [_ Hid].
  destruct (unitId q) as [i|]; [|discriminate].
  exists i. split; [reflexivity|].
  unfold truthyZ in Hid. apply negb_true_iff, Z.eqb_neq in Hid. exact Hid.
Qed.

End HostileQuery.

(** A query at (1,1) with radius 3 over the three hostiles, on a quadtree
    that hands back everything: unit 6 is too far, unit 0 is within the
    radius but has the id zero; unit 5 alone comes back. *)
Lemma hostile_query_on_three :
  Awareness.getHostilesNearPoint retrieveAll threeHostiles 1 1 3
  = [ {| Awareness.qx := 2; Awareness.qy := 1; Awareness.unitId := Some 5%Z |} ].
Proof.
  unfold Awareness.getHostilesNearPoint, retrieveAll.
  change (Awareness.hostileQuadTree threeHostiles)
    with [ {| Awareness.cx := 1; Awareness.cy := 1; Awareness.cr := 1; Awareness.data := Some 0%Z |};
           {| Awareness.cx := 2; Awareness.cy := 1; Awareness.cr := 1; Awareness.data := Some 5%Z |};
           {| Awareness.cx := 50; Awareness.cy := 1; Awareness.cr := 1; Awareness.data := Some 6%Z |} ].
  cbn [map filter Awareness.cx Awareness.cy Awareness.data Awareness.qx Awareness.qy].
  rewrite !distance_on_axis.
  replace (JS.le (Rabs (1 - 1)) 3) with true
    by (symmetry; apply le_true; rewrite Rabs_right; lra).
  replace (JS.le (Rabs (2 - 1)) 3) with true
    by (symmetry; apply le_true; rewrite Rabs_right; lra).
  replace (JS.le (Rabs (50 - 1)) 3) with false
    by (symmetry; apply le_false; rewrite Rabs_right; lra).
  reflexivity.
Qed.

(** ** Awareness: the per-tick update *)
Section AwarenessUpdate.
Import JS MapUtil Awareness.
Local Open Scope R_scope.
Variable calculateGlobalThreat : GameApi -> PlayerData -> R -> GlobalThreat.
Variable getPointTowardsOtherPoint : GameApi -> Point2D -> Point2D -> Point2D.

Lemma same_fields_refl s : same_fields s s.
Proof. repeat split. Qed.

Lemma same_fields_log s e : same_fields s (add_log s e).
Proof. repeat split. Qed.

Lemma sectorStep_returns game sc s :
  exists s1, sectorStep game sc s = Returned tt s1 /\ same_fields s s1.
Proof.
  unfold sectorStep.
  destruct (getSectorUpdateRatio sc _) as [u|].
  - destruct (truthy u && lt u 1.0); cbn.
    + eexists; split; [reflexivity | apply same_fields_log].
    + eexists; split; [reflexivity | apply same_fields_refl].
  - eexists; split; [reflexivity | apply same_fields_refl].
Qed.

Lemma insertUnits_all units : forall s,
  Forall (fun u => tile u <> None) units ->
  insertUnits units s
  = Returned tt (set_quadTree s (hostileQuadTree s ++ somes (map circleOf units))).
Proof.
  induction units as [|u us IH]; intros s Hall; cbn.
  - unfold ret. f_equal. rewrite app_nil_r. destruct s; reflexivity.
  - inversion Hall as [|? ? Hu Hus]; subst.
    unfold circleOf at 1. destruct (tile u) as [t|] eqn:Et; [|congruence].
    unfold bind, modify. rewrite IH by exact Hus. cbn.
    rewrite <- app_assoc. reflexivity.
Qed.

Lemma insertUnits_throws pre u post : forall s,
  Forall (fun u => tile u <> None) pre -> tile u = None ->
  insertUnits (pre ++ u :: post) s
  = Thrown (set_quadTree s (hostileQuadTree s ++ somes (map circleOf pre))).
Proof.
  induction pre as [|p pre IH]; intros s Hall Hu; cbn.
  - rewrite Hu. unfold throw. f_equal. rewrite app_nil_r. destruct s; reflexivity.
  - inversion Hall as [|? ? Hp Hpre]; subst.
    unfold circleOf at 1. destruct (tile p) as [t|] eqn:Et; [|congruence].
    unfold bind, modify. rewrite IH by assumption. cbn.
    rewrite <- app_assoc. reflexivity.
Qed.

(** The [try] block never lets an exception out, and touches nothing but
    the index and the log. *)
Lemma rebuildStep_returns game pd s :
  exists s2, rebuildStep game pd s = Returned tt s2
             /\ _shouldAttack s2 = _shouldAttack s
             /\ threatCache s2 = threatCache s
             /\ mainRallyPoint s2 = mainRallyPoint s.
Proof.
  unfold rebuildStep, try_catch, bind, lift.
  destruct (mapResult (getUnitData game) (getVisibleUnits game (name pd))) as [looked|]; cbn.
  - unfold rebuildQuadtree, bind, modify.
    set (us := somes _). set (s0 := set_quadTree s []).
    assert (H : forall l st, _shouldAttack (outcome_state (insertUnits l st)) = _shouldAttack st
                             /\ threatCache (outcome_state (insertUnits l st)) = threatCache st
                             /\ mainRallyPoint (outcome_state (insertUnits l st)) = mainRallyPoint st).
    { induction l as [|u l IH]; intros st; cbn; auto.
      destruct (tile u); cbn; auto.
      unfold bind, modify. destruct (IH (set_quadTree st (hostileQuadTree st ++
        [{| cx := rx t; cy := ry t; cr := 1; data := Some (id u) |}]))) as (A & B & C).
      destruct (insertUnits l _); cbn in *; auto. }
    destruct (H us s0) as (A & B & C).
    destruct (insertUnits us s0) as [[] s'|s']; cbn in *.
    + eexists; split; [reflexivity|]. auto.
    + eexists; split; [reflexivity|]. cbn. auto.
  - eexists; split; [reflexivity|]. cbn. auto.
Qed.

Lemma threatStep_evaluates game pd sc s v :
  evaluationDue game sc v ->
  exists s3,
    threatStep calculateGlobalThreat game pd sc s = Returned tt s3
    /\ _shouldAttack s3
       = checkShouldAttack (calculateGlobalThreat game pd v)
           ((if _shouldAttack s then 0.75 else 1.25) * gameLengthFactor game)
    /\ threatCache s3 = Some (calculateGlobalThreat game pd v)
    /\ hostileQuadTree s3 = hostileQuadTree s
    /\ mainRallyPoint s3 = mainRallyPoint s.
Proof.
  intros (Htick & Hv & Hnz). unfold threatStep.
  apply Z.eqb_eq in Htick. rewrite Htick, Hv. cbn [when].
  apply truthy_true in Hnz. rewrite Hnz.
  unfold bind, logger, modify, gets, when, ret; cbn.
  destruct (_shouldAttack s) eqn:Ea; cbn.
  - destruct (checkShouldAttack _ _) eqn:Ec; cbn;
      eexists; (split; [reflexivity|]); cbn; auto.
  - destruct (checkShouldAttack _ _) eqn:Ec; cbn;
      eexists; (split; [reflexivity|]); cbn; auto.
Qed.

Lemma rallyStep_keeps game pd s :
  _shouldAttack (outcome_state (rallyStep getPointTowardsOtherPoint game pd s)) = _shouldAttack s
  /\ hostileQuadTree (outcome_state (rallyStep getPointTowardsOtherPoint game pd s))
     = hostileQuadTree s
  /\ threatCache (outcome_state (rallyStep getPointTowardsOtherPoint game pd s)) = threatCache s.
Proof.
  unfold rallyStep, when.
  destruct (Z.rem _ _ =? 0)%Z; cbn; auto.
  destruct (filter _ _); cbn; auto.
Qed.

(** At an evaluation, the flag that the whole update leaves is the verdict
    of [checkShouldAttack] on the fresh snapshot, with the factor chosen by
    the flag's value before the update. *)
Lemma onAiUpdate_flag game pd sc s v :
  evaluationDue game sc v ->
  _shouldAttack (outcome_state
     (onAiUpdate calculateGlobalThreat getPointTowardsOtherPoint game pd sc s))
  = checkShouldAttack (calculateGlobalThreat game pd v)
      ((if _shouldAttack s then 0.75 else 1.25) * gameLengthFactor game).
Proof.
  intros Hdue. unfold onAiUpdate, bind.
  destruct (sectorStep_returns game sc s) as (s1 & -> & (A1 & _)).
  destruct (rebuildStep_returns game pd s1) as (s2 & -> & A2 & _).
  destruct (threatStep_evaluates pd s2 Hdue) as (s3 & -> & A3 & _).
  destruct (rallyStep_keeps game pd s3) as (A4 & _).
  rewrite A4, A3, A2, A1. reflexivity.
Qed.

End AwarenessUpdate.

(** ** Awareness: the attack flag *)

Section AttackFlag.
Import JS MapUtil Awareness.
Local Open Scope R_scope.
Variable calculateGlobalThreat : GameApi -> PlayerData -> R -> GlobalThreat.
Variable getPointTowardsOtherPoint : GameApi -> Point2D -> Point2D -> Point2D.

Lemma Math_pow_nonneg (b e : R) : 0 <= b -> Math_pow b e = Some (power b e).
Proof.
  intros Hb. unfold Math_pow, power.
  destruct (Rlt_dec 0 b) as [Hpos|Hnpos].
  - destruct (Req_dec_T b 0); [lra | reflexivity].
  - destruct (Req_dec_T b 0); [reflexivity | lra].
Qed.

Lemma checkShouldAttack_rule (tc : GlobalThreat) (f : R) :
  0 <= totalAvailableAntiGroundFirepower tc ->
  0 <= totalAvailableAirPower tc ->
  checkShouldAttack tc f = true <-> attack_rule tc f.
Proof.
  intros Hg Ha. unfold checkShouldAttack, attack_rule.
  rewrite (Math_pow_nonneg 1.025 Hg), (Math_pow_nonneg 1.025 Ha).
  cbn [gt_nan]. rewrite orb_true_iff, !gt_true. tauto.
Qed.

(** C1 (amended).  At a hysteresis evaluation, with [tc] the fresh threat
    snapshot (its own powers not negative) and [f] the factor chosen from
    the flag's value before the update, the update leaves the flag true
    exactly when selfAntiGroundPower^1.025 exceeds
    (f x enemyOffensiveLandThreat + enemyDefensiveThreat) x 1.1, or
    selfAirPower^1.025 exceeds
    (f x enemyOffensiveAntiAirThreat + enemyDefensiveThreat) x 1.1: the air
    comparison reads the enemy's anti-air threat. *)
Theorem attack_flag_rule (game : GameApi) (pd : PlayerData) (sc : SectorCache)
        (s : State) (v f : R) :
  evaluationDue game sc v ->
  0 <= totalAvailableAntiGroundFirepower (calculateGlobalThreat game pd v) ->
  0 <= totalAvailableAirPower (calculateGlobalThreat game pd v) ->
  f = (if _shouldAttack s then 0.75 else 1.25) * gameLengthFactor game ->
  _shouldAttack (outcome_state
     (onAiUpdate calculateGlobalThreat getPointTowardsOtherPoint game pd sc s)) = true
  <-> attack_rule (calculateGlobalThreat game pd v) f.
Proof.
  intros Hdue Hg Ha ->.
  rewrite (onAiUpdate_flag calculateGlobalThreat getPointTowardsOtherPoint pd s Hdue).
  now apply checkShouldAttack_rule.
Qed.

(** C3 (amended).  At a hysteresis evaluation at tick t, the game length
    factor is max(0, 1 - t / (15 x 7200)), with the constant 15 whatever the
    engine's tick rate is, and the flag that the update leaves is the
    verdict of [checkShouldAttack] under the factor 1.25 x gameLengthFactor
    when the flag was defend, 0.75 x gameLengthFactor when it was attack. *)
Theorem hysteresis_factor (game : GameApi) (pd : PlayerData) (sc : SectorCache)
        (s : State) (v : R) :
  evaluationDue game sc v ->
  gameLengthFactor game = Rmax 0 (1 - IZR (getCurrentTick game) / (15 * 7200))
  /\ _shouldAttack (outcome_state
       (onAiUpdate calculateGlobalThreat getPointTowardsOtherPoint game pd sc s))
     = checkShouldAttack (calculateGlobalThreat game pd v)
         ((if _shouldAttack s then 0.75 else 1.25)
          * Rmax 0 (1 - IZR (getCurrentTick game) / (15 * 7200))).
Proof.
  intros Hdue.
  assert (Hg : gameLengthFactor game = Rmax 0 (1 - IZR (getCurrentTick game) / (15 * 7200))).
  { unfold gameLengthFactor, Math_max. f_equal. lra. }
  split; [exact Hg|].
  rewrite (onAiUpdate_flag calculateGlobalThreat getPointTowardsOtherPoint pd s Hdue).
  rewrite Hg. reflexivity.
Qed.

End AttackFlag.

(** *** The attack flag on concrete snapshots *)

Lemma evaluationDue_quiet (tick rate : Z) :
  Z.rem tick 30 = 0%Z -> evaluationDue (quietGame tick rate) fullyVisible 1.
Proof. intros H. repeat split; [exact H | cbn; lra]. Qed.

Lemma gameLengthFactor_at_start (rate : Z) :
  Awareness.gameLengthFactor (quietGame 0 rate) = 1%R.
Proof.
  unfold Awareness.gameLengthFactor, JS.Math_max. cbn.
  rewrite Rmax_right; lra.
Qed.

Lemma power_1 (e : R) : power 1 e = 1%R.
Proof.
  unfold power. destruct (Req_dec_T 1 0); [lra|].
  unfold Rpower. rewrite ln_1, Rmult_0_r. apply exp_0.
Qed.

Lemma power_0 (e : R) : power 0 e = 0%R.
Proof. unfold power. destruct (Req_dec_T 0 0); [reflexivity | lra]. Qed.

Lemma power_100_grows : (100 <= power 100 1.025)%R.
Proof.
  unfold power. destruct (Req_dec_T 100 0); [lra|].
  rewrite <- (Rpower_1 100) at 1 by lra.
  apply Rle_Rpower; lra.
Qed.

(** The specification's example: own anti-ground power 100 against an
    offensive land threat of 50, defending, at the start of the game. *)
Lemma attack_flag_rule_witness :
  Awareness._shouldAttack (Awareness.outcome_state
    (Awareness.onAiUpdate (fun _ _ _ => snapshot 100 50 0 0 0 0) midpoint
       (quietGame 0 15) selfPlayer fullyVisible defending)) = true.
Proof.
  apply (proj2 (attack_flag_rule (fun _ _ _ => snapshot 100 50 0 0 0 0) midpoint
                  selfPlayer defending
                  (evaluationDue_quiet 0 15 eq_refl)
                  ltac:(cbn; lra) ltac:(cbn; lra) eq_refl)).
  left. cbn. rewrite gameLengthFactor_at_start.
  pose proof power_100_grows. lra.
Defined.

(** C1, counterexample.  Own air power 1, no enemy air threat and an enemy
    anti-air threat of 1000, defending at the start of the game: the rule
    as stated holds (1 > 0), yet the update leaves the flag false. *)
Lemma attack_flag_reads_anti_air :
  attack_rule_as_stated (snapshot 0 10 0 1 0 1000) 1.25
  /\ Awareness._shouldAttack (Awareness.outcome_state
       (Awareness.onAiUpdate (fun _ _ _ => snapshot 0 10 0 1 0 1000) midpoint
          (quietGame 0 15) selfPlayer fullyVisible defending)) = false.
Proof.
  split.
  - right. cbn. rewrite power_1. lra.
  - rewrite (onAiUpdate_flag (fun _ _ _ => snapshot 0 10 0 1 0 1000) midpoint
               selfPlayer defending (evaluationDue_quiet 0 15 eq_refl)).
    cbn [Awareness._shouldAttack defending]. rewrite gameLengthFactor_at_start.
    apply not_true_is_false. intros H.
    apply checkShouldAttack_rule in H; [|cbn; lra|cbn; lra].
    destruct H as [H|H]; cbn in H.
    + rewrite power_0 in H. lra.
    + rewrite power_1 in H. lra.
Qed.

(** Half way to the horizon, at tick 54000: the game length factor is a
    half and a defending bot judges under the factor 1.25 x 1/2. *)
Lemma hysteresis_factor_witness :
  Awareness.gameLengthFactor (quietGame 54000 15) = (/ 2)%R
  /\ Awareness._shouldAttack (Awareness.outcome_state
       (Awareness.onAiUpdate (fun _ _ _ => snapshot 1 1000 0 0 0 0) midpoint
          (quietGame 54000 15) selfPlayer fullyVisible defending))
     = Awareness.checkShouldAttack (snapshot 1 1000 0 0 0 0) (1.25 * / 2).
Proof.
  destruct (hysteresis_factor (fun _ _ _ => snapshot 1 1000 0 0 0 0) midpoint
              selfPlayer defending (evaluationDue_quiet 54000 15 eq_refl)) as [Hg Hf].
  assert (E : Rmax 0 (1 - IZR 54000 / (15 * 7200)) = (/ 2)%R).
  { rewrite Rmax_right; lra. }
  cbn [Awareness.getCurrentTick quietGame Awareness._shouldAttack defending] in Hg, Hf.
  rewrite E in Hg, Hf. split; [exact Hg | exact Hf].
Defined.

(** C3, counterexample.  Tick 108000 on an engine running 30 ticks per
    second: the factor as stated is a half, the code's is zero, and with own
    anti-ground power 1 against an offensive land threat of 1000 the update
    leaves the flag true where the factor as stated gives false. *)
Lemma hysteresis_ignores_tick_rate :
  gameLengthFactor_as_stated (quietGame 108000 30) = (/ 2)%R
  /\ Awareness.gameLengthFactor (quietGame 108000 30) = 0%R
  /\ Awareness._shouldAttack (Awareness.outcome_state
       (Awareness.onAiUpdate (fun _ _ _ => snapshot 1 1000 0 0 0 0) midpoint
          (quietGame 108000 30) selfPlayer fullyVisible defending)) = true
  /\ Awareness.checkShouldAttack (snapshot 1 1000 0 0 0 0)
       (1.25 * gameLengthFactor_as_stated (quietGame 108000 30)) = false.
Proof.
  assert (Hs : gameLengthFactor_as_stated (quietGame 108000 30) = (/ 2)%R).
  { unfold gameLengthFactor_as_stated. cbn. rewrite Rmax_right; lra. }
  assert (Hc : Awareness.gameLengthFactor (quietGame 108000 30) = 0%R).
  { unfold Awareness.gameLengthFactor, JS.Math_max. cbn. rewrite Rmax_left; lra. }
  split; [exact Hs|]. split; [exact Hc|]. split.
  - rewrite (onAiUpdate_flag (fun _ _ _ => snapshot 1 1000 0 0 0 0) midpoint
               selfPlayer defending (evaluationDue_quiet 108000 30 eq_refl)).
    cbn [Awareness._shouldAttack defending]. rewrite Hc.
    apply checkShouldAttack_rule; [cbn; lra|cbn; lra|].
    left. cbn. rewrite power_1. lra.
  - rewrite Hs. apply not_true_is_false. intros H.
    apply checkShouldAttack_rule in H; [|cbn; lra|cbn; lra].
    destruct H as [H|H]; cbn in H.
    + rewrite power_1 in H. lra.
    + rewrite power_0 in H. lra.
Qed.

(** ** Awareness: a failing rebuild *)
Section RebuildFailure.
Import JS MapUtil Awareness.
Local Open Scope R_scope.
Variable calculateGlobalThreat : GameApi -> PlayerData -> R -> GlobalThreat.
Variable getPointTowardsOtherPoint : GameApi -> Point2D -> Point2D -> Point2D.

Lemma threatStep_keeps_tree game pd sc s :
  exists s3, threatStep calculateGlobalThreat game pd sc s = Returned tt s3
             /\ hostileQuadTree s3 = hostileQuadTree s.
Proof.
  unfold threatStep, when.
  destruct (Z.rem _ _ =? 0)%Z; [|eexists; split; reflexivity].
  destruct (getOverallVisibility sc) as [v|]; [|eexists; split; reflexivity].
  destruct (truthy v); [|eexists; split; reflexivity].
  unfold bind, logger, modify, gets, when, ret; cbn.
  destruct (_shouldAttack s); cbn;
    destruct (checkShouldAttack _ _); cbn; eexists; split; reflexivity.
Qed.

Lemma remainingSteps_keep_tree game pd sc s :
  hostileQuadTree (outcome_state (remainingSteps calculateGlobalThreat getPointTowardsOtherPoint game pd sc s)) = hostileQuadTree s.
Proof.
  unfold remainingSteps, bind.
  destruct (threatStep_keeps_tree game pd sc s) as (s3 & -> & H3).
  destruct (rallyStep_keeps getPointTowardsOtherPoint game pd s3) as (_ & H4 & _).
  congruence.
Qed.

(** The steps after the [try] block return exactly when the rally step
    does: off the rally cadence, or with an enemy player to head for. *)
Lemma remainingSteps_return game pd sc s :
  returns (remainingSteps calculateGlobalThreat getPointTowardsOtherPoint game pd sc s) = true
  <-> (Z.rem (getCurrentTick game) RALLY_POINT_UPDATE_INTERVAL_TICKS <> 0%Z
       \/ enemyPlayersOf game pd <> []).
Proof.
  unfold remainingSteps, bind.
  destruct (threatStep_keeps_tree game pd sc s) as (s3 & -> & _).
  unfold rallyStep, when.
  fold (enemyPlayersOf game pd).
  destruct (Z.rem (getCurrentTick game) RALLY_POINT_UPDATE_INTERVAL_TICKS =? 0)%Z eqn:Edue.
  - apply Z.eqb_eq in Edue.
    destruct (enemyPlayersOf game pd) as [|first others]; cbn.
    + split; [discriminate|]. intros [H|H]; [contradiction | congruence].
    + split; [|reflexivity]. intros _. right. discriminate.
  - apply Z.eqb_neq in Edue. cbn. split; [|reflexivity]. intros _. left. exact Edue.
Qed.

(** C7 (amended).  With [s1] the state as the update finds it before the
    [try] block: (1) when a unit lookup throws while the hostile set is
    being built, the update equals the remaining steps run from [s1] with
    one more console line, and the index at the end is the one the update
    started with; (2) when the lookups answer and the insertion throws at
    the first hostile unit without a tile, the update equals the remaining
    steps run from [s1] with the index cleared and refilled with the
    circles of the units before that one, and with one more console line.
    Either way the exception of the rebuild stays inside, the threat and
    rally steps run, and the update returns exactly when the rally step,
    which stands outside the [try] block, does: when the tick is off the
    rally cadence or there is an enemy player to head for. *)
Theorem rebuild_failure_is_contained (game : GameApi) (pd : PlayerData)
        (sc : SectorCache) (s : State) :
  let ids := getVisibleUnits game (name pd) in
  let s1 := outcome_state (sectorStep game sc s) in
  let update := onAiUpdate calculateGlobalThreat getPointTowardsOtherPoint game pd sc s in
  let rallyCompletes :=
    Z.rem (getCurrentTick game) RALLY_POINT_UPDATE_INTERVAL_TICKS <> 0%Z
    \/ enemyPlayersOf game pd <> [] in
  (mapResult (getUnitData game) ids = Raise ->
   update = remainingSteps calculateGlobalThreat getPointTowardsOtherPoint game pd sc (add_log s1 (ConsoleError ids))
   /\ hostileQuadTree (outcome_state update) = hostileQuadTree s
   /\ (returns update = true <-> rallyCompletes))
  /\ (forall looked pre u post,
        mapResult (getUnitData game) ids = Ok looked ->
        hostileUnitsOf game pd looked = pre ++ u :: post ->
        Forall (fun p => tile p <> None) pre ->
        tile u = None ->
        update = remainingSteps calculateGlobalThreat getPointTowardsOtherPoint game pd sc
                   (add_log (set_quadTree s1 (somes (map circleOf pre))) (ConsoleError ids))
        /\ hostileQuadTree (outcome_state update) = somes (map circleOf pre)
        /\ (returns update = true <-> rallyCompletes)).
Proof.
  intros ids s1 update rallyCompletes.
  destruct (sectorStep_returns game sc s) as (s1' & Hs1 & (_ & Htree & _)).
  assert (Es1 : s1 = s1') by (subst s1; rewrite Hs1; reflexivity).
  split.
  - intros Hraise.
    assert (E : update = remainingSteps calculateGlobalThreat getPointTowardsOtherPoint game pd sc (add_log s1 (ConsoleError ids))).
    { subst update. unfold onAiUpdate at 1. unfold bind at 1. rewrite Hs1.
      unfold bind at 1. unfold rebuildStep, try_catch. unfold bind at 1.
      fold ids. rewrite Hraise. cbn. rewrite Es1. reflexivity. }
    split; [exact E|]. split.
    + rewrite E, remainingSteps_keep_tree. cbn. rewrite Es1. exact Htree.
    + rewrite E. apply remainingSteps_return.
  - intros looked pre u post Hok Hsplit Hpre Hu.
    assert (E : update = remainingSteps calculateGlobalThreat getPointTowardsOtherPoint game pd sc
                  (add_log (set_quadTree s1 (somes (map circleOf pre))) (ConsoleError ids))).
    { subst update. unfold onAiUpdate at 1. unfold bind at 1. rewrite Hs1.
      unfold bind at 1. unfold rebuildStep, try_catch. unfold bind at 1.
      fold ids. rewrite Hok. cbn [lift ret].
      fold (hostileUnitsOf game pd looked). rewrite Hsplit.
      unfold rebuildQuadtree, bind, modify.
      rewrite (@insertUnits_throws pre u post (set_quadTree s1' []) Hpre Hu).
      cbn. rewrite Es1. reflexivity. }
    split; [exact E|]. split.
    + rewrite E, remainingSteps_keep_tree. reflexivity.
    + rewrite E. apply remainingSteps_return.
Qed.

End RebuildFailure.

(** *** A failing rebuild on concrete ticks *)

(** The lookup of the second hostile unit throws, off the rally cadence:
    the update returns, the index of the previous tick is still there
    after it, and the console has the line of the [catch]. *)
Lemma rebuild_failure_is_contained_witness :
  Awareness.returns
    (Awareness.onAiUpdate (fun _ _ _ => snapshot 0 0 0 0 0 0) midpoint
       throwingGame selfPlayer fullyVisible afterPreviousTick) = true
  /\ Awareness.hostileQuadTree (Awareness.outcome_state
       (Awareness.onAiUpdate (fun _ _ _ => snapshot 0 0 0 0 0 0) midpoint
          throwingGame selfPlayer fullyVisible afterPreviousTick)) = previousIndex
  /\ Awareness.logged (Awareness.outcome_state
       (Awareness.onAiUpdate (fun _ _ _ => snapshot 0 0 0 0 0 0) midpoint
          throwingGame selfPlayer fullyVisible afterPreviousTick))
     = [Awareness.ConsoleError [1; 2]%Z].
Proof.
  destruct (proj1 (rebuild_failure_is_contained (fun _ _ _ => snapshot 0 0 0 0 0 0) midpoint
                     throwingGame selfPlayer fullyVisible afterPreviousTick) eq_refl)
    as (E & Htree & Hret).
  split; [|split; [exact Htree|]].
  - apply Hret. left. cbn. discriminate.
  - rewrite E. reflexivity.
Defined.

(** C7, counterexample.  The second of two hostile units comes without a
    tile: the insertion throws after the index was cleared and the first
    unit inserted.  The exception is caught and logged, but the index of the
    previous tick is gone. *)
Lemma rebuild_failure_loses_index :
  Awareness.hostileQuadTree afterPreviousTick = previousIndex
  /\ Awareness.hostileQuadTree (Awareness.outcome_state
       (Awareness.onAiUpdate (fun _ _ _ => snapshot 0 0 0 0 0 0) midpoint
          malformedGame selfPlayer fullyVisible afterPreviousTick))
     = [ {| Awareness.cx := 5; Awareness.cy := 5; Awareness.cr := 1;
            Awareness.data := Some 1%Z |} ]
  /\ Awareness.logged (Awareness.outcome_state
       (Awareness.onAiUpdate (fun _ _ _ => snapshot 0 0 0 0 0 0) midpoint
          malformedGame selfPlayer fullyVisible afterPreviousTick))
     = [Awareness.ConsoleError [1; 2]%Z]
  /\ Awareness.hostileQuadTree (Awareness.outcome_state
       (Awareness.onAiUpdate (fun _ _ _ => snapshot 0 0 0 0 0 0) midpoint
          malformedGame selfPlayer fullyVisible afterPreviousTick))
     <> Awareness.hostileQuadTree afterPreviousTick.
Proof.
  assert (E : Awareness.onAiUpdate (fun _ _ _ => snapshot 0 0 0 0 0 0) midpoint
                malformedGame selfPlayer fullyVisible afterPreviousTick
              = Awareness.Returned tt
                  (Awareness.add_log
                     (Awareness.set_quadTree afterPreviousTick
                        [ {| Awareness.cx := 5; Awareness.cy := 5; Awareness.cr := 1;
                             Awareness.data := Some 1%Z |} ])
                     (Awareness.ConsoleError [1; 2]%Z))).
  { reflexivity. }
  rewrite E. cbn. repeat split. discriminate.
Qed.

(** The lookup throws on the rally cadence with no enemy player: the
    failure of the rebuild is caught and logged and the index kept, and the
    update then ends in the exception of the rally step. *)
Lemma rally_step_throws_without_enemy :
  Awareness.returns
    (Awareness.onAiUpdate (fun _ _ _ => snapshot 0 0 0 0 0 0) midpoint
       aloneOnCadenceGame selfPlayer fullyVisible afterPreviousTick) = false
  /\ Awareness.hostileQuadTree (Awareness.outcome_state
       (Awareness.onAiUpdate (fun _ _ _ => snapshot 0 0 0 0 0 0) midpoint
          aloneOnCadenceGame selfPlayer fullyVisible afterPreviousTick)) = previousIndex.
Proof.
  assert (E : Awareness.onAiUpdate (fun _ _ _ => snapshot 0 0 0 0 0 0) midpoint
                aloneOnCadenceGame selfPlayer fullyVisible afterPreviousTick
              = remainingSteps (fun _ _ _ => snapshot 0 0 0 0 0 0) midpoint
                  aloneOnCadenceGame selfPlayer fullyVisible
                  (Awareness.add_log afterPreviousTick (Awareness.ConsoleError [1; 2]%Z)))
    by reflexivity.
  rewrite E. split.
  - apply not_true_is_false. intros H. apply remainingSteps_return in H.
    destruct H as [H|H]; apply H; reflexivity.
  - rewrite remainingSteps_keep_tree. reflexivity.
Qed.

(** ** Transport loading *)

Section TransportLoading.
Import JS Scripts.
Local Open Scope Z_scope.

Lemma map_get_set m k v q :
  map_get (map_set m k v) q = if k =? q then Some v else map_get m q.
Proof.
  induction m as [|[a b] m IH]; simpl; [reflexivity|].
  destruct (a =? k) eqn:Eak; simpl.
  - apply Z.eqb_eq in Eak. subst a. destruct (k =? q); reflexivity.
  - rewrite IH. destruct (a =? q) eqn:Eaq; [|reflexivity].
    apply Z.eqb_eq in Eaq. subst a. rewrite Z.eqb_sym, Eak. reflexivity.
Qed.

Lemma map_get_delete m k q :
  map_get (map_delete m k) q = if k =? q then None else map_get m q.
Proof.
  unfold map_delete. induction m as [|[a b] m IH]; simpl.
  - destruct (k =? q); reflexivity.
  - destruct (a =? k) eqn:Eak; simpl.
    + rewrite IH. apply Z.eqb_eq in Eak. subst a. destruct (k =? q); reflexivity.
    + rewrite IH. destruct (a =? q) eqn:Eaq; [|reflexivity].
      apply Z.eqb_eq in Eaq. subst a. rewrite Z.eqb_sym, Eak. reflexivity.
Qed.

Lemma map_get_in m k v : map_get m k = Some v -> In (k, v) m.
Proof.
  induction m as [|[a b] m IH]; simpl; [discriminate|].
  destruct (a =? k) eqn:E.
  - apply Z.eqb_eq in E. intros [= ->]. left. congruence.
  - auto.
Qed.

Lemma in_map_get m k v : NoDup (map fst m) -> In (k, v) m -> map_get m k = Some v.
Proof.
  induction m as [|[a b] m IH]; simpl; [tauto|].
  intros Hnd [H|H].
  - injection H as -> ->. rewrite Z.eqb_refl. reflexivity.
  - inversion Hnd as [|? ? Hnot Hnd']; subst.
    destruct (a =? k) eqn:E; [|auto].
    apply Z.eqb_eq in E. subst a. exfalso. apply Hnot.
    apply in_map_iff. exists (k, v). auto.
Qed.

Lemma in_map_set m k v a b : In (a, b) (map_set m k v) -> (a, b) = (k, v) \/ In (a, b) m.
Proof.
  induction m as [|[c d] m IH]; simpl.
  - intros [H|[]]. left. congruence.
  - destruct (c =? k); simpl; intros [H|H]; auto.
    destruct (IH H); auto.
Qed.

Lemma keys_map_set m k v a : In a (map fst (map_set m k v)) -> a = k \/ In a (map fst m).
Proof.
  intros H. apply in_map_iff in H. destruct H as ([c d] & <- & Hin).
  destruct (in_map_set _ _ _ _ _ Hin) as [E|E].
  - left. simpl. congruence.
  - right. apply in_map_iff. exists (c, d). auto.
Qed.

Lemma NoDup_map_set m k v : NoDup (map fst m) -> NoDup (map fst (map_set m k v)).
Proof.
  induction m as [|[a b] m IH]; simpl; intros Hnd.
  - constructor; [tauto | constructor].
  - inversion Hnd as [|? ? Hnot Hnd']; subst.
    destruct (a =? k) eqn:E; simpl.
    + apply Z.eqb_eq in E. subst a. constructor; assumption.
    + constructor; [|auto]. intros Hin.
      destruct (keys_map_set _ _ _ _ Hin) as [->|H]; [|tauto].
      rewrite Z.eqb_refl in E. discriminate.
Qed.

Lemma NoDup_keys_filter (f : Z * Z -> bool) m :
  NoDup (map fst m) -> NoDup (map fst (filter f m)).
Proof.
  induction m as [|e m IH]; simpl; intros Hnd; [constructor|].
  inversion Hnd as [|? ? Hnot Hnd']; subst.
  destruct (f e); simpl; [|auto].
  constructor; [|auto]. intros Hin. apply Hnot.
  apply in_map_iff in Hin. destruct Hin as (e' & He & Hin).
  apply filter_In in Hin. apply in_map_iff. exists e'. tauto.
Qed.

Lemma last_opt_in {A} (l : list A) (a : A) : last_opt l = Some a -> In a l.
Proof.
  induction l as [|b l IH]; simpl; [discriminate|].
  destruct l as [|c l]; [intros [= ->]; auto|]. intros H. right. auto.
Qed.

Lemma load_map_set U a p t q :
  load U (map_set a p t) q
  = load U a q
    - match map_get a p with
      | Some t0 => if t0 =? q then sizeOf U p else 0
      | None => 0
      end
    + (if t =? q then sizeOf U p else 0).
Proof.
  induction a as [|[k v] a IH]; simpl; [lia|].
  destruct (k =? p) eqn:E; simpl.
  - apply Z.eqb_eq in E. subst k. lia.
  - rewrite IH. lia.
Qed.

Lemma sizeOf_member U u :
  rules_by_id U -> In u U -> sizeOf U (id u) = size (rules u).
Proof.
  intros Hc Hin. unfold sizeOf.
  destruct (find (fun u0 => id u0 =? id u) U) as [u'|] eqn:E.
  - apply find_some in E. destruct E as [Hin' Hid]. apply Z.eqb_eq in Hid.
    now rewrite (Hc u' u Hin' Hin Hid).
  - pose proof (find_none _ _ E u Hin) as Hn. cbn in Hn.
    rewrite Z.eqb_refl in Hn. discriminate.
Qed.

(** The loop keeps, for every transport, the load it has given out plus
    the slots it still records within the transport's capacity. *)
Lemma assignLoop_load U (cap : Z -> Z) stack : forall remainingSizes assigned,
  (forall u, In u stack -> sizeOf U (id u) = size (rules u) /\ 0 < size (rules u)) ->
  NoDup (map fst remainingSizes) ->
  (forall k v, In (k, v) remainingSizes -> 0 <= v) ->
  (forall t, load U assigned t + remainingOf remainingSizes t <= cap t) ->
  forall t, load U (assignLoop stack remainingSizes assigned) t <= cap t.
Proof.
  assert (Hfin : forall remainingSizes assigned,
             (forall k v, In (k, v) remainingSizes -> 0 <= v) ->
             (forall t, load U assigned t + remainingOf remainingSizes t <= cap t) ->
             forall t, load U assigned t <= cap t).
  { intros rs a Hpos Hinv t. specialize (Hinv t). unfold remainingOf in Hinv.
    destruct (map_get rs t) as [v|] eqn:E; [|lia].
    apply map_get_in in E. specialize (Hpos _ _ E). lia. }
  induction stack as [|unit rest IH]; intros rs a Hsz Hnd Hpos Hinv; simpl.
  - eauto.
  - destruct (length rs =? 0)%nat; [eauto|].
    destruct (last_opt _) as [[tid slots]|] eqn:Efit.
    + apply last_opt_in, filter_In in Efit. destruct Efit as [Hin Hfits].
      simpl in Hfits. apply Z.geb_le in Hfits.
      destruct (Hsz unit (or_introl eq_refl)) as [Hsize Hpos_size].
      pose proof (in_map_get _ _ _ Hnd Hin) as Hget.
      set (rs1 := map_set rs tid (slots - size (rules unit))).
      assert (Hget1 : forall q, map_get rs1 q
                                = if tid =? q then Some (slots - size (rules unit))
                                  else map_get rs q).
      { intros q. apply map_get_set. }
      apply IH.
      * intros u Hu. apply Hsz. now right.
      * destruct (slots - size (rules unit) =? 0);
          [apply NoDup_keys_filter|]; now apply NoDup_map_set.
      * intros k v Hkv.
        assert (Hkv1 : In (k, v) rs1).
        { destruct (slots - size (rules unit) =? 0); [|exact Hkv].
          unfold map_delete in Hkv. apply filter_In in Hkv. tauto. }
        destruct (in_map_set _ _ _ _ _ Hkv1) as [E|E]; [|eauto].
        injection E as -> ->. lia.
      * intros t. specialize (Hinv t).
        rewrite load_map_set, Hsize.
        assert (Hrem : remainingOf (if slots - size (rules unit) =? 0
                                    then map_delete rs1 tid else rs1) t
                       = if tid =? t then slots - size (rules unit) else remainingOf rs t).
        { unfold remainingOf.
          destruct (slots - size (rules unit) =? 0) eqn:Ez.
          - rewrite map_get_delete, Hget1. apply Z.eqb_eq in Ez.
            destruct (tid =? t); [lia | reflexivity].
          - rewrite Hget1. destruct (tid =? t); reflexivity. }
        rewrite Hrem.
        assert (Hold : 0 <= match map_get a (id unit) with
                            | Some t0 => if t0 =? t then size (rules unit) else 0
                            | None => 0
                            end).
        { destruct (map_get a (id unit)) as [t0|]; [destruct (t0 =? t)|]; lia. }
        destruct (tid =? t) eqn:Et.
        -- apply Z.eqb_eq in Et. subst t. unfold remainingOf in Hinv.
           rewrite Hget in Hinv. lia.
        -- lia.
    + apply IH; auto. intros u Hu. apply Hsz. now right.
Qed.

(** The loop assigns units of the stack only, to keys of the map only, and
    assigns each at most once. *)
Lemma assignLoop_entries (P Q : Z -> Prop) stack : forall remainingSizes assigned,
  (forall u, In u stack -> Q (id u)) ->
  (forall k, In k (map fst remainingSizes) -> P k) ->
  (forall p t, In (p, t) assigned -> Q p /\ P t) ->
  NoDup (map fst assigned) ->
  NoDup (map fst (assignLoop stack remainingSizes assigned))
  /\ forall p t, In (p, t) (assignLoop stack remainingSizes assigned) -> Q p /\ P t.
Proof.
  induction stack as [|unit rest IH]; intros rs a HQ HP Ha Hnd; simpl.
  - auto.
  - destruct (length rs =? 0)%nat; [auto|].
    destruct (last_opt _) as [[tid slots]|] eqn:Efit.
    + apply last_opt_in, filter_In in Efit. destruct Efit as [Hin _].
      assert (Htid : P tid).
      { apply HP. apply in_map_iff. exists (tid, slots). auto. }
      apply IH.
      * intros u Hu. apply HQ. now right.
      * intros k Hk.
        assert (Hk1 : In k (map fst (map_set rs tid (slots - size (rules unit))))).
        { destruct (slots - size (rules unit) =? 0); [|exact Hk].
          apply in_map_iff in Hk. destruct Hk as (e & He & Hk).
          unfold map_delete in Hk. apply filter_In in Hk.
          apply in_map_iff. exists e. tauto. }
        destruct (keys_map_set _ _ _ _ Hk1) as [->|H]; auto.
      * intros p t Hpt. destruct (in_map_set _ _ _ _ _ Hpt) as [E|E]; [|auto].
        injection E as -> ->. split; [apply HQ; now left | exact Htid].
      * now apply NoDup_map_set.
    + apply IH; auto. intros u Hu. apply HQ. now right.
Qed.

Lemma entries_fold (es : list (Z * Z)) : forall acc,
  NoDup (map fst acc) ->
  NoDup (map fst (fold_left (fun m e => map_set m (fst e) (snd e)) es acc))
  /\ forall k v, In (k, v) (fold_left (fun m e => map_set m (fst e) (snd e)) es acc) ->
                 In (k, v) acc \/ In (k, v) es.
Proof.
  induction es as [|[a b] es IH]; intros acc Hnd; simpl; [auto|].
  destruct (IH (map_set acc a b) (NoDup_map_set _ a b Hnd)) as [H1 H2].
  split; [exact H1|]. intros k v Hkv.
  destruct (H2 k v Hkv) as [H|H]; [|auto].
  destruct (in_map_set _ _ _ _ _ H) as [E|E]; auto.
Qed.

(** C8.  For units whose rules go by their id, loaded by a fresh handler
    at a tick that is not negative: every passenger is assigned at most
    once, to a transport and not being one itself; the sizes of the
    passengers assigned to a transport sum to at most its passenger slots;
    and once the tick exceeds the start tick plus LOAD_TIME_LIMIT, [onStep]
    answers [step], whatever was assigned. *)
Theorem transport_loading_within_capacity (currentTick : Z) (allUnits : list UnitData) :
  rules_by_id allUnits ->
  0 <= currentTick ->
  let h := fst (onStart currentTick allUnits newHandler) in
  let transportIds := map id (filter (fun u => passengers (rules u) >? 0) allUnits) in
  NoDup (map fst (transporteesToTransport h))
  /\ (forall p t, In (p, t) (transporteesToTransport h) ->
                  In t transportIds /\ ~ In p transportIds)
  /\ (forall t, In t allUnits -> passengers (rules t) > 0 ->
                load allUnits (transporteesToTransport h) (id t) <= passengers (rules t))
  /\ (forall now, now > currentTick + LOAD_TIME_LIMIT -> fst (onStep now h) = step).
Proof.
  intros Hc Htick h transportIds.
  set (transportUnits := filter (fun u => passengers (rules u) >? 0) allUnits).
  set (entries := map (fun t => (id t, passengers (rules t))) transportUnits).
  set (transportedUnits :=
         filter (fun u => (size (rules u) >? 0)
                          && negb (existsb (Z.eqb (id u)) transportIds)) allUnits).
  assert (Hh : transporteesToTransport h
               = assignLoop (rev transportedUnits) (map_of_entries entries) []) by reflexivity.
  destruct (@entries_fold entries [] (NoDup_nil _)) as [Hnd0 Hin0].
  fold (map_of_entries entries) in Hnd0, Hin0.
  assert (Hentry : forall k v, In (k, v) (map_of_entries entries) ->
                   exists t, In t allUnits /\ id t = k /\ passengers (rules t) = v /\ 0 < v).
  { intros k v Hkv. destruct (Hin0 k v Hkv) as [[]|H].
    apply in_map_iff in H. destruct H as (t & E & Ht). injection E as <- <-.
    apply filter_In in Ht. destruct Ht as [Ht Hp]. exists t. repeat split; auto.
    apply Z.gtb_lt in Hp. lia. }
  assert (Hstack : forall u, In u (rev transportedUnits) ->
                   In u allUnits /\ 0 < size (rules u) /\ ~ In (id u) transportIds).
  { intros u Hu. apply in_rev, filter_In in Hu. destruct Hu as [Hu Hf].
    apply andb_true_iff in Hf. destruct Hf as [Hs Hn].
    apply Z.gtb_lt in Hs. split; [exact Hu|]. split; [lia|].
    intros Hin. apply negb_true_iff in Hn.
    assert (Hex : existsb (Z.eqb (id u)) transportIds = true).
    { apply existsb_exists. exists (id u). split; [exact Hin | apply Z.eqb_refl]. }
    congruence. }
  assert (Hent : NoDup (map fst (assignLoop (rev transportedUnits) (map_of_entries entries) []))
                 /\ forall p t,
                      In (p, t) (assignLoop (rev transportedUnits) (map_of_entries entries) []) ->
                      ~ In p transportIds /\ In t transportIds).
  { apply (@assignLoop_entries (fun t => In t transportIds) (fun p => ~ In p transportIds)).
    - intros u Hu. apply (Hstack u Hu).
    - intros k Hk. apply in_map_iff in Hk. destruct Hk as ([k' v] & <- & Hkv).
      destruct (Hin0 _ _ Hkv) as [[]|H].
      apply in_map_iff in H. destruct H as (t & E & Ht). injection E as <- <-.
      simpl. unfold transportIds. now apply in_map.
    - intros p t [].
    - constructor. }
  destruct Hent as [Hnd Hpairs].
  rewrite Hh. split; [exact Hnd|]. split; [|split].
  - intros p t Hpt. destruct (Hpairs p t Hpt). tauto.
  - intros t Ht Hp.
    assert (Hle : remainingOf (map_of_entries entries) (id t) <= passengers (rules t)).
    { unfold remainingOf. destruct (map_get _ (id t)) as [v|] eqn:E; [|lia].
      apply map_get_in in E. destruct (Hentry _ _ E) as (t' & Ht' & Hid & Hv & _).
      rewrite <- Hv, (Hc t' t Ht' Ht Hid). lia. }
    assert (Hl : load allUnits
                   (assignLoop (rev transportedUnits) (map_of_entries entries) []) (id t)
                 <= remainingOf (map_of_entries entries) (id t)).
    { apply (@assignLoop_load allUnits (remainingOf (map_of_entries entries))).
      - intros u Hu. destruct (Hstack u Hu) as (Hin & Hs & _).
        split; [now apply sizeOf_member | exact Hs].
      - exact Hnd0.
      - intros k v Hkv. destruct (Hentry _ _ Hkv) as (_ & _ & _ & _ & Hv). lia.
      - intros q. simpl. lia. }
    lia.
  - intros now Hnow. unfold onStep. subst h. cbn [onStart fst transporters abortAt isSome negb orb].
    unfold truthyZ, LOAD_TIME_LIMIT in *.
    replace (currentTick + 300 =? 0) with false by (symmetry; apply Z.eqb_neq; lia).
    replace (now >? currentTick + 300) with true by (symmetry; apply Z.gtb_lt; lia).
    reflexivity.
Qed.

End TransportLoading.

(** *** Transport loading on a concrete mission *)

Lemma loadingUnits_rules_by_id : rules_by_id loadingUnits.
Proof.
  intros u v Hu Hv Hid. simpl in Hu, Hv.
  repeat (destruct Hu as [<-|Hu]; [|]); try contradiction;
    repeat (destruct Hv as [<-|Hv]; [|]); try contradiction;
    first [reflexivity | discriminate Hid].
Qed.

(** The greedy loop gives passenger 4 to transport 10 and passenger 3 to
    transport 11; passengers 1 and 2 stay behind. *)
Lemma loading_assignment :
  Scripts.transporteesToTransport (fst (Scripts.onStart 100 loadingUnits Scripts.newHandler))
  = [(4, 10); (3, 11)]%Z.
Proof. reflexivity. Qed.

(** Transport 10 carries at most its 5 slots, and at tick 401 the step
    that started at tick 100 moves on, with passengers 1 and 2 unassigned. *)
Lemma transport_loading_within_capacity_witness :
  (load loadingUnits
     (Scripts.transporteesToTransport (fst (Scripts.onStart 100 loadingUnits Scripts.newHandler)))
     10 <= 5)%Z
  /\ fst (Scripts.onStep 401 (fst (Scripts.onStart 100 loadingUnits Scripts.newHandler)))
     = Scripts.step.
Proof.
  destruct (transport_loading_within_capacity (currentTick := 100)
              loadingUnits_rules_by_id ltac:(lia)) as (_ & _ & Hload & Hstep).
  split.
  - apply (Hload (transportUnit 10 5)); [simpl; auto | simpl; lia].
  - apply Hstep. unfold Scripts.LOAD_TIME_LIMIT. lia.
Defined.

(** ** The combat squad behaviour *)

Section CombatBehaviour.
Import JS Combat.
Local Open Scope R_scope.

Lemma spreadBeyond_some e (margin : R) center :
  0 <= margin ->
  spreadBeyond e (sqrt (INR (length (getUnitsMatching e isGroundCombatant)))
                  * GATHER_RATIO + margin) = Some center
  <-> spreadExceeds e margin center.
Proof.
  intros Hm. unfold spreadBeyond, spreadExceeds.
  set (req := sqrt _ * GATHER_RATIO + margin).
  assert (Hreq : 0 <= req).
  { subst req. unfold GATHER_RATIO.
    pose proof (sqrt_pos (INR (length (getUnitsMatching e isGroundCombatant)))). nra. }
  destruct (getCenterOfMass e) as [c|]; [|split; [discriminate | intros [H _]; discriminate]].
  destruct (getMaxDistanceToCenterOfMass e) as [d|];
    [|split; [discriminate | intros (_ & d & H & _); discriminate]].
  split.
  - intros H.
    destruct (truthy d) eqn:Et; destruct (getTile e (x c) (y c)) as [t|] eqn:Etile;
      destruct (gt d req) eqn:Eg; cbn in H; try discriminate.
    injection H as ->. split; [reflexivity|]. exists d.
    repeat split; [rewrite Etile; discriminate | now apply gt_true].
  - intros (Hc & d' & Hd & Htile & Hgt). injection Hc as ->. injection Hd as <-.
    assert (Et : truthy d = true) by (apply truthy_true; lra).
    assert (Eg : gt d req = true) by (now apply gt_true).
    rewrite Et, Eg. destruct (getTile e (x center) (y center)); [reflexivity | congruence].
Qed.

Lemma spreadBeyond_none e (margin : R) :
  0 <= margin ->
  spreadBeyond e (sqrt (INR (length (getUnitsMatching e isGroundCombatant)))
                  * GATHER_RATIO + margin) = None
  <-> forall center, ~ spreadExceeds e margin center.
Proof.
  intros Hm. split.
  - intros Hn center Hx. apply (spreadBeyond_some e center Hm) in Hx. congruence.
  - intros Hall. destruct (spreadBeyond e _) as [c|] eqn:E; [|reflexivity].
    apply (spreadBeyond_some e c Hm) in E. now apply Hall in E.
Qed.

Lemma attackAll_state e target units : forall c,
  state (fst (fst (attackAll e target units c))) = state c
  /\ lastGrab (fst (fst (attackAll e target units c))) = lastGrab c
  /\ rallyArea (fst (fst (attackAll e target units c))) = rallyArea c.
Proof.
  induction units as [|u units IH]; intros c; cbn; [auto|].
  destruct (attackWith e target u) as [[a d]|]; cbn; [|auto].
  specialize (IH (set_debugLastTarget c (Some d))).
  destruct (attackAll e target units _) as [[c' acts] ex]. cbn in *. exact IH.
Qed.

(** C2 (amended).  At an evaluation under the command throttle.  In
    Gathering: when cohesion is defined, the center is a tile of the map and
    the spread exceeds sqrt(n) x GATHER_RATIO + MIN_GATHER_RADIUS, the state
    stays Gathering and every combatant member is ordered to move to the
    center; in every other case (the spread within the threshold, cohesion
    undefined, or the center off the map) the state becomes Attacking and
    nothing is ordered.  In Attacking: when cohesion is defined, the center
    is a tile of the map and the spread exceeds
    sqrt(n) x GATHER_RATIO + MAX_GATHER_RADIUS, the state reverts to
    Gathering, nothing is ordered and the update answers no-op; in every
    other case the state stays Attacking. *)
Theorem gather_attack_transitions (e : Env) (c : CombatSquad) :
  commandDue e c = true ->
  let up := onAiUpdate e c in
  let units := getUnitsMatching e (fun r => isSelectableCombatant (rules r)) in
  (state c = Gathering ->
   (forall center, spreadExceeds e MIN_GATHER_RADIUS center ->
      state (squad up) = Gathering
      /\ pushed up = map (fun unit => manageMoveMicro unit center) units)
   /\ ((forall center, ~ spreadExceeds e MIN_GATHER_RADIUS center) ->
       state (squad up) = Attacking /\ pushed up = []))
  /\ (state c = Attacking ->
      (forall center, spreadExceeds e MAX_GATHER_RADIUS center ->
         state (squad up) = Gathering /\ pushed up = [] /\ action up = Some noop)
      /\ ((forall center, ~ spreadExceeds e MAX_GATHER_RADIUS center) ->
          state (squad up) = Attacking)).
Proof.
  intros Hdue up units. subst up. unfold onAiUpdate. rewrite Hdue.
  unfold evaluate. cbn [state set_lastCommand].
  split; intros Hst; rewrite Hst; split.
  - intros center Hx.
    apply (spreadBeyond_some e center) in Hx; [|unfold MIN_GATHER_RADIUS; lra].
    rewrite Hx. unfold grabStep. destruct (grabDue e _); cbn; rewrite Hst; auto.
  - intros Hall.
    apply (spreadBeyond_none e) in Hall; [|unfold MIN_GATHER_RADIUS; lra].
    rewrite Hall. unfold grabStep. destruct (grabDue e _); cbn; auto.
  - intros center Hx.
    apply (spreadBeyond_some e center) in Hx; [|unfold MAX_GATHER_RADIUS; lra].
    rewrite Hx. cbn. auto.
  - intros Hall.
    apply (spreadBeyond_none e) in Hall; [|unfold MAX_GATHER_RADIUS; lra].
    rewrite Hall.
    match goal with |- context [attackAll ?a ?b ?u ?d] =>
      pose proof (attackAll_state a b u d) as (Hs & _ & _);
      destruct (attackAll a b u d) as [[c' acts] ex] end.
    cbn in Hs. unfold grabStep.
    destruct ex; cbn; try (destruct (grabDue e c')); cbn; congruence.
Qed.

(** When the command block runs on to the end of the method, a request
    that is due is made: around the center, or around the rally area when
    there is no center. *)
Lemma grab_when_block_runs_on (e : Env) (c : CombatSquad) :
  grabDue e c = true ->
  (commandDue e c = false \/ snd (evaluate e c) = RunsOn) ->
  action (onAiUpdate e c)
  = Some (grabCombatants (nullish (getCenterOfMass e) (rallyArea c)) GRAB_RADIUS)
  /\ lastGrab (squad (onAiUpdate e c)) = Some (getCurrentTick e).
Proof.
  intros Hgrab Hcase. unfold onAiUpdate.
  destruct (commandDue e c) eqn:Hdue.
  - destruct Hcase as [Hc|Hrun]; [discriminate|].
    assert (Hkeep : lastGrab (fst (fst (fst (evaluate e c)))) = lastGrab c
                    /\ rallyArea (fst (fst (fst (evaluate e c)))) = rallyArea c).
    { unfold evaluate. cbn [state set_lastCommand].
      destruct (state c); destruct (spreadBeyond e _); cbn; auto.
      match goal with |- context [attackAll ?a ?b ?u ?d] =>
        pose proof (attackAll_state a b u d) as (_ & Hl & Hr);
        destruct (attackAll a b u d) as [[c' acts] ex] end.
      cbn in *. auto. }
    destruct (evaluate e c) as [[[c1 acts] logs] ex]. cbn in Hrun, Hkeep. subst ex.
    destruct Hkeep as [Hl Hr].
    unfold grabStep, grabDue in *. rewrite Hl, Hgrab. cbn. rewrite Hr. auto.
  - unfold grabStep. rewrite Hgrab. cbn. auto.
Qed.

Lemma attackAll_runs_on e target units : forall c,
  Forall (fun unit => tile unit <> None) units ->
  snd (attackAll e target units c) = RunsOn.
Proof.
  induction units as [|u units IH]; intros c Hall; cbn; [reflexivity|].
  inversion Hall as [|? ? Hu Hus]; subst.
  unfold attackWith. destruct (tile u) as [t|]; [|congruence].
  destruct (maxByAttackWeight e u _) as [b|];
    match goal with |- context [attackAll e target units ?d] =>
      specialize (IH d Hus); destruct (attackAll e target units d) as [[c' acts] ex] end;
    cbn in *; exact IH.
Qed.

(** C9 (amended).  At an update where a reinforcement request is due (no
    request was made yet, or the last one is more than GRAB_INTERVAL ticks
    old): (1) when the update runs to the end of the method, that is, the
    command block is throttled, or the squad is Gathering, or it is
    Attacking, its spread does not call for a revert and every combatant
    has a tile, the request is made, around the center or, without a
    center, around the rally area, with the grab radius, and the tick of
    the last request becomes the current one; (2) when the evaluation
    reverts the squad from Attacking to Gathering, the update answers no-op
    for this cycle: no request is made, the tick of the last request stays
    as it was, and the request is still due at every later update. *)
Theorem reinforcement_unless_reverting (e : Env) (c : CombatSquad) :
  (lastGrab c = None
   \/ exists t, lastGrab c = Some t /\ (getCurrentTick e > t + GRAB_INTERVAL_TICKS)%Z) ->
  let up := onAiUpdate e c in
  ((commandDue e c = false
    \/ state c = Gathering
    \/ (state c = Attacking
        /\ (forall center, ~ spreadExceeds e MAX_GATHER_RADIUS center)
        /\ Forall (fun unit => tile unit <> None)
                  (getUnitsMatching e (fun r => isSelectableCombatant (rules r))))) ->
   action up
   = Some (grabCombatants (match getCenterOfMass e with
                           | Some center => center
                           | None => rallyArea c
                           end) GRAB_RADIUS)
   /\ lastGrab (squad up) = Some (getCurrentTick e))
  /\ (commandDue e c = true ->
      state c = Attacking ->
      forall center, spreadExceeds e MAX_GATHER_RADIUS center ->
      action up = Some noop
      /\ state (squad up) = Gathering
      /\ lastGrab (squad up) = lastGrab c
      /\ forall e', (getCurrentTick e <= getCurrentTick e')%Z ->
                    grabDue e' (squad up) = true).
Proof.
  intros Hlast up.
  assert (Hlater : forall e', (getCurrentTick e <= getCurrentTick e')%Z ->
                              grabDue e' c = true).
  { intros e' Hle. unfold grabDue.
    destruct Hlast as [->|(t & -> & Ht)]; [reflexivity|].
    apply orb_true_iff. right. rewrite Z.gtb_ltb. apply Z.ltb_lt. lia. }
  assert (Hgrab : grabDue e c = true) by (apply Hlater; lia).
  split.
  - intros Hcase. subst up.
    change (match getCenterOfMass e with Some center => center | None => rallyArea c end)
      with (nullish (getCenterOfMass e) (rallyArea c)).
    apply grab_when_block_runs_on; [exact Hgrab|].
    destruct (commandDue e c) eqn:Hdue; [right | left; reflexivity].
    unfold evaluate. cbn [state set_lastCommand].
    destruct Hcase as [H|[H|(Hst & Hno & Hall)]]; [discriminate| |].
    + rewrite H. destruct (spreadBeyond e _); reflexivity.
    + rewrite Hst.
      apply (spreadBeyond_none e) in Hno; [|unfold MAX_GATHER_RADIUS; lra].
      rewrite Hno.
      match goal with |- context [attackAll ?a ?b ?u ?d] =>
        pose proof (@attackAll_runs_on a b u d Hall) as Hex;
        destruct (attackAll a b u d) as [[c' acts] ex] end.
      cbn in *. exact Hex.
  - intros Hdue Hst center Hx. subst up. unfold onAiUpdate. rewrite Hdue.
    unfold evaluate. cbn [state set_lastCommand]. rewrite Hst.
    apply (spreadBeyond_some e center) in Hx; [|unfold MAX_GATHER_RADIUS; lra].
    rewrite Hx. cbn. repeat split. exact Hlater.
Qed.

End CombatBehaviour.

(** *** The combat behaviour on concrete updates *)

(** The gathered squad of three turns to Attacking and orders nothing. *)
Lemma gather_attack_transitions_witness :
  Combat.state (Combat.squad (Combat.onAiUpdate gatheredEnv freshSquad)) = Combat.Attacking
  /\ Combat.pushed (Combat.onAiUpdate gatheredEnv freshSquad) = [].
Proof.
  apply (proj2 (proj1 (gather_attack_transitions gatheredEnv freshSquad eq_refl) eq_refl)).
  intros center (Hc & d & Hd & _ & Hgt).
  injection Hd as <-.
  pose proof (sqrt_pos (INR (length (Combat.getUnitsMatching gatheredEnv
                                        Combat.isGroundCombatant)))) as Hs.
  unfold Combat.GATHER_RATIO, Combat.MIN_GATHER_RADIUS in Hgt. nra.
Defined.

(** C2, counterexample.  A gathering squad whose cohesion is undefined:
    the evaluation switches it to Attacking all the same. *)
Lemma attacks_without_cohesion :
  Combat.getCenterOfMass noCohesionEnv = None
  /\ Combat.getMaxDistanceToCenterOfMass noCohesionEnv = None
  /\ Combat.commandDue noCohesionEnv freshSquad = true
  /\ Combat.state freshSquad = Combat.Gathering
  /\ Combat.state (Combat.squad (Combat.onAiUpdate noCohesionEnv freshSquad)) = Combat.Attacking.
Proof. repeat split. Qed.

(** The cohesion of the scattered mission is the one that the squad
    computes from the tiles of its two members. *)
Lemma scattered_cohesion_is_computed :
  SquadM.centerOfMass (fst (SquadM.onAiUpdate idleBehaviour scatteredGame scatteredSquad))
  = Combat.getCenterOfMass scatteredEnv
  /\ SquadM.maxDistanceToCenterOfMass
       (fst (SquadM.onAiUpdate idleBehaviour scatteredGame scatteredSquad))
     = Combat.getMaxDistanceToCenterOfMass scatteredEnv
  /\ SquadM.unitIds (fst (SquadM.onAiUpdate idleBehaviour scatteredGame scatteredSquad))
     = Combat.missionUnitIds scatteredEnv.
Proof.
  assert (H : SquadM.calculateCenterOfMass [ {| rx := 0; ry := 0 |}; {| rx := 100; ry := 0 |} ]
              = Some {| SquadM.tm_centerOfMass := {| x := 50; y := 0 |};
                        SquadM.tm_maxDistance := Some 50%R |}).
  { unfold SquadM.calculateCenterOfMass. cbn [length Nat.eqb fold_left fst snd rx ry map].
    rewrite !or0_id.
    assert (Hx : JS.Math_round ((0 + 0 + 100) / INR 2) = 50%R).
    { apply (@Math_round_eq _ 50%Z). cbn [INR]. lra. }
    assert (Hy : JS.Math_round ((0 + 0 + 0) / INR 2) = 0%R).
    { apply (@Math_round_eq _ 0%Z). cbn [INR]. lra. }
    rewrite Hx, Hy. rewrite !distance_on_axis.
    replace (Rabs (0 - 50)) with 50%R by (rewrite Rabs_left; lra).
    replace (Rabs (100 - 50)) with 50%R by (rewrite Rabs_right; lra).
    unfold JS.lodash_max. cbn [fold_left].
    replace (JS.gt 50 50) with false by (symmetry; apply gt_false; lra).
    reflexivity. }
  destruct (onAiUpdate_cohesion idleBehaviour scatteredGame scatteredSquad) as [Hc Hd].
  rewrite Hc, Hd.
  change (SquadM.movableUnitTiles scatteredGame (SquadM.updateLiveness scatteredGame scatteredSquad))
    with [ {| rx := 0; ry := 0 |}; {| rx := 100; ry := 0 |} ].
  rewrite H. repeat split.
Qed.

Lemma scattered_exceeds :
  spreadExceeds scatteredEnv Combat.MAX_GATHER_RADIUS {| x := 50; y := 0 |}.
Proof.
  split; [reflexivity|]. exists 50%R. split; [reflexivity|]. split; [discriminate|].
  change (length (Combat.getUnitsMatching scatteredEnv Combat.isGroundCombatant)) with 2%nat.
  change (INR 2) with (1 + 1)%R.
  assert (Hs : (sqrt (1 + 1) <= 2)%R).
  { pose proof (sqrt_le_1_alt (1 + 1) (2 * 2) ltac:(lra)) as H.
    rewrite sqrt_square in H; lra. }
  unfold Combat.GATHER_RATIO, Combat.MAX_GATHER_RADIUS. lra.
Qed.

(** A first update at tick 30 finds the fresh squad gathered, turns it to
    Attacking and makes the first reinforcement request. *)
Lemma attackingSquad_reached :
  Combat.squad (Combat.onAiUpdate gatheredEnv freshSquad) = attackingSquad
  /\ Combat.action (Combat.onAiUpdate gatheredEnv freshSquad)
     = Some (Combat.grabCombatants {| x := 2; y := 0 |} Combat.GRAB_RADIUS).
Proof.
  unfold Combat.onAiUpdate.
  replace (Combat.commandDue gatheredEnv freshSquad) with true by reflexivity.
  unfold Combat.evaluate.
  cbn [Combat.state Combat.set_lastCommand freshSquad Combat.newCombatSquad].
  rewrite (proj2 (spreadBeyond_none gatheredEnv (margin := Combat.MIN_GATHER_RADIUS)
                    ltac:(unfold Combat.MIN_GATHER_RADIUS; lra))).
  - split; reflexivity.
  - intros center (Hc & d & Hd & _ & Hgt). injection Hd as <-.
    pose proof (sqrt_pos (INR (length (Combat.getUnitsMatching gatheredEnv
                                          Combat.isGroundCombatant)))) as Hs.
    unfold Combat.GATHER_RATIO, Combat.MIN_GATHER_RADIUS in Hgt. nra.
Qed.

(** Twenty ticks later the two members left are scattered beyond the
    larger threshold and both throttles are open: the update reverts the
    squad to Gathering and answers no-op. *)
Lemma scattered_update :
  Combat.onAiUpdate scatteredEnv attackingSquad
  = {| Combat.squad := Combat.set_state (Combat.set_lastCommand attackingSquad (Some 50%Z))
                         Combat.Gathering;
       Combat.pushed := [];
       Combat.lines := [Combat.LogSwitchToGather (Some 50%R)];
       Combat.action := Some Combat.noop |}.
Proof.
  unfold Combat.onAiUpdate.
  replace (Combat.commandDue scatteredEnv attackingSquad) with true by reflexivity.
  unfold Combat.evaluate. cbn [Combat.state Combat.set_lastCommand attackingSquad].
  rewrite (proj2 (spreadBeyond_some scatteredEnv {| x := 50; y := 0 |}
                    (margin := Combat.MAX_GATHER_RADIUS)
                    ltac:(unfold Combat.MAX_GATHER_RADIUS; lra)) scattered_exceeds).
  reflexivity.
Qed.

(** The next update of that squad, one tick after the revert: the command
    block is throttled, the method runs to its end and the request is made
    around the center. *)
Lemma reinforcement_unless_reverting_witness :
  Combat.action
    (Combat.onAiUpdate nextTickEnv (Combat.squad (Combat.onAiUpdate scatteredEnv attackingSquad)))
  = Some (Combat.grabCombatants {| x := 50; y := 0 |} Combat.GRAB_RADIUS)
  /\ Combat.lastGrab (Combat.squad
       (Combat.onAiUpdate nextTickEnv
          (Combat.squad (Combat.onAiUpdate scatteredEnv attackingSquad))))
     = Some 51%Z.
Proof.
  rewrite scattered_update. cbn [Combat.squad].
  apply (proj1 (@reinforcement_unless_reverting nextTickEnv
                  (Combat.set_state (Combat.set_lastCommand attackingSquad (Some 50%Z))
                     Combat.Gathering)
                  (or_intror (ex_intro _ 30%Z (conj eq_refl eq_refl))))).
  left. reflexivity.
Defined.

(** C9, counterexample.  The squad that made its last request at tick 30,
    at tick 50, with two members a hundred tiles apart (the center and the
    spread are those that the squad computes from their tiles): the request
    is due, yet the update reverts to Gathering, answers no-op instead of
    the request, and leaves the tick of the last request at 30. *)
Lemma reinforcement_waits_on_revert :
  SquadM.centerOfMass (fst (SquadM.onAiUpdate idleBehaviour scatteredGame scatteredSquad))
  = Combat.getCenterOfMass scatteredEnv
  /\ SquadM.maxDistanceToCenterOfMass
       (fst (SquadM.onAiUpdate idleBehaviour scatteredGame scatteredSquad))
     = Combat.getMaxDistanceToCenterOfMass scatteredEnv
  /\ Combat.lastGrab attackingSquad = Some 30%Z
  /\ (Combat.getCurrentTick scatteredEnv > 30 + Combat.GRAB_INTERVAL_TICKS)%Z
  /\ Combat.state (Combat.squad (Combat.onAiUpdate scatteredEnv attackingSquad))
     = Combat.Gathering
  /\ Combat.action (Combat.onAiUpdate scatteredEnv attackingSquad) = Some Combat.noop
  /\ Combat.action (Combat.onAiUpdate scatteredEnv attackingSquad)
     <> Some (Combat.grabCombatants {| x := 50; y := 0 |} Combat.GRAB_RADIUS)
  /\ Combat.lastGrab (Combat.squad (Combat.onAiUpdate scatteredEnv attackingSquad))
     = Some 30%Z.
Proof.
  destruct scattered_cohesion_is_computed as (Hc & Hd & _).
  rewrite scattered_update.
  split; [exact Hc|]. split; [exact Hd|].
  cbn. repeat split. discriminate.
Qed.

(** ** Squad: membership, pruning and disbanding *)
Section SquadMembers.
Import JS MapUtil SquadM SquadQueries.
Variable behaviour : GameApi -> Squad -> SquadAction.
Variable unitName : UnitData -> string.

Lemma onAiUpdate_unitIds g s :
  unitIds (fst (onAiUpdate behaviour g s))
  = filter (fun unitId => isSome (getUnitData g unitId)) (unitIds s)
  /\ lastLivenessUpdateTick (fst (onAiUpdate behaviour g s)) = getCurrentTick g.
Proof.
  assert (Ht : lastLivenessUpdateTick (updateLiveness g s) = getCurrentTick g).
  { unfold updateLiveness, set_tick, set_unitIds, set_liveness; cbn.
    destruct (killable s && _); [destruct (liveness s)|]; reflexivity. }
  rewrite <- updateLiveness_unitIds, <- Ht. unfold onAiUpdate.
  destruct (calculateCenterOfMass _); cbn;
    destruct (mission (updateLiveness g s)) as [m|]; cbn;
    try destruct (isActive m); cbn; auto.
Qed.

Lemma somes_map_Some {A} (l : list (option A)) :
  Forall (fun o => isSome o = true) l -> map Some (somes l) = l.
Proof.
  induction 1 as [|[a|] l Ha Hl IH]; cbn; [reflexivity| |discriminate].
  now rewrite IH.
Qed.

(** X1.  [removeUnit] takes out every occurrence of the id and nothing
    else; [addUnit] appends without looking for a duplicate, so an id added
    twice is a member twice; and removing an id that was just added to a
    squad that did not have it gives the member list back. *)
Theorem member_add_remove (s : Squad) (u : Z) :
  ~ In u (unitIds (removeUnit s u))
  /\ (forall v, v <> u -> count_occ Z.eq_dec (unitIds (removeUnit s u)) v
                          = count_occ Z.eq_dec (unitIds s) v)
  /\ count_occ Z.eq_dec (unitIds (addUnit (addUnit s u) u)) u
     = S (S (count_occ Z.eq_dec (unitIds s) u))
  /\ (~ In u (unitIds s) -> unitIds (removeUnit (addUnit s u) u) = unitIds s).
Proof.
  assert (Hrm : forall l, filter (fun unitId => negb (unitId =? u)%Z) l = l <-> ~ In u l).
  { induction l as [|a l IH]; cbn; [tauto|].
    destruct (a =? u)%Z eqn:E; cbn.
    - apply Z.eqb_eq in E. split; [|tauto]. intros H.
      pose proof (filter_length_le (fun unitId => negb (unitId =? u)%Z) l) as Hl.
      rewrite H in Hl. cbn in Hl. lia.
    - apply Z.eqb_neq in E. split.
      + intros [= H]. apply IH in H. intros [?|?]; [congruence | tauto].
      + intros H. f_equal. apply IH. tauto. }
  unfold removeUnit, addUnit, set_unitIds; cbn. repeat split.
  - intros H. apply filter_In in H. destruct H as [_ H].
    rewrite Z.eqb_refl in H. discriminate.
  - intros v Hv. induction (unitIds s) as [|a l IH]; cbn; [reflexivity|].
    destruct (a =? u)%Z eqn:E; cbn.
    + apply Z.eqb_eq in E. subst a. destruct (Z.eq_dec u v); [congruence | exact IH].
    + destruct (Z.eq_dec a v); now rewrite IH.
  - rewrite !count_occ_app. cbn. destruct (Z.eq_dec u u); [lia | congruence].
  - intros Hnot. rewrite filter_app. cbn. rewrite Z.eqb_refl. cbn.
    rewrite app_nil_r. now apply Hrm.
Qed.

(** X2.  An update keeps exactly the member ids that the game still
    resolves, in their order, and stamps the tick; after it, [getUnits]
    answers one unit per member, in member order. *)
Theorem update_prunes_stale_members (g : GameApi) (s : Squad) :
  let s' := fst (onAiUpdate behaviour g s) in
  unitIds s' = filter (fun unitId => isSome (getUnitData g unitId)) (unitIds s)
  /\ lastLivenessUpdateTick s' = getCurrentTick g
  /\ map Some (getUnits g s') = map (getUnitData g) (unitIds s').
Proof.
  intros s'. destruct (onAiUpdate_unitIds g s) as [Hids Ht].
  split; [exact Hids|]. split; [exact Ht|].
  unfold getUnits. fold s' in Hids. rewrite Hids.
  set (l := filter _ (unitIds s)).
  assert (Hall : Forall (fun o => isSome o = true) (map (getUnitData g) l)).
  { apply Forall_forall. intros o Ho. apply in_map_iff in Ho.
    destruct Ho as (i & <- & Hi). subst l. apply filter_In in Hi. tauto. }
  rewrite forallb_filter_id.
  - now apply somes_map_Some.
  - apply forallb_forall. intros o Ho. rewrite Forall_forall in Hall. auto.
Qed.

(** X3.  An update answers [disband] for a squad without a mission and for
    a squad whose mission is no longer active, and it lets go of the
    inactive mission; only with an active mission is the behaviour asked,
    on the squad as pruned and with this tick's cohesion, and its answer
    passed on. *)
Theorem update_disbands_without_active_mission (g : GameApi) (s : Squad) :
  let s' := fst (onAiUpdate behaviour g s) in
  let answer := snd (onAiUpdate behaviour g s) in
  match mission s with
  | None => answer = disband /\ mission s' = None
  | Some m =>
      if isActive m
      then answer = behaviour g s' /\ mission s' = Some m
      else answer = disband /\ mission s' = None
  end.
Proof.
  intros s' answer. subst s' answer.
  assert (Hm : mission (updateLiveness g s) = mission s).
  { unfold updateLiveness, set_tick, set_unitIds, set_liveness; cbn.
    destruct (killable s && _); [destruct (liveness s)|]; reflexivity. }
  unfold onAiUpdate.
  destruct (calculateCenterOfMass _); cbn; rewrite Hm;
    destruct (mission s) as [m|]; cbn; try destruct (isActive m); cbn; auto.
Qed.

Lemma in_matching g s (f : UnitData -> bool) u :
  In u (getUnitsMatching g s f)
  <-> exists i, In i (unitIds s) /\ getUnitData g i = Some u /\ f u = true.
Proof.
  unfold getUnitsMatching. rewrite in_somes, filter_In, in_map_iff. split.
  - intros [(i & Hi & Hin) Hf]. exists i. auto.
  - intros (i & Hin & Hi & Hf). split; [exists i; auto | exact Hf].
Qed.

(** X4.  The three member queries agree: [getUnits] is [getUnitsMatching]
    with the filter that accepts all, [getUnitsOfTypes] is
    [getUnitsMatching] with the filter on the unit name; a unit comes back
    from [getUnitsMatching] exactly when a member id resolves to it and the
    filter accepts it (an id that no longer resolves is passed over); and
    no query answers more units than there are member ids. *)
Theorem member_queries_agree (g : GameApi) (s : Squad) (names : list string)
        (f : UnitData -> bool) :
  getUnits g s = getUnitsMatching g s (fun _ => true)
  /\ getUnitsOfTypes unitName g s names
     = getUnitsMatching g s (fun u => existsb (String.eqb (unitName u)) names)
  /\ (forall u, In u (getUnitsMatching g s f)
                <-> exists i, In i (unitIds s) /\ getUnitData g i = Some u /\ f u = true)
  /\ (length (getUnitsMatching g s f) <= length (unitIds s))%nat.
Proof.
  split; [|split; [|split]].
  - unfold getUnits, getUnitsMatching. apply (f_equal somes). apply filter_ext.
    intros [u|]; reflexivity.
  - reflexivity.
  - intros u. apply in_matching.
  - unfold getUnitsMatching.
    assert (Hs : forall l : list (option UnitData), (length (somes l) <= length l)%nat).
    { induction l as [|[a|] l IH]; cbn; lia. }
    etransitivity; [apply Hs|]. etransitivity; [apply filter_length_le|].
    now rewrite length_map.
Qed.

End SquadMembers.

(** ** Squad: the spread *)
Section SquadSpread.
Import JS MapUtil SquadM.
Local Open Scope R_scope.

Lemma distance_nonneg (a b : Point2D) : 0 <= getDistanceBetweenPoints a b.
Proof. apply sqrt_pos. Qed.

Lemma distance_zero (a b : Point2D) :
  getDistanceBetweenPoints a b = 0 <-> x a = x b /\ y a = y b.
Proof.
  unfold getDistanceBetweenPoints. split.
  - intros H.
    pose proof (Rle_0_sqr (x a - x b)) as Hx. pose proof (Rle_0_sqr (y a - y b)) as Hy.
    unfold Rsqr in Hx, Hy.
    apply sqrt_eq_0 in H; [|lra].
    assert (Ex : (x a - x b) * (x a - x b) = 0) by lra.
    assert (Ey : (y a - y b) * (y a - y b) = 0) by lra.
    apply Rsqr_0_uniq in Ex. apply Rsqr_0_uniq in Ey. lra.
  - intros [-> ->]. replace ((x b - x b) * (x b - x b) + (y b - y b) * (y b - y b)) with 0 by ring.
    apply sqrt_0.
Qed.

(** X5.  When [calculateCenterOfMass] answers, the spread is a number that
    is not negative, and it is zero exactly when every tile sits on the
    rounded center. *)
Theorem spread_zero_iff_on_center (tiles : list Tile) (tm : TileMetrics) :
  calculateCenterOfMass tiles = Some tm ->
  exists d, tm_maxDistance tm = Some d
            /\ 0 <= d
            /\ (d = 0 <-> forall t, In t tiles ->
                                    rx t = x (tm_centerOfMass tm)
                                    /\ ry t = y (tm_centerOfMass tm)).
Proof.
  intros Hcalc.
  destruct (calculateCenterOfMass_spec tiles) as [Hnone Hsome].
  destruct tiles as [|t0 tiles']; [rewrite Hnone in Hcalc by reflexivity; discriminate|].
  destruct Hsome as (c & d & Hc & _ & _ & Hin & Hub); [discriminate|].
  rewrite Hc in Hcalc. injection Hcalc as <-. cbn.
  exists d. split; [reflexivity|]. split.
  - apply in_map_iff in Hin. destruct Hin as (t & <- & _). apply distance_nonneg.
  - split.
    + intros Hd t Ht.
      assert (Hle : getDistanceBetweenPoints {| x := rx t; y := ry t |} c <= d).
      { apply Hub. apply in_map_iff. exists t. auto. }
      pose proof (distance_nonneg {| x := rx t; y := ry t |} c) as Hge.
      assert (Hz : getDistanceBetweenPoints {| x := rx t; y := ry t |} c = 0) by lra.
      apply distance_zero in Hz. exact Hz.
    + intros Hall. apply in_map_iff in Hin. destruct Hin as (t & <- & Ht).
      apply distance_zero. cbn. apply (Hall t Ht).
Qed.

End SquadSpread.

(** The three units in line are 2 apart from their center at most. *)
Lemma spread_zero_iff_on_center_witness :
  exists d, Some 2%R = Some d /\ (0 <= d)%R
            /\ (d = 0%R <-> forall t, In t [ {| rx := 0; ry := 0 |}; {| rx := 2; ry := 0 |};
                                               {| rx := 4; ry := 0 |} ] ->
                                      rx t = 2%R /\ ry t = 0%R).
Proof.
  apply (@spread_zero_iff_on_center _ _ cohesion_three_in_line).
Defined.

(** ** Awareness: between and beyond the evaluations *)
Section AwarenessCadence.
Import JS MapUtil Awareness.
Local Open Scope R_scope.
Variable retrieve : Quadtree -> Circle -> list QTUnit.
Variable calculateGlobalThreat : GameApi -> PlayerData -> R -> GlobalThreat.
Variable getPointTowardsOtherPoint : GameApi -> Point2D -> Point2D -> Point2D.

(** The threat block always returns, and touches neither the index nor the
    rally point. *)
Lemma threatStep_returns game pd sc s :
  exists s3, threatStep calculateGlobalThreat game pd sc s = Returned tt s3
             /\ hostileQuadTree s3 = hostileQuadTree s
             /\ mainRallyPoint s3 = mainRallyPoint s.
Proof.
  unfold threatStep, when.
  destruct (Z.rem _ _ =? 0)%Z; [|eexists; repeat split].
  destruct (getOverallVisibility sc) as [v|]; [|eexists; repeat split].
  destruct (truthy v); [|eexists; repeat split].
  unfold bind, logger, modify, gets, when, ret; cbn.
  destruct (_shouldAttack s); cbn;
    destruct (checkShouldAttack _ _); cbn; eexists; repeat split.
Qed.

(** Off the threat cadence, or without visibility, the threat block is the
    identity. *)
Lemma threatStep_skips game pd sc s :
  (Z.rem (getCurrentTick game) THREAT_UPDATE_INTERVAL_TICKS <> 0%Z
   \/ getOverallVisibility sc = None \/ getOverallVisibility sc = Some 0) ->
  threatStep calculateGlobalThreat game pd sc s = Returned tt s.
Proof.
  intros H. unfold threatStep, when.
  destruct (Z.rem _ _ =? 0)%Z eqn:E; [|reflexivity].
  apply Z.eqb_eq in E. destruct H as [H|[H|H]]; [congruence | |]; rewrite H; [reflexivity|].
  replace (truthy 0) with false; [reflexivity|].
  unfold truthy. destruct (Req_dec_T 0 0); [reflexivity | lra].
Qed.

(** X6.  Off the threat cadence (the tick is no multiple of 30), and
    whenever the sector cache reports no visibility or a visibility of
    zero, the update leaves the attack flag and the threat snapshot as
    they were, whatever the game shows. *)
Theorem flag_unchanged_between_evaluations (game : GameApi) (pd : PlayerData)
        (sc : SectorCache) (s : State) :
  (Z.rem (getCurrentTick game) THREAT_UPDATE_INTERVAL_TICKS <> 0%Z
   \/ getOverallVisibility sc = None \/ getOverallVisibility sc = Some 0) ->
  let s' := outcome_state
              (onAiUpdate calculateGlobalThreat getPointTowardsOtherPoint game pd sc s) in
  _shouldAttack s' = _shouldAttack s /\ threatCache s' = threatCache s.
Proof.
  intros Hskip s'. subst s'. unfold onAiUpdate, bind.
  destruct (sectorStep_returns game sc s) as (s1 & -> & (A1 & _ & B1 & _)).
  destruct (rebuildStep_returns game pd s1) as (s2 & -> & A2 & B2 & _).
  rewrite (threatStep_skips game pd sc s2 Hskip).
  destruct (rallyStep_keeps getPointTowardsOtherPoint game pd s2) as (A4 & _ & B4).
  split; congruence.
Qed.

Lemma gt_nan_antitone (a : option R) (b b' : R) :
  b' <= b -> gt_nan a b = true -> gt_nan a b' = true.
Proof.
  destruct a as [a|]; cbn; [|discriminate].
  intros Hb H. apply gt_true in H. apply gt_true. lra.
Qed.

(** A smaller factor can only help the verdict, as long as the enemy's
    offensive threats are not negative. *)
Lemma checkShouldAttack_antitone (tc : GlobalThreat) (f f' : R) :
  0 <= totalOffensiveLandThreat tc ->
  0 <= totalOffensiveAntiAirThreat tc ->
  f' <= f ->
  checkShouldAttack tc f = true -> checkShouldAttack tc f' = true.
Proof.
  intros Hl Ha Hf. unfold checkShouldAttack. rewrite !orb_true_iff.
  intros [H|H]; [left | right];
    (eapply gt_nan_antitone; [|exact H]); nra.
Qed.

Lemma gameLengthFactor_nonneg game : 0 <= gameLengthFactor game.
Proof. unfold gameLengthFactor, Math_max. apply Rmax_l. Qed.

(** X7.  Hysteresis: on one and the same evaluation (same game, same fresh
    snapshot, enemy offensive threats not negative), if a bot that was
    defending switches to attack, then a bot that was attacking stays in
    attack. *)
Theorem attack_mode_is_stickier (game : GameApi) (pd : PlayerData) (sc : SectorCache)
        (defender attacker : State) (v : R) :
  evaluationDue game sc v ->
  0 <= totalOffensiveLandThreat (calculateGlobalThreat game pd v) ->
  0 <= totalOffensiveAntiAirThreat (calculateGlobalThreat game pd v) ->
  _shouldAttack defender = false ->
  _shouldAttack attacker = true ->
  _shouldAttack (outcome_state
    (onAiUpdate calculateGlobalThreat getPointTowardsOtherPoint game pd sc defender)) = true ->
  _shouldAttack (outcome_state
    (onAiUpdate calculateGlobalThreat getPointTowardsOtherPoint game pd sc attacker)) = true.
Proof.
  intros Hdue Hl Ha Hd Hat.
  rewrite !(onAiUpdate_flag calculateGlobalThreat getPointTowardsOtherPoint pd _ Hdue).
  rewrite Hd, Hat. apply checkShouldAttack_antitone; auto.
  pose proof (gameLengthFactor_nonneg game). nra.
Qed.

(** X8.  The game length factor lies between 0 and 1 from tick 0 on, never
    grows with the tick, and is 0 from tick 108000 (15 x 7200) on. *)
Theorem gameLengthFactor_decays (game later : GameApi) :
  (0 <= getCurrentTick game)%Z ->
  (getCurrentTick game <= getCurrentTick later)%Z ->
  0 <= gameLengthFactor later <= gameLengthFactor game
  /\ gameLengthFactor game <= 1
  /\ ((108000 <= getCurrentTick game)%Z -> gameLengthFactor game = 0).
Proof.
  intros H0 Hle. unfold gameLengthFactor, Math_max.
  apply IZR_le in H0. apply IZR_le in Hle.
  set (t := IZR (getCurrentTick game)) in *. set (t' := IZR (getCurrentTick later)) in *.
  repeat split.
  - apply Rmax_l.
  - apply Rle_max_compat_l. lra.
  - apply Rmax_lub; lra.
  - intros H. apply IZR_le in H. fold t in H. apply Rmax_left. lra.
Qed.

(** X9.  From tick 108000 on, an evaluation no longer looks at the enemy's
    offensive threats nor at the mode the bot was in: the flag it leaves is
    true exactly when own anti-ground power to the 1.025 exceeds 1.1 times
    the enemy's defensive threat, or own air power to the 1.025 does. *)
Theorem past_the_horizon_only_defence_counts (game : GameApi) (pd : PlayerData)
        (sc : SectorCache) (s : State) (v : R) :
  evaluationDue game sc v ->
  (108000 <= getCurrentTick game)%Z ->
  let tc := calculateGlobalThreat game pd v in
  _shouldAttack (outcome_state
    (onAiUpdate calculateGlobalThreat getPointTowardsOtherPoint game pd sc s))
  = gt_nan (Math_pow (totalAvailableAntiGroundFirepower tc) 1.025)
           (totalDefensiveThreat tc * 1.1)
    || gt_nan (Math_pow (totalAvailableAirPower tc) 1.025)
              (totalDefensiveThreat tc * 1.1).
Proof.
  intros Hdue Hlate tc.
  rewrite (onAiUpdate_flag calculateGlobalThreat getPointTowardsOtherPoint pd s Hdue).
  assert (Hg : gameLengthFactor game = 0).
  { unfold gameLengthFactor, Math_max. apply IZR_le in Hlate. apply Rmax_left. lra. }
  rewrite Hg. fold tc. unfold checkShouldAttack.
  replace ((_ * 0 * totalOffensiveLandThreat tc + totalDefensiveThreat tc) * 1.1)
    with (totalDefensiveThreat tc * 1.1) by ring.
  replace ((_ * 0 * totalOffensiveAntiAirThreat tc + totalDefensiveThreat tc) * 1.1)
    with (totalDefensiveThreat tc * 1.1) by ring.
  reflexivity.
Qed.

(** X10.  Off the rally cadence (the tick is no multiple of 60) the update
    runs to its end, whatever the unit lookups do, and leaves the rally
    point as it was. *)
Theorem update_completes_off_rally_cadence (game : GameApi) (pd : PlayerData)
        (sc : SectorCache) (s : State) :
  Z.rem (getCurrentTick game) RALLY_POINT_UPDATE_INTERVAL_TICKS <> 0%Z ->
  exists s',
    onAiUpdate calculateGlobalThreat getPointTowardsOtherPoint game pd sc s = Returned tt s'
    /\ mainRallyPoint s' = mainRallyPoint s.
Proof.
  intros Hoff. unfold onAiUpdate, bind.
  destruct (sectorStep_returns game sc s) as (s1 & -> & (_ & _ & _ & R1)).
  destruct (rebuildStep_returns game pd s1) as (s2 & -> & _ & _ & R2).
  destruct (threatStep_returns game pd sc s2) as (s3 & -> & _ & R3).
  unfold rallyStep, when. apply Z.eqb_neq in Hoff. rewrite Hoff.
  exists s3. split; [reflexivity | congruence].
Qed.

(** X11.  On the rally cadence, with at least one enemy player, the update
    runs to its end and sets the rally point to what
    [getPointTowardsOtherPoint] answers for one's own start location and
    that of the first enemy player: the first player, in the order of
    [getPlayers], who is neither oneself nor an ally (combatant or not). *)
Theorem rally_point_heads_for_first_enemy (game : GameApi) (pd : PlayerData)
        (sc : SectorCache) (s : State) (first : string) (others : list string) :
  Z.rem (getCurrentTick game) RALLY_POINT_UPDATE_INTERVAL_TICKS = 0%Z ->
  enemyPlayersOf game pd = first :: others ->
  exists s',
    onAiUpdate calculateGlobalThreat getPointTowardsOtherPoint game pd sc s = Returned tt s'
    /\ mainRallyPoint s'
       = getPointTowardsOtherPoint game (startLocation pd)
           (startLocation (getPlayerData game first)).
Proof.
  intros Hon Henemy. unfold onAiUpdate, bind.
  destruct (sectorStep_returns game sc s) as (s1 & -> & _).
  destruct (rebuildStep_returns game pd s1) as (s2 & -> & _).
  destruct (threatStep_returns game pd sc s2) as (s3 & -> & _).
  unfold rallyStep, when. apply Z.eqb_eq in Hon. rewrite Hon.
  unfold enemyPlayersOf in Henemy. rewrite Henemy. cbn.
  eexists. split; reflexivity.
Qed.

End AwarenessCadence.

(** *** The cadences on concrete ticks *)

(** At tick 7 nothing is evaluated: own power 100 against a threat of 50
    would win, yet the defending bot stays as it is. *)
Lemma flag_unchanged_between_evaluations_witness :
  Awareness._shouldAttack (Awareness.outcome_state
    (Awareness.onAiUpdate (fun _ _ _ => snapshot 100 50 0 0 0 0) midpoint
       (quietGame 7 15) selfPlayer fullyVisible defending)) = false
  /\ Awareness.threatCache (Awareness.outcome_state
       (Awareness.onAiUpdate (fun _ _ _ => snapshot 100 50 0 0 0 0) midpoint
          (quietGame 7 15) selfPlayer fullyVisible defending)) = None.
Proof.
  apply (@flag_unchanged_between_evaluations (fun _ _ _ => snapshot 100 50 0 0 0 0) midpoint
           (quietGame 7 15) selfPlayer fullyVisible defending).
  left. cbn. discriminate.
Defined.

Lemma defender_switches_at_start :
  Awareness._shouldAttack (Awareness.outcome_state
    (Awareness.onAiUpdate (fun _ _ _ => snapshot 100 50 0 0 0 0) midpoint
       (quietGame 0 15) selfPlayer fullyVisible defending)) = true.
Proof.
  rewrite (onAiUpdate_flag (fun _ _ _ => snapshot 100 50 0 0 0 0) midpoint
             selfPlayer defending (evaluationDue_quiet 0 15 eq_refl)).
  cbn [Awareness._shouldAttack defending]. rewrite gameLengthFactor_at_start.
  apply checkShouldAttack_rule; [cbn; lra | cbn; lra |].
  left. cbn. pose proof power_100_grows. lra.
Qed.

(** The snapshot that makes the defender switch keeps the attacker going. *)
Lemma attack_mode_is_stickier_witness :
  Awareness._shouldAttack (Awareness.outcome_state
    (Awareness.onAiUpdate (fun _ _ _ => snapshot 100 50 0 0 0 0) midpoint
       (quietGame 0 15) selfPlayer fullyVisible attacking)) = true.
Proof.
  apply (@attack_mode_is_stickier (fun _ _ _ => snapshot 100 50 0 0 0 0) midpoint
           (quietGame 0 15) selfPlayer fullyVisible defending attacking 1
           (evaluationDue_quiet 0 15 eq_refl)
           ltac:(cbn; lra) ltac:(cbn; lra) eq_refl eq_refl defender_switches_at_start).
Defined.

(** From the first tick to the horizon. *)
Lemma gameLengthFactor_decays_witness :
  (0 <= Awareness.gameLengthFactor (quietGame 108000 15)
   <= Awareness.gameLengthFactor (quietGame 0 15))%R
  /\ (Awareness.gameLengthFactor (quietGame 0 15) <= 1)%R
  /\ ((108000 <= 0)%Z -> Awareness.gameLengthFactor (quietGame 0 15) = 0%R).
Proof.
  apply (@gameLengthFactor_decays (quietGame 0 15) (quietGame 108000 15)); cbn; lia.
Defined.

(** At the horizon a threat of 1000 no longer holds back a power of 1. *)
Lemma past_the_horizon_only_defence_counts_witness :
  Awareness._shouldAttack (Awareness.outcome_state
    (Awareness.onAiUpdate (fun _ _ _ => snapshot 1 1000 0 0 0 0) midpoint
       (quietGame 108000 15) selfPlayer fullyVisible defending))
  = JS.gt_nan (JS.Math_pow 1 1.025) (0 * 1.1) || JS.gt_nan (JS.Math_pow 0 1.025) (0 * 1.1).
Proof.
  apply (@past_the_horizon_only_defence_counts (fun _ _ _ => snapshot 1 1000 0 0 0 0) midpoint
           (quietGame 108000 15) selfPlayer fullyVisible defending 1
           (evaluationDue_quiet 108000 15 eq_refl)).
  cbn. lia.
Defined.

(** The engine throws on a lookup at tick 7: the update still returns. *)
Lemma update_completes_off_rally_cadence_witness :
  exists s',
    Awareness.onAiUpdate (fun _ _ _ => snapshot 0 0 0 0 0 0) midpoint
      throwingGame selfPlayer fullyVisible afterPreviousTick = Awareness.Returned tt s'
    /\ Awareness.mainRallyPoint s' = {| x := 0; y := 0 |}.
Proof.
  apply (@update_completes_off_rally_cadence (fun _ _ _ => snapshot 0 0 0 0 0 0) midpoint
           throwingGame selfPlayer fullyVisible afterPreviousTick).
  cbn. discriminate.
Defined.

(** At tick 0 the rally point heads from (10,10) for the enemy at (90,90). *)
Lemma rally_point_heads_for_first_enemy_witness :
  exists s',
    Awareness.onAiUpdate (fun _ _ _ => snapshot 0 0 0 0 0 0) midpoint
      (quietGame 0 15) selfPlayer fullyVisible defending = Awareness.Returned tt s'
    /\ Awareness.mainRallyPoint s'
       = midpoint (quietGame 0 15) {| x := 10; y := 10 |} {| x := 90; y := 90 |}.
Proof.
  apply (@rally_point_heads_for_first_enemy (fun _ _ _ => snapshot 0 0 0 0 0 0) midpoint
           (quietGame 0 15) selfPlayer fullyVisible defending "enemy" [] eq_refl eq_refl).
Defined.

(** ** Awareness: rebuilding and asking the index *)
Section AwarenessIndex.
Import JS MapUtil Awareness.
Local Open Scope R_scope.
Variable retrieve : Quadtree -> Circle -> list QTUnit.
Variable calculateGlobalThreat : GameApi -> PlayerData -> R -> GlobalThreat.
Variable getPointTowardsOtherPoint : GameApi -> Point2D -> Point2D -> Point2D.

(** When every lookup answers and every hostile unit has a tile, the
    update leaves the index holding the circles of this tick's hostile
    units and nothing of the tick before. *)
Lemma onAiUpdate_rebuilds game pd sc s looked :
  mapResult (getUnitData game) (getVisibleUnits game (name pd)) = Ok looked ->
  Forall (fun u => tile u <> None) (hostileUnitsOf game pd looked) ->
  hostileQuadTree (outcome_state
    (onAiUpdate calculateGlobalThreat getPointTowardsOtherPoint game pd sc s))
  = somes (map circleOf (hostileUnitsOf game pd looked)).
Proof.
  intros Hok Hall. unfold onAiUpdate, bind.
  destruct (sectorStep_returns game sc s) as (s1 & -> & _).
  unfold rebuildStep, try_catch. unfold bind at 1. rewrite Hok. cbn [lift ret].
  fold (hostileUnitsOf game pd looked).
  unfold rebuildQuadtree, bind, modify.
  rewrite (insertUnits_all (set_quadTree s1 []) Hall). cbn [hostileQuadTree set_quadTree app].
  match goal with |- context [threatStep _ _ _ _ ?st] =>
    destruct (threatStep_returns calculateGlobalThreat game pd sc st) as (s3 & -> & T3 & _) end.
  destruct (rallyStep_keeps getPointTowardsOtherPoint game pd s3) as (_ & T4 & _).
  rewrite T4, T3. reflexivity.
Qed.

Lemma in_hostileUnitsOf game pd looked u :
  In u (hostileUnitsOf game pd looked)
  <-> In (Some u) looked
      /\ exists p, In p (getPlayers game)
                   /\ owner u = name (getPlayerData game p)
                   /\ String.eqb (name (getPlayerData game p)) (name pd) = false
                   /\ isCombatant (getPlayerData game p) = true
                   /\ areAlliedPlayers game (name pd) (name (getPlayerData game p)) = false.
Proof.
  unfold hostileUnitsOf. rewrite in_somes, filter_In. cbn [isHostileUnit].
  rewrite existsb_exists. unfold hostilePlayerNamesOf.
  split.
  - intros [Hin (n & Hn & Heq)]. split; [exact Hin|].
    apply in_map_iff in Hn. destruct Hn as (d & <- & Hd).
    apply filter_In in Hd. destruct Hd as [Hd Hcond].
    apply in_map_iff in Hd. destruct Hd as (p & <- & Hp).
    apply andb_true_iff in Hcond. destruct Hcond as [Hcond Hal].
    apply andb_true_iff in Hcond. destruct Hcond as [Hself Hcomb].
    apply negb_true_iff in Hself, Hal. apply String.eqb_eq in Heq.
    exists p. auto.
  - intros [Hin (p & Hp & Ho & Hself & Hcomb & Hal)]. split; [exact Hin|].
    exists (name (getPlayerData game p)). split; [|apply String.eqb_eq; exact Ho].
    apply in_map_iff. exists (getPlayerData game p). split; [reflexivity|].
    apply filter_In. split; [apply in_map; exact Hp|].
    rewrite Hself, Hcomb, Hal. reflexivity.
Qed.

Lemma mapResult_Ok {A B} (f : A -> Result B) (l : list A) : forall bs,
  mapResult f l = Ok bs -> Forall2 (fun a b => f a = Ok b) l bs.
Proof.
  induction l as [|a l IH]; intros bs H; cbn in H.
  - injection H as <-. constructor.
  - destruct (f a) as [b|] eqn:Ea; [|discriminate].
    destruct (mapResult f l) as [bs'|]; [|discriminate].
    injection H as <-. constructor; [exact Ea | apply IH; reflexivity].
Qed.

Lemma circles_of_units (units : list UnitData) :
  Forall (fun u => tile u <> None) units ->
  Forall2 (fun u c => exists t, tile u = Some t
                                /\ c = {| cx := rx t; cy := ry t; cr := 1; data := Some (id u) |})
          units (somes (map circleOf units)).
Proof.
  induction 1 as [|u units Hu _ IH]; cbn; [constructor|].
  unfold circleOf at 1. destruct (tile u) as [t|] eqn:Et; [|congruence].
  cbn. constructor; [exists t; auto | exact IH].
Qed.

Lemma circles_NoDup (units : list UnitData) :
  NoDup (map id units) -> NoDup (somes (map circleOf units)).
Proof.
  induction units as [|u units IH]; cbn; intros Hnd; [constructor|].
  inversion Hnd as [|? ? Hnotin Hrest]; subst.
  unfold circleOf at 1. destruct (tile u) as [t|]; cbn; [|apply IH; exact Hrest].
  constructor; [|apply IH; exact Hrest].
  intros Hin. apply in_somes, in_map_iff in Hin. destruct Hin as (v & Hv & Hin).
  unfold circleOf in Hv. destruct (tile v) as [t'|]; [|discriminate].
  injection Hv as _ _ Hid. apply Hnotin. rewrite <- Hid. apply in_map. exact Hin.
Qed.

(** X12.  When every unit lookup answers and every hostile unit has a
    tile, the update replaces the index.  With [hostiles] the entries of
    the visible list, in its order, that resolve to a hostile unit
    ([looked] being the answers of the lookups for the visible ids, one by
    one): (1) the index holds, entry for entry and in the same order, one
    circle of radius 1 at the unit's tile carrying the unit's id, and
    nothing else, so nothing of the index of the tick before; (2) the
    hostile entries are exactly the answers that are a unit owned by
    another combatant player who is not an ally; (3) the index has as many
    circles as there are visible ids that resolve to a hostile unit, so an
    id listed twice is indexed twice; (4) when the ids of the hostile
    entries are distinct, no circle is in the index twice. *)
Theorem rebuild_indexes_hostile_units (game : GameApi) (pd : PlayerData)
        (sc : SectorCache) (s : State) (looked : list (option UnitData)) :
  mapResult (getUnitData game) (getVisibleUnits game (name pd)) = Ok looked ->
  Forall (fun u => tile u <> None) (hostileUnitsOf game pd looked) ->
  let index := hostileQuadTree (outcome_state
                 (onAiUpdate calculateGlobalThreat getPointTowardsOtherPoint game pd sc s)) in
  let hostiles := hostileUnitsOf game pd looked in
  Forall2 (fun i answer => getUnitData game i = Ok answer)
          (getVisibleUnits game (name pd)) looked
  /\ Forall2 (fun u c => exists t, tile u = Some t
                /\ c = {| cx := rx t; cy := ry t; cr := 1; data := Some (id u) |})
             hostiles index
  /\ (forall u,
        In u hostiles
        <-> In (Some u) looked
            /\ exists p, In p (getPlayers game)
                 /\ owner u = name (getPlayerData game p)
                 /\ String.eqb (name (getPlayerData game p)) (name pd) = false
                 /\ isCombatant (getPlayerData game p) = true
                 /\ areAlliedPlayers game (name pd) (name (getPlayerData game p)) = false)
  /\ length index
     = length (filter (fun i => match getUnitData game i with
                                | Ok answer => isHostileUnit answer (hostilePlayerNamesOf game pd)
                                | Raise => false
                                end)
                      (getVisibleUnits game (name pd)))
  /\ (NoDup (map id hostiles) -> NoDup index).
Proof.
  intros Hok Hall index hostiles.
  assert (E : index = somes (map circleOf hostiles))
    by (apply (@onAiUpdate_rebuilds game pd sc s looked Hok Hall)).
  pose proof (mapResult_Ok _ _ Hok) as Hlooked.
  split; [exact Hlooked|]. split; [rewrite E; apply circles_of_units; exact Hall|].
  split; [intros u; apply in_hostileUnitsOf|]. split.
  - rewrite E. subst hostiles.
    transitivity (length (hostileUnitsOf game pd looked));
      [symmetry; exact (Forall2_length (circles_of_units Hall))|].
    unfold hostileUnitsOf. clear E Hall Hok index.
    induction Hlooked as [|i answer ids answers Hi _ IH]; [reflexivity|].
    cbn [filter]. rewrite Hi.
    destruct answer as [u|]; cbn [isHostileUnit];
      [destruct (existsb _ _); cbn; [f_equal|]; exact IH | exact IH].
  - intros Hnd. rewrite E. apply circles_NoDup. exact Hnd.
Qed.

(** X13.  Insert and look up: after such an update, on a quadtree that
    hands back at least the circles whose center is within the query
    radius, a query returns every hostile unit with an id other than zero
    whose tile is within the radius of the search point, as the tile's
    coordinates and the unit's id. *)
Theorem query_finds_indexed_hostiles (game : GameApi) (pd : PlayerData)
        (sc : SectorCache) (s : State) (looked : list (option UnitData))
        (u : UnitData) (t : Tile) (searchX searchY radius : R) :
  retrieveCovers retrieve ->
  mapResult (getUnitData game) (getVisibleUnits game (name pd)) = Ok looked ->
  Forall (fun u => tile u <> None) (hostileUnitsOf game pd looked) ->
  In u (hostileUnitsOf game pd looked) ->
  tile u = Some t ->
  id u <> 0%Z ->
  getDistanceBetweenPoints {| x := rx t; y := ry t |} {| x := searchX; y := searchY |}
  <= radius ->
  In {| qx := rx t; qy := ry t; unitId := Some (id u) |}
     (getHostilesNearPoint retrieve
        (outcome_state
           (onAiUpdate calculateGlobalThreat getPointTowardsOtherPoint game pd sc s))
        searchX searchY radius).
Proof.
  intros Hcov Hok Hall Hu Ht Hid Hd. unfold getHostilesNearPoint.
  rewrite (@onAiUpdate_rebuilds game pd sc s looked Hok Hall).
  apply filter_In. split.
  - apply filter_In. split.
    + apply in_map_iff.
      exists {| cx := rx t; cy := ry t; cr := 1; data := Some (id u) |}.
      split; [reflexivity|]. apply Hcov; [|exact Hd].
      apply in_somes, in_map_iff. exists u. split; [|exact Hu].
      unfold circleOf. rewrite Ht. reflexivity.
    + apply le_true. exact Hd.
  - cbn. unfold truthyZ. apply negb_true_iff, Z.eqb_neq. exact Hid.
Qed.

(** X14.  A query with a negative radius returns nothing, whatever the
    index holds and whatever the quadtree hands back. *)
Theorem negative_radius_finds_nothing (s : State) (searchX searchY radius : R) :
  radius < 0 ->
  getHostilesNearPoint retrieve s searchX searchY radius = [].
Proof.
  intros Hneg.
  destruct (getHostilesNearPoint retrieve s searchX searchY radius) as [|q l] eqn:E;
    [reflexivity|].
  assert (Hin : In q (getHostilesNearPoint retrieve s searchX searchY radius))
    by (rewrite E; now left).
  unfold getHostilesNearPoint in Hin.
  apply filter_In in Hin. destruct Hin as [Hin _].
  apply filter_In in Hin. destruct Hin as [_ Hd]. apply le_true in Hd.
  pose proof (distance_nonneg {| x := qx q; y := qy q |} {| x := searchX; y := searchY |}).
  lra.
Qed.

End AwarenessIndex.

(** *** The index on a concrete tick *)

Lemma retrieveAll_covers : retrieveCovers retrieveAll.
Proof. intros q query c Hin _. exact Hin. Qed.

Lemma mixedGame_hostiles :
  hostileUnitsOf mixedGame selfPlayer [Some hostileWithTile; Some (groundUnitAt 2 6 5); None]
  = [hostileWithTile].
Proof. reflexivity. Qed.

(** Of the three visible units only the hostile building is indexed: the
    index is that one circle, and the two circles of the tick before are
    gone. *)
Lemma rebuild_indexes_hostile_units_witness :
  Awareness.hostileQuadTree afterPreviousTick = previousIndex
  /\ Awareness.hostileQuadTree (Awareness.outcome_state
       (Awareness.onAiUpdate (fun _ _ _ => snapshot 0 0 0 0 0 0) midpoint
          mixedGame selfPlayer fullyVisible afterPreviousTick))
     = [ {| Awareness.cx := 5; Awareness.cy := 5; Awareness.cr := 1;
            Awareness.data := Some 1%Z |} ].
Proof.
  split; [reflexivity|].
  destruct (@rebuild_indexes_hostile_units (fun _ _ _ => snapshot 0 0 0 0 0 0) midpoint
              mixedGame selfPlayer fullyVisible afterPreviousTick
              [Some hostileWithTile; Some (groundUnitAt 2 6 5); None] eq_refl
              ltac:(rewrite mixedGame_hostiles; repeat constructor; discriminate))
    as (_ & Hcircles & _).
  rewrite mixedGame_hostiles in Hcircles.
  inversion Hcircles as [|u c us index' (t & Ht & Hc) Hrest Eu Eindex]; subst.
  inversion Hrest; subst.
  injection Ht as <-. reflexivity.
Defined.

(** An id that the engine lists twice is indexed twice. *)
Lemma listed_twice_indexed_twice :
  Awareness.hostileQuadTree (Awareness.outcome_state
    (Awareness.onAiUpdate (fun _ _ _ => snapshot 0 0 0 0 0 0) midpoint
       listedTwiceGame selfPlayer fullyVisible afterPreviousTick))
  = [ {| Awareness.cx := 5; Awareness.cy := 5; Awareness.cr := 1; Awareness.data := Some 1%Z |};
      {| Awareness.cx := 5; Awareness.cy := 5; Awareness.cr := 1; Awareness.data := Some 1%Z |} ].
Proof. reflexivity. Qed.

(** A query around (5,7) with radius 2 finds the hostile building. *)
Lemma query_finds_indexed_hostiles_witness :
  In {| Awareness.qx := 5; Awareness.qy := 5; Awareness.unitId := Some 1%Z |}
     (Awareness.getHostilesNearPoint retrieveAll
        (Awareness.outcome_state
           (Awareness.onAiUpdate (fun _ _ _ => snapshot 0 0 0 0 0 0) midpoint
              mixedGame selfPlayer fullyVisible afterPreviousTick))
        5 7 2).
Proof.
  apply (@query_finds_indexed_hostiles retrieveAll (fun _ _ _ => snapshot 0 0 0 0 0 0) midpoint
           mixedGame selfPlayer fullyVisible afterPreviousTick
           [Some hostileWithTile; Some (groundUnitAt 2 6 5); None]
           hostileWithTile {| rx := 5; ry := 5 |} 5 7 2
           retrieveAll_covers eq_refl
           ltac:(rewrite mixedGame_hostiles; repeat constructor; discriminate)
           ltac:(rewrite mixedGame_hostiles; now left)
           eq_refl ltac:(discriminate)).
  unfold MapUtil.getDistanceBetweenPoints; cbn.
  replace ((5 - 5) * (5 - 5) + (5 - 7) * (5 - 7))%R with (2 * 2)%R by ring.
  rewrite sqrt_square; lra.
Defined.

(** A radius of -1 around the hostile at (1,1) finds nothing. *)
Lemma negative_radius_finds_nothing_witness :
  Awareness.getHostilesNearPoint retrieveAll threeHostiles 1 1 (-1) = [].
Proof.
  apply (@negative_radius_finds_nothing retrieveAll threeHostiles 1 1 (-1)). lra.
Defined.

(** ** Transport loading: orders, fit and order of service *)
Section TransportOrders.
Import JS Scripts.
Local Open Scope Z_scope.

Lemma onStart_assigned tick allUnits :
  transporteesToTransport (fst (onStart tick allUnits newHandler))
  = assignLoop (rev (passengersOf allUnits))
      (map_of_entries (map (fun t => (id t, passengers (rules t)))
                           (filter (fun u => passengers (rules u) >? 0) allUnits)))
      [].
Proof. reflexivity. Qed.

Lemma map_of_entries_in es k v : In (k, v) (map_of_entries es) -> In (k, v) es.
Proof.
  intros H. destruct (@entries_fold es [] (NoDup_nil _)) as [_ Hin].
  destruct (Hin k v H) as [[]|]; assumption.
Qed.

Lemma map_of_entries_NoDup es : NoDup (map fst (map_of_entries es)).
Proof. apply (@entries_fold es [] (NoDup_nil _)). Qed.

(** What [onStart] assigns: passengers of the list to transports of the
    list, each passenger once. *)
Lemma onStart_entries tick allUnits :
  NoDup (map fst (transporteesToTransport (fst (onStart tick allUnits newHandler))))
  /\ forall p t,
       In (p, t) (transporteesToTransport (fst (onStart tick allUnits newHandler))) ->
       (exists u, In u (passengersOf allUnits) /\ id u = p)
       /\ In t (transportIdsOf allUnits).
Proof.
  rewrite onStart_assigned.
  apply (@assignLoop_entries (fun t => In t (transportIdsOf allUnits))
           (fun p => exists u, In u (passengersOf allUnits) /\ id u = p)).
  - intros u Hu. exists u. split; [now apply in_rev | reflexivity].
  - intros k Hk. apply in_map_iff in Hk. destruct Hk as ([k' v] & <- & Hkv).
    apply map_of_entries_in in Hkv. apply in_map_iff in Hkv.
    destruct Hkv as (t & E & Ht). injection E as <- <-. cbn.
    unfold transportIdsOf. now apply in_map.
  - intros p t [].
  - constructor.
Qed.

Lemma passengersOf_spec allUnits u :
  In u (passengersOf allUnits)
  <-> In u allUnits /\ 0 < size (rules u) /\ ~ In (id u) (transportIdsOf allUnits).
Proof.
  unfold passengersOf. rewrite filter_In, andb_true_iff, negb_true_iff, Z.gtb_lt.
  split.
  - intros (Hu & Hs & Hn). repeat split; [exact Hu | lia |].
    intros Hin.
    assert (Hex : existsb (Z.eqb (id u)) (transportIdsOf allUnits) = true).
    { apply existsb_exists. exists (id u). split; [exact Hin | apply Z.eqb_refl]. }
    congruence.
  - intros (Hu & Hs & Hn). repeat split; [exact Hu | lia |].
    apply not_true_is_false. intros Hex. apply existsb_exists in Hex.
    destruct Hex as (k & Hk & E). apply Z.eqb_eq in E. subst k. tauto.
Qed.

(** X15.  [onStart] orders the transports, and them alone, to deploy; from
    then until the deadline (the start tick plus LOAD_TIME_LIMIT, the
    deadline tick included) every [onStep] answers [repeat] and orders
    each assigned passenger, on its own, to enter the transport it was
    assigned to; no transport is ever ordered aboard. *)
Theorem loading_orders_passengers_aboard (tick now : Z) (allUnits : list UnitData) :
  now <= tick + LOAD_TIME_LIMIT ->
  let h := fst (onStart tick allUnits newHandler) in
  snd (onStart tick allUnits newHandler) = [DeploySelected (transportIdsOf allUnits)]
  /\ fst (onStep now h) = repeat
  /\ snd (onStep now h)
     = map (fun e => EnterTransport [fst e] (snd e)) (transporteesToTransport h)
  /\ forall o, In o (snd (onStep now h)) ->
               exists p t, o = EnterTransport [p] t
                           /\ In t (transportIdsOf allUnits)
                           /\ ~ In p (transportIdsOf allUnits).
Proof.
  intros Hnow h.
  assert (Hstep : onStep now h
                  = (repeat, map (fun e => EnterTransport [fst e] (snd e))
                                 (transporteesToTransport h))).
  { unfold onStep. subst h. cbn [onStart fst transporters abortAt isSome negb orb].
    replace (now >? tick + LOAD_TIME_LIMIT) with false
      by (symmetry; rewrite Z.gtb_ltb; apply Z.ltb_ge; lia).
    rewrite andb_false_r. reflexivity. }
  split; [reflexivity|]. rewrite Hstep. cbn [fst snd].
  split; [reflexivity|]. split; [reflexivity|].
  intros o Ho. apply in_map_iff in Ho. destruct Ho as ([p t] & <- & Hpt).
  destruct (onStart_entries tick allUnits) as [_ Hent].
  destruct (Hent p t Hpt) as [(u & Hu & <-) Ht].
  apply passengersOf_spec in Hu. exists (id u), t. tauto.
Qed.

Lemma load_bounds_entry U a : forall p t,
  (forall p' t', In (p', t') a -> 0 <= sizeOf U p') ->
  In (p, t) a -> sizeOf U p <= load U a t.
Proof.
  induction a as [|[k v] a IH]; intros p t Hpos Hin; [destruct Hin|].
  assert (Hrest : 0 <= load U a t).
  { clear -Hpos. induction a as [|[k' v'] a IH]; cbn; [lia|].
    assert (0 <= sizeOf U k') by (apply (Hpos k' v'); right; now left).
    assert (0 <= load U a t).
    { apply IH. intros p' t' H'. apply (Hpos p' t'). destruct H' as [H'|H']; [now left|].
      right. now right. }
    destruct (v' =? t); lia. }
  cbn. destruct Hin as [E|Hin].
  - injection E as -> ->. rewrite Z.eqb_refl. lia.
  - assert (sizeOf U p <= load U a t).
    { apply IH; [|exact Hin]. intros p' t' H'. apply (Hpos p' t'). now right. }
    assert (0 <= sizeOf U k) by (apply (Hpos k v); now left).
    destruct (v =? t); lia.
Qed.

(** X16.  Every assignment fits: the passenger is a unit of the list with
    a positive size that is not itself a transport, the transport is a unit
    of the list, and the passenger's size is at most the transport's
    passenger slots. *)
Theorem assigned_passengers_fit (tick : Z) (allUnits : list UnitData) (p t : Z) :
  rules_by_id allUnits ->
  In (p, t) (transporteesToTransport (fst (onStart tick allUnits newHandler))) ->
  exists u w,
    In u allUnits /\ id u = p /\ In w allUnits /\ id w = t
    /\ ~ In p (transportIdsOf allUnits)
    /\ 0 < size (rules u) <= passengers (rules w).
Proof.
  intros Hc Hpt.
  destruct (onStart_entries tick allUnits) as [_ Hent].
  destruct (Hent p t Hpt) as [(u & Hu & Hid) Ht].
  apply passengersOf_spec in Hu. destruct Hu as (Hu & Hsize & Hnot).
  set (entries := map (fun t => (id t, passengers (rules t)))
                      (filter (fun u => passengers (rules u) >? 0) allUnits)).
  assert (Hload : load allUnits
                    (transporteesToTransport (fst (onStart tick allUnits newHandler))) t
                  <= remainingOf (map_of_entries entries) t).
  { rewrite onStart_assigned.
    apply (@assignLoop_load allUnits (remainingOf (map_of_entries entries))).
    - intros u' Hu'. apply in_rev, passengersOf_spec in Hu'. destruct Hu' as (Hin & Hs & _).
      split; [now apply sizeOf_member | exact Hs].
    - apply map_of_entries_NoDup.
    - intros k v Hkv. apply map_of_entries_in, in_map_iff in Hkv.
      destruct Hkv as (w & E & Hw). injection E as <- <-.
      apply filter_In in Hw. destruct Hw as [_ Hw]. apply Z.gtb_lt in Hw. lia.
    - intros q. subst entries. change (load allUnits [] q) with 0. lia. }
  assert (Hp : sizeOf allUnits p
               <= load allUnits
                    (transporteesToTransport (fst (onStart tick allUnits newHandler))) t).
  { apply load_bounds_entry; [|exact Hpt].
    intros p' t' H'. destruct (Hent p' t' H') as [(u' & Hu' & <-) _].
    apply passengersOf_spec in Hu'. destruct Hu' as (Hin & Hs & _).
    rewrite (@sizeOf_member allUnits u' Hc Hin). lia. }
  rewrite <- Hid, (@sizeOf_member allUnits u Hc Hu) in Hp.
  unfold remainingOf in Hload.
  destruct (map_get (map_of_entries entries) t) as [v|] eqn:E; [|lia].
  apply map_get_in, map_of_entries_in, in_map_iff in E.
  destruct E as (w & E & Hw). injection E as <- <-.
  apply filter_In in Hw. destruct Hw as [Hw _].
  exists u, w. rewrite <- Hid. repeat split; auto; lia.
Qed.

(** X17.  With no unit that has passenger slots, nothing is assigned: the
    deploy order goes to nobody, and every step up to the deadline repeats
    without an order. *)
Theorem no_transport_no_assignment (tick now : Z) (allUnits : list UnitData) :
  Forall (fun u => passengers (rules u) <= 0) allUnits ->
  now <= tick + LOAD_TIME_LIMIT ->
  transporteesToTransport (fst (onStart tick allUnits newHandler)) = []
  /\ snd (onStart tick allUnits newHandler) = [DeploySelected []]
  /\ onStep now (fst (onStart tick allUnits newHandler)) = (repeat, []).
Proof.
  intros Hall Hnow.
  assert (Hnone : filter (fun u => passengers (rules u) >? 0) allUnits = []).
  { induction Hall as [|u l Hu Hl IH]; cbn; [reflexivity|].
    replace (passengers (rules u) >? 0) with false; [exact IH|].
    symmetry. rewrite Z.gtb_ltb. apply Z.ltb_ge. lia. }
  assert (Ha : transporteesToTransport (fst (onStart tick allUnits newHandler)) = []).
  { rewrite onStart_assigned, Hnone. cbn. destruct (rev _); reflexivity. }
  split; [exact Ha|]. split.
  - cbn. now rewrite Hnone.
  - unfold onStep. rewrite Ha.
    cbn [onStart fst transporters abortAt isSome negb orb].
    replace (now >? tick + LOAD_TIME_LIMIT) with false
      by (symmetry; rewrite Z.gtb_ltb; apply Z.ltb_ge; lia).
    rewrite andb_false_r. reflexivity.
Qed.

End TransportOrders.

(** ** Transport loading: who is served first *)
Section TransportGreedy.
Import JS Scripts.
Local Open Scope Z_scope.

Lemma map_set_fresh m k v : ~ In k (map fst m) -> map_set m k v = m ++ [(k, v)].
Proof.
  induction m as [|[a b] m IH]; cbn; intros Hk; [reflexivity|].
  destruct (a =? k) eqn:E.
  - apply Z.eqb_eq in E. tauto.
  - rewrite IH by tauto. reflexivity.
Qed.

Lemma fold_set_fresh es : forall acc,
  NoDup (map fst (acc ++ es)) ->
  fold_left (fun m e => map_set m (fst e) (snd e)) es acc = acc ++ es.
Proof.
  induction es as [|[k v] es IH]; intros acc Hnd; cbn.
  - now rewrite app_nil_r.
  - rewrite map_set_fresh.
    + rewrite IH; rewrite <- app_assoc; [reflexivity | exact Hnd].
    + rewrite map_app in Hnd. cbn in Hnd. apply NoDup_remove_2 in Hnd.
      intros Hin. apply Hnd. apply in_or_app. now left.
Qed.

(** With one entry per key, [new Map(entries)] lists the entries as given. *)
Lemma map_of_entries_id es : NoDup (map fst es) -> map_of_entries es = es.
Proof. intros H. unfold map_of_entries. now rewrite fold_set_fresh. Qed.

Lemma NoDup_map_filter {A} (g : A -> Z) (f : A -> bool) l :
  NoDup (map g l) -> NoDup (map g (filter f l)).
Proof.
  induction l as [|a l IH]; cbn; intros Hnd; [constructor|].
  inversion Hnd as [|? ? Hnot Hnd']; subst.
  destruct (f a); cbn; [|auto]. constructor; [|auto].
  intros Hin. apply Hnot. apply in_map_iff in Hin. destruct Hin as (b & Hb & Hin).
  apply filter_In in Hin. apply in_map_iff. exists b. tauto.
Qed.

Lemma last_opt_map {A B} (g : A -> B) l : last_opt (map g l) = option_map g (last_opt l).
Proof.
  induction l as [|a l IH]; [reflexivity|].
  destruct l as [|b l]; [reflexivity|]. exact IH.
Qed.

Lemma filter_map_swap {A B} (g : A -> B) (f : B -> bool) l :
  filter f (map g l) = map g (filter (fun a => f (g a)) l).
Proof.
  induction l as [|a l IH]; cbn; [reflexivity|].
  destruct (f (g a)); cbn; now rewrite IH.
Qed.

(** The loop leaves the assignment of a unit that is not on its stack. *)
Lemma assignLoop_get_other k stack : forall remainingSizes assigned,
  ~ In k (map id stack) ->
  map_get (assignLoop stack remainingSizes assigned) k = map_get assigned k.
Proof.
  induction stack as [|unit rest IH]; intros rs a Hk; cbn; [reflexivity|].
  cbn in Hk.
  destruct (length rs =? 0)%nat; [reflexivity|].
  destruct (last_opt _) as [[tid slots]|].
  - rewrite IH by tauto. rewrite map_get_set.
    destruct (id unit =? k) eqn:E; [|reflexivity].
    apply Z.eqb_eq in E. tauto.
  - apply IH. tauto.
Qed.

(** X18.  The loop serves the last passenger of the unit list first: with
    distinct unit ids, that passenger ends up in the last transport of the
    unit list whose passenger slots hold its size, and is left unassigned
    when no transport does, whatever the other passengers need. *)
Theorem last_passenger_is_served_first (tick : Z) (allUnits others : list UnitData)
        (u : UnitData) :
  NoDup (map id allUnits) ->
  passengersOf allUnits = others ++ [u] ->
  map_get (transporteesToTransport (fst (onStart tick allUnits newHandler))) (id u)
  = option_map id
      (last_opt (filter (fun t => passengers (rules t) >=? size (rules u))
                        (filter (fun t => passengers (rules t) >? 0) allUnits))).
Proof.
  intros Hnd Hlast. rewrite onStart_assigned, Hlast, rev_app_distr. cbn [rev app].
  set (transportUnits := filter (fun t => passengers (rules t) >? 0) allUnits).
  assert (Hother : ~ In (id u) (map id (rev others))).
  { pose proof (NoDup_map_filter id
                  (fun u => (size (rules u) >? 0)
                            && negb (existsb (Z.eqb (id u)) (transportIdsOf allUnits)))
                  allUnits Hnd) as Hp.
    fold (passengersOf allUnits) in Hp. rewrite Hlast, map_app in Hp. cbn in Hp.
    apply NoDup_remove_2 in Hp. rewrite app_nil_r in Hp.
    rewrite map_rev. intros Hin. apply Hp. now apply in_rev. }
  rewrite map_of_entries_id.
  2:{ rewrite map_map. cbn. apply NoDup_map_filter. exact Hnd. }
  cbn [assignLoop]. rewrite length_map.
  destruct (length transportUnits =? 0)%nat eqn:Elen.
  - apply Nat.eqb_eq, length_zero_iff_nil in Elen. rewrite Elen. reflexivity.
  - rewrite filter_map_swap, last_opt_map. cbn [snd].
    destruct (last_opt (filter _ transportUnits)) as [w|]; cbn [option_map].
    + rewrite assignLoop_get_other by exact Hother.
      cbn. rewrite Z.eqb_refl. reflexivity.
    + rewrite assignLoop_get_other by exact Hother. reflexivity.
Qed.

End TransportGreedy.

(** *** Orders and order of service on the concrete mission *)

(** At the deadline tick 400 the step still repeats and sends passenger 4
    to transport 10 and passenger 3 to transport 11. *)
Lemma loading_orders_passengers_aboard_witness :
  snd (Scripts.onStart 100 loadingUnits Scripts.newHandler)
  = [Scripts.DeploySelected [10; 11]%Z]
  /\ fst (Scripts.onStep 400 (fst (Scripts.onStart 100 loadingUnits Scripts.newHandler)))
     = Scripts.repeat
  /\ snd (Scripts.onStep 400 (fst (Scripts.onStart 100 loadingUnits Scripts.newHandler)))
     = [Scripts.EnterTransport [4%Z] 10; Scripts.EnterTransport [3%Z] 11].
Proof.
  destruct (@loading_orders_passengers_aboard 100 400 loadingUnits
              ltac:(unfold Scripts.LOAD_TIME_LIMIT; lia)) as (H1 & H2 & H3 & _).
  split; [exact H1|]. split; [exact H2 | exact H3].
Defined.

(** Passenger 4, of size 4, fits the 5 slots of transport 10. *)
Lemma assigned_passengers_fit_witness :
  exists u w,
    In u loadingUnits /\ id u = 4%Z /\ In w loadingUnits /\ id w = 10%Z
    /\ ~ In 4%Z (transportIdsOf loadingUnits)
    /\ (0 < size (rules u) <= passengers (rules w))%Z.
Proof.
  apply (@assigned_passengers_fit 100 loadingUnits 4 10 loadingUnits_rules_by_id).
  rewrite loading_assignment. now left.
Defined.

(** Four passengers and no transport. *)
Lemma no_transport_no_assignment_witness :
  Scripts.onStep 150
    (fst (Scripts.onStart 100
            [passengerUnit 1 3; passengerUnit 2 2; passengerUnit 3 2; passengerUnit 4 4]
            Scripts.newHandler))
  = (Scripts.repeat, []).
Proof.
  apply (@no_transport_no_assignment 100 150
           [passengerUnit 1 3; passengerUnit 2 2; passengerUnit 3 2; passengerUnit 4 4]).
  - repeat constructor; cbn; lia.
  - unfold Scripts.LOAD_TIME_LIMIT. lia.
Defined.

(** Passenger 4 comes last in the list and is served first: transport 10. *)
Lemma last_passenger_is_served_first_witness :
  map_get (Scripts.transporteesToTransport
             (fst (Scripts.onStart 100 loadingUnits Scripts.newHandler))) 4
  = Some 10%Z.
Proof.
  apply (@last_passenger_is_served_first 100 loadingUnits
           [passengerUnit 1 3; passengerUnit 2 2; passengerUnit 3 2] (passengerUnit 4 4)).
  - cbn. repeat constructor; cbn; intuition discriminate.
  - reflexivity.
Defined.

(** ** The combat behaviour: throttles, stability and the attack loop *)
Section CombatCadence.
Import JS Combat.
Local Open Scope R_scope.

Lemma attackAll_lastCommand e target units : forall c,
  lastCommand (fst (fst (attackAll e target units c))) = lastCommand c.
Proof.
  induction units as [|u units IH]; intros c; cbn; [reflexivity|].
  destruct (attackWith e target u) as [[a d]|]; cbn; [|reflexivity].
  specialize (IH (set_debugLastTarget c (Some d))).
  destruct (attackAll e target units _) as [[c' acts] ex]. cbn in *. exact IH.
Qed.

(** What the command block leaves of the state, the throttle ticks and
    the rally area. *)
Lemma evaluate_fields e c :
  let c1 := fst (fst (fst (evaluate e c))) in
  lastCommand c1 = Some (getCurrentTick e)
  /\ lastGrab c1 = lastGrab c
  /\ rallyArea c1 = rallyArea c
  /\ state c1
     = match state c with
       | Gathering =>
           match spreadBeyond e (sqrt (INR (length (getUnitsMatching e isGroundCombatant)))
                                 * GATHER_RATIO + MIN_GATHER_RADIUS) with
           | Some _ => Gathering
           | None => Attacking
           end
       | Attacking =>
           match spreadBeyond e (sqrt (INR (length (getUnitsMatching e isGroundCombatant)))
                                 * GATHER_RATIO + MAX_GATHER_RADIUS) with
           | Some _ => Gathering
           | None => Attacking
           end
       end.
Proof.
  unfold evaluate. cbn [state set_lastCommand].
  destruct (state c) eqn:Est; destruct (spreadBeyond e _); cbn; auto.
  match goal with |- context [attackAll ?a ?b ?u ?d] =>
    pose proof (attackAll_state a b u d) as (Hs & Hl & Hr);
    pose proof (attackAll_lastCommand a b u d) as Hc;
    destruct (attackAll a b u d) as [[c' acts] ex] end.
  cbn in *. rewrite Est in Hs. auto.
Qed.

(** The closing [if] touches the tick of the last request only. *)
Lemma onAiUpdate_fields e c :
  state (squad (onAiUpdate e c))
  = (if commandDue e c then state (fst (fst (fst (evaluate e c)))) else state c)
  /\ lastCommand (squad (onAiUpdate e c))
     = (if commandDue e c then Some (getCurrentTick e) else lastCommand c).
Proof.
  unfold onAiUpdate. destruct (commandDue e c).
  - destruct (evaluate_fields e c) as (Hc & _ & _ & _).
    destruct (evaluate e c) as [[[c1 acts] logs] ex]. cbn in *.
    unfold grabStep. destruct ex; try destruct (grabDue e c1); cbn; auto.
  - unfold grabStep. destruct (grabDue e c); cbn; auto.
Qed.

(** X19.  The command throttle: within TARGET_UPDATE_INTERVAL_TICKS ticks
    of the last evaluation, made at a tick other than zero, an update
    evaluates nothing: it keeps the state, orders nothing, logs nothing and
    leaves the tick of the last evaluation as it was. *)
Theorem command_block_is_throttled (e : Env) (c : CombatSquad) (t : Z) :
  lastCommand c = Some t ->
  t <> 0%Z ->
  (getCurrentTick e <= t + TARGET_UPDATE_INTERVAL_TICKS)%Z ->
  state (squad (onAiUpdate e c)) = state c
  /\ pushed (onAiUpdate e c) = []
  /\ lines (onAiUpdate e c) = []
  /\ lastCommand (squad (onAiUpdate e c)) = Some t.
Proof.
  intros Hlast Ht Htick.
  assert (Hdue : commandDue e c = false).
  { unfold commandDue, notSet, truthyZ. rewrite Hlast.
    apply Z.eqb_neq in Ht. rewrite Ht. cbn.
    replace (getCurrentTick e >? t + TARGET_UPDATE_INTERVAL_TICKS)%Z with false
      by (symmetry; rewrite Z.gtb_ltb; apply Z.ltb_ge; lia).
    apply andb_false_r. }
  destruct (onAiUpdate_fields e c) as [Hs Hc]. rewrite Hdue in Hs, Hc.
  split; [exact Hs|]. split; [|split; [|congruence]];
    unfold onAiUpdate; rewrite Hdue; unfold grabStep; destruct (grabDue e c); reflexivity.
Qed.

(** X20.  The reinforcement throttle: within GRAB_INTERVAL_TICKS ticks of
    the last request, made at a tick other than zero, an update asks for no
    reinforcement and leaves the tick of the last request as it was. *)
Theorem reinforcement_is_throttled (e : Env) (c : CombatSquad) (t : Z) :
  lastGrab c = Some t ->
  t <> 0%Z ->
  (getCurrentTick e <= t + GRAB_INTERVAL_TICKS)%Z ->
  (action (onAiUpdate e c) = Some noop \/ action (onAiUpdate e c) = None)
  /\ lastGrab (squad (onAiUpdate e c)) = Some t.
Proof.
  intros Hlast Ht Htick.
  assert (Hgrab : forall c1, lastGrab c1 = Some t -> grabStep e c1 = (c1, noop)).
  { intros c1 H1. unfold grabStep, grabDue, notSet, truthyZ. rewrite H1.
    apply Z.eqb_neq in Ht. rewrite Ht. cbn.
    replace (getCurrentTick e >? t + GRAB_INTERVAL_TICKS)%Z with false
      by (symmetry; rewrite Z.gtb_ltb; apply Z.ltb_ge; lia).
    reflexivity. }
  unfold onAiUpdate. destruct (commandDue e c).
  - destruct (evaluate_fields e c) as (_ & Hl & _ & _).
    destruct (evaluate e c) as [[[c1 acts] logs] ex]. cbn in Hl.
    rewrite Hlast in Hl. destruct ex; cbn; auto.
    rewrite (Hgrab c1 Hl). cbn. auto.
  - rewrite (Hgrab c Hlast). cbn. auto.
Qed.


Lemma spreadBeyond_margin e center :
  spreadBeyond e (sqrt (INR (length (getUnitsMatching e isGroundCombatant)))
                  * GATHER_RATIO + MAX_GATHER_RADIUS) = Some center ->
  spreadBeyond e (sqrt (INR (length (getUnitsMatching e isGroundCombatant)))
                  * GATHER_RATIO + MIN_GATHER_RADIUS) = Some center.
Proof.
  intros H.
  apply (spreadBeyond_some e center) in H; [|unfold MAX_GATHER_RADIUS; lra].
  apply (spreadBeyond_some e center); [unfold MIN_GATHER_RADIUS; lra|].
  destruct H as (Hc & d & Hd & Ht & Hgt). split; [exact Hc|].
  exists d. repeat split; auto. unfold MIN_GATHER_RADIUS, MAX_GATHER_RADIUS in *. lra.
Qed.

(** X22.  The two thresholds leave no room for flapping: on one and the
    same picture of the mission, if an evaluation sends an attacking squad
    back to Gathering, an evaluation of a gathering squad keeps it
    Gathering; and if an evaluation lets a gathering squad go to Attacking,
    an evaluation of an attacking squad keeps it Attacking. *)
Theorem squad_state_does_not_flap (e : Env) (gathering attacking : CombatSquad) :
  commandDue e gathering = true ->
  commandDue e attacking = true ->
  state gathering = Gathering ->
  state attacking = Attacking ->
  (state (squad (onAiUpdate e attacking)) = Gathering ->
   state (squad (onAiUpdate e gathering)) = Gathering)
  /\ (state (squad (onAiUpdate e gathering)) = Attacking ->
      state (squad (onAiUpdate e attacking)) = Attacking).
Proof.
  intros Hg Ha Sg Sa.
  destruct (onAiUpdate_fields e gathering) as [Hsg _].
  destruct (onAiUpdate_fields e attacking) as [Hsa _].
  destruct (evaluate_fields e gathering) as (_ & _ & _ & Eg).
  destruct (evaluate_fields e attacking) as (_ & _ & _ & Ea).
  rewrite Hg in Hsg. rewrite Ha in Hsa. rewrite Hsg, Hsa, Eg, Ea, Sg, Sa.
  destruct (spreadBeyond e (_ + MAX_GATHER_RADIUS)) as [cmax|] eqn:Emax.
  - rewrite (spreadBeyond_margin e Emax). split; [reflexivity | discriminate].
  - split; [discriminate | reflexivity].
Qed.

Lemma attackAll_orders e target units : forall c,
  Forall (fun unit => tile unit <> None) units ->
  Forall2 (ordersUnit e target) units (snd (fst (attackAll e target units c)))
  /\ snd (attackAll e target units c) = RunsOn.
Proof.
  induction units as [|u units IH]; intros c Hall; cbn.
  - split; [constructor | reflexivity].
  - inversion Hall as [|? ? Hu Hus]; subst.
    unfold attackWith. destruct (tile u) as [t|] eqn:Et; [|congruence].
    fold (weaponRangeOf u). fold (targetsNear e u t).
    destruct (maxByAttackWeight e u (targetsNear e u t)) as [b|] eqn:Eb;
      match goal with |- context [attackAll e target units ?d] =>
        destruct (IH d Hus) as [H2 Hex];
        destruct (attackAll e target units d) as [[c' acts] ex] end;
      cbn in *; (split; [|exact Hex]); constructor; auto;
      exists t; (split; [exact Et|]); rewrite Eb; reflexivity.
Qed.

(** X23.  The attack loop: when an attacking squad is evaluated and does
    not revert, and every combatant member has a tile, the update pushes
    one order per combatant, in member order: an attack on the hostile that
    [maxBy] picks among those the awareness reports within twice the
    unit's weapon range (primary, else secondary, else 5) of its tile, or,
    when there is no pick, a move to the target area, or to the own start
    location when no target area is set.  The update then returns. *)
Theorem attack_loop_orders_each_combatant (e : Env) (c : CombatSquad) :
  commandDue e c = true ->
  state c = Attacking ->
  (forall center, ~ spreadExceeds e MAX_GATHER_RADIUS center) ->
  Forall (fun unit => tile unit <> None)
         (getUnitsMatching e (fun r => isSelectableCombatant (rules r))) ->
  Forall2 (ordersUnit e (match targetArea c with
                         | Some p => p
                         | None => startLocation e
                         end))
          (getUnitsMatching e (fun r => isSelectableCombatant (rules r)))
          (pushed (onAiUpdate e c))
  /\ action (onAiUpdate e c) <> None.
Proof.
  intros Hdue Hst Hno Htiles. unfold onAiUpdate. rewrite Hdue.
  unfold evaluate. cbn [state set_lastCommand]. rewrite Hst.
  apply (spreadBeyond_none e) in Hno; [|unfold MAX_GATHER_RADIUS; lra].
  rewrite Hno. unfold nullish. cbn [targetArea set_lastCommand].
  match goal with |- context [attackAll ?a ?b ?u ?d] =>
    destruct (attackAll_orders a b d Htiles) as [H2 Hex];
    destruct (attackAll a b u d) as [[c' acts] ex] end.
  cbn in H2, Hex. subst ex. unfold grabStep. destruct (grabDue e c'); cbn; split;
    (exact H2 || discriminate).
Qed.

(** X24.  A mission without members evaluates nothing, whatever the
    throttle says: the state stays, nothing is ordered; a reinforcement
    request that is due is made all the same, around the center of mass
    or, when there is none, around the rally area. *)
Theorem empty_mission_only_asks_for_units (e : Env) (c : CombatSquad) :
  missionUnitIds e = [] ->
  state (squad (onAiUpdate e c)) = state c
  /\ pushed (onAiUpdate e c) = []
  /\ (grabDue e c = true ->
      action (onAiUpdate e c)
      = Some (grabCombatants (match getCenterOfMass e with
                              | Some p => p
                              | None => rallyArea c
                              end) GRAB_RADIUS)).
Proof.
  intros Hempty.
  assert (Hdue : commandDue e c = false) by (unfold commandDue; now rewrite Hempty).
  destruct (onAiUpdate_fields e c) as [Hs _]. rewrite Hdue in Hs.
  split; [exact Hs|]. split.
  - unfold onAiUpdate. rewrite Hdue. unfold grabStep. destruct (grabDue e c); reflexivity.
  - intros Hgrab. apply (grab_when_block_runs_on e c Hgrab). now left.
Qed.

End CombatCadence.

(** *** Throttles, stability and the attack loop on concrete updates *)

(** Five ticks after its evaluation at tick 30 the squad is left alone. *)
Lemma command_block_is_throttled_witness :
  Combat.state (Combat.squad (Combat.onAiUpdate soonAfterEnv attackingSquad)) = Combat.Attacking
  /\ Combat.pushed (Combat.onAiUpdate soonAfterEnv attackingSquad) = []
  /\ Combat.lines (Combat.onAiUpdate soonAfterEnv attackingSquad) = []
  /\ Combat.lastCommand (Combat.squad (Combat.onAiUpdate soonAfterEnv attackingSquad))
     = Some 30%Z.
Proof.
  apply (@command_block_is_throttled soonAfterEnv attackingSquad 30 eq_refl);
    [discriminate | unfold Combat.TARGET_UPDATE_INTERVAL_TICKS; cbn; lia].
Defined.

(** Five ticks after its request at tick 30 the squad asks for nothing. *)
Lemma reinforcement_is_throttled_witness :
  (Combat.action (Combat.onAiUpdate soonAfterEnv attackingSquad) = Some Combat.noop
   \/ Combat.action (Combat.onAiUpdate soonAfterEnv attackingSquad) = None)
  /\ Combat.lastGrab (Combat.squad (Combat.onAiUpdate soonAfterEnv attackingSquad))
     = Some 30%Z.
Proof.
  apply (@reinforcement_is_throttled soonAfterEnv attackingSquad 30 eq_refl);
    [discriminate | unfold Combat.GRAB_INTERVAL_TICKS; cbn; lia].
Defined.


(** The picture that lets the fresh squad go to Attacking keeps attackers
    attacking. *)
Lemma squad_state_does_not_flap_witness :
  Combat.state (Combat.squad (Combat.onAiUpdate gatheredEnv unevaluatedAttackers))
  = Combat.Attacking.
Proof.
  apply (proj2 (@squad_state_does_not_flap gatheredEnv freshSquad unevaluatedAttackers
                  eq_refl eq_refl eq_refl eq_refl)).
  rewrite (proj1 attackingSquad_reached). reflexivity.
Defined.

Lemma laterEnv_within_margin :
  forall center, ~ spreadExceeds laterEnv Combat.MAX_GATHER_RADIUS center.
Proof.
  intros center (Hc & d & Hd & _ & Hgt). injection Hd as <-.
  pose proof (sqrt_pos (INR (length (Combat.getUnitsMatching laterEnv
                                        Combat.isGroundCombatant)))) as Hs.
  unfold Combat.GATHER_RATIO, Combat.MAX_GATHER_RADIUS in Hgt. nra.
Qed.

(** Twenty ticks on, with no hostile near, the three attackers are each
    sent to the target area, and the update returns. *)
Lemma attack_loop_orders_each_combatant_witness :
  Forall2 (ordersUnit laterEnv {| x := 80; y := 80 |})
          [groundUnitAt 1 0 0; groundUnitAt 2 2 0; groundUnitAt 3 4 0]
          (Combat.pushed (Combat.onAiUpdate laterEnv attackingSquad))
  /\ Combat.action (Combat.onAiUpdate laterEnv attackingSquad) <> None.
Proof.
  apply (@attack_loop_orders_each_combatant laterEnv attackingSquad
           eq_refl eq_refl laterEnv_within_margin).
  cbn. repeat constructor; discriminate.
Defined.

(** A mission without members asks for units around its rally area. *)
Lemma empty_mission_only_asks_for_units_witness :
  Combat.action (Combat.onAiUpdate emptyMissionEnv freshSquad)
  = Some (Combat.grabCombatants {| x := 20; y := 20 |} Combat.GRAB_RADIUS).
Proof.
  apply (proj2 (proj2 (@empty_mission_only_asks_for_units emptyMissionEnv freshSquad eq_refl))).
  reflexivity.
Defined.

(** ** The micro methods *)
Section MicroOrders.
Import JS Micro.
Local Open Scope R_scope.
Variable getDistanceBetweenUnits : MicroUnit -> MicroUnit -> R.

(** The three branches of the order type give the same order. *)
Lemma attackOrder_is_attack attacker target :
  attackOrder getDistanceBetweenUnits attacker target = attackOrderOn attacker target.
Proof.
  unfold attackOrder, attackOrderOn.
  destruct (isBuilding (type target) && _); [reflexivity|].
  destruct (canDisguise target); reflexivity.
Qed.

(** [manageMoveMicro] always ends with a move order for the unit to the
    point; the only order that can precede it is a deploy order, given
    exactly when the unit is an "E1" in the deployed stance (to pack up
    before moving). *)
Lemma move_micro_packs_up_then_moves (attacker : MicroUnit) (p : Point2D) :
  if String.eqb (name attacker) "E1" && isDeployedStance (stance attacker)
  then manageMoveMicro attacker p = [deployOrder attacker; moveOrderTo attacker p]
  else manageMoveMicro attacker p = [moveOrderTo attacker p].
Proof.
  unfold manageMoveMicro.
  destruct (String.eqb (name attacker) "E1"); cbn;
    [destruct (isDeployedStance (stance attacker))|]; reflexivity.
Qed.

(** X25.  [manageAttackMicro] gives exactly one order, to the attacker
    alone: a deploy order or an attack order on the target.  For a unit
    other than "E1" it is always the attack order; the target's type, its
    disguise and the attacker's primary weapon range change nothing. *)
Theorem attack_micro_gives_one_order (attacker target : MicroUnit) :
  (manageAttackMicro getDistanceBetweenUnits attacker target = [deployOrder attacker]
   \/ manageAttackMicro getDistanceBetweenUnits attacker target
      = [attackOrderOn attacker target])
  /\ (String.eqb (name attacker) "E1" = false ->
      manageAttackMicro getDistanceBetweenUnits attacker target
      = [attackOrderOn attacker target]).
Proof.
  unfold manageAttackMicro. rewrite attackOrder_is_attack.
  destruct (String.eqb (name attacker) "E1").
  - split; [|discriminate].
    destruct (negb _ && _); [left; reflexivity|].
    destruct (isDeployedStance _ && _); [left | right]; reflexivity.
  - split; [right|]; reflexivity.
Qed.

(** X26.  The "E1" toggles around the range of its deployed weapon (the
    secondary weapon's range, or 5 when it is missing or zero): deployed,
    it packs up when the target is beyond that range and attacks
    otherwise; not deployed, it deploys when the target is within that
    range or when it has just fired, and attacks otherwise. *)
Theorem conscript_toggles_around_deployed_range (attacker target : MicroUnit) :
  String.eqb (name attacker) "E1" = true ->
  let distance := getDistanceBetweenUnits attacker target in
  let range := maxRangeOr5 (secondaryWeapon (data attacker)) in
  let orders := manageAttackMicro getDistanceBetweenUnits attacker target in
  (isDeployedStance (stance attacker) = true ->
   (distance > range -> orders = [deployOrder attacker])
   /\ (distance <= range -> orders = [attackOrderOn attacker target]))
  /\ (isDeployedStance (stance attacker) = false ->
      (distance <= range \/ isJustFired (attackState attacker) = true ->
       orders = [deployOrder attacker])
      /\ (distance > range -> isJustFired (attackState attacker) = false ->
          orders = [attackOrderOn attacker target])).
Proof.
  intros HE1 distance range orders. subst orders.
  unfold manageAttackMicro. rewrite HE1, attackOrder_is_attack.
  fold distance. fold range.
  split; intros Hd; rewrite Hd; cbn [negb andb]; split.
  - intros H. apply gt_true in H. rewrite H. reflexivity.
  - intros H. apply gt_false in H. rewrite H. reflexivity.
  - intros [H|H].
    + apply le_true in H. rewrite H. reflexivity.
    + rewrite H, orb_true_r. reflexivity.
  - intros H Hj. apply le_false in H. rewrite H, Hj. reflexivity.
Qed.

End MicroOrders.

(** A deployed conscript packs up before it moves. *)
Lemma move_micro_on_deployed_conscript :
  Micro.manageMoveMicro (conscript (Some Micro.Deployed)) {| x := 3; y := 4 |}
  = [deployOrder (conscript (Some Micro.Deployed));
     moveOrderTo (conscript (Some Micro.Deployed)) {| x := 3; y := 4 |}].
Proof. reflexivity. Qed.

(** A tank 10 away, beyond the deployed range 6: the deployed conscript
    packs up, the one on its feet attacks. *)
Lemma conscript_toggles_around_deployed_range_witness :
  Micro.manageAttackMicro tenAway (conscript (Some Micro.Deployed)) hostileTank
  = [deployOrder (conscript (Some Micro.Deployed))]
  /\ Micro.manageAttackMicro tenAway (conscript None) hostileTank
     = [attackOrderOn (conscript None) hostileTank].
Proof.
  assert (Hrange : Micro.maxRangeOr5 (Some {| maxRange := 6 |}) = 6%R).
  { unfold Micro.maxRangeOr5; cbn.
    replace (JS.truthy 6) with true; [reflexivity|].
    symmetry. apply truthy_true. lra. }
  split.
  - apply (proj1 (@conscript_toggles_around_deployed_range tenAway
                    (conscript (Some Micro.Deployed)) hostileTank eq_refl) eq_refl).
    cbn [conscript Micro.data secondaryWeapon]. rewrite Hrange. unfold tenAway. lra.
  - apply (proj2 (@conscript_toggles_around_deployed_range tenAway
                    (conscript None) hostileTank eq_refl) eq_refl);
      [|reflexivity].
    cbn [conscript Micro.data secondaryWeapon]. rewrite Hrange. unfold tenAway. lra.
Defined.
